(** * The C event loop of JavaScript-Duktape-XS (c_eventloop.c)

    A shallow embedding of the timer registry, the poll set and the
    reactor loop, and the properties of its specification.

    Conventions of the embedding:
    - a C [double] is an IEEE 754 binary64 value, [spec_float] with
      precision 53 and maximal exponent 1024;
    - [timer_list] (with [timer_count]) is the list of its dense part,
      index 0 first, so [timer_count] is its length; the slots from
      [timer_count] on are zero in the C array;
    - [poll_list] (with [poll_count]) likewise;
    - an [int64_t] timer id is an integer; [timer_next_id] only grows from
      1 and its overflow is not modelled;
    - the global stash object [eventTimers] is a finite map from timer
      ids to callback handles (the C code uses the id converted to a
      double as the property key);
    - JavaScript code is a tree of the calls it makes into the event
      loop, each continuation receiving the call's result; the arguments
      of a call have the types the C function requires (with another type
      [duk_require_number] and the like throw before anything is done),
      and [deleteTimer] and [listenFd] receive their numbers already
      converted to [int64_t] and [int];
    - undefined behaviour of the C code (reading through a NULL pointer,
      converting a NaN to [int]) ends the run with a fault. *)

From Stdlib Require Import ZArith List Bool Lia SpecFloat.
From stdpp Require Import base option list sorting gmap.

Local Open Scope Z_scope.

(** ** C doubles *)

Module Double.

Definition prec : Z := 53.
Definition emax : Z := 1024.

Definition add : spec_float -> spec_float -> spec_float := SFadd prec emax.
Definition sub : spec_float -> spec_float -> spec_float := SFsub prec emax.
(** [x < y], [x <= y] and [x > y] of C: false as soon as one side is NaN. *)
Definition ltb : spec_float -> spec_float -> bool := SFltb.
Definition leb : spec_float -> spec_float -> bool := SFleb.
Definition gtb (x y : spec_float) : bool := SFltb y x.

Definition of_Z (z : Z) : spec_float := binary_normalize prec emax z 0 false.

Definition is_nan (x : spec_float) : bool :=
  match x with S754_nan => true | _ => false end.

Definition is_finite (x : spec_float) : bool :=
  match x with S754_zero _ | S754_finite _ _ _ => true | _ => false end.

Definition zero : spec_float := S754_zero false.
Definition nan : spec_float := S754_nan.

(** The conversion [(int) d]: truncation towards zero.  C leaves the
    conversion of NaN, of an infinity and of a value outside the range of
    [int] undefined: [None]. *)
Definition to_int (x : spec_float) : option Z :=
  match x with
  | S754_zero _ => Some 0
  | S754_finite s m e =>
      let a := match e with
               | Z0 => Zpos m
               | Zpos p => Zpos m * 2 ^ Zpos p
               | Zneg p => Zpos m / 2 ^ Zpos p
               end in
      let v := if s then - a else a in
      if (- 2 ^ 31 <=? v) && (v <? 2 ^ 31) then Some v else None
  | _ => None
  end.

End Double.

(** ** Constants *)

Definition MAX_TIMERS : nat := 4096.
Definition MIN_DELAY : spec_float := Double.of_Z 1.
Definition MIN_WAIT : spec_float := Double.of_Z 1.
Definition MAX_WAIT : spec_float := Double.of_Z 60000.
Definition MAX_EXPIRYS : nat := 10.
Definition MAX_FDS : nat := 256.

(** ** Data *)

Record ev_timer := mk_timer {
  id : Z;                (* int64_t: numeric ID; zero if unused *)
  target : spec_float;   (* next target time *)
  delay : spec_float;    (* delay/interval *)
  oneshot : bool;        (* oneshot=1 (setTimeout), repeated=0 (setInterval) *)
  removed : bool         (* timer has been requested for removal *)
}.

(** What [memset(t, 0, sizeof(ev_timer))] leaves. *)
Definition timer_zero : ev_timer := mk_timer 0 Double.zero Double.zero false false.

Record pollfd := mk_pollfd {
  fd : Z;        (* int *)
  events : Z;    (* short *)
  revents : Z    (* short *)
}.

(** [pfd->events = events] stores an [int] in a [short]. *)
Definition to_short (z : Z) : Z := (z + 2 ^ 15) mod 2 ^ 16 - 2 ^ 15.

(** ** JavaScript code

    A callback handle names a JavaScript function.  What a function does to
    the event loop is the tree of its calls to [EventLoop.createTimer],
    [EventLoop.deleteTimer], [EventLoop.listenFd] and
    [EventLoop.requestExit]; a continuation receives what the call returned,
    or that it threw, and the tree ends when the function returns or lets
    an error escape.  [JsCreateTimer] carries the clock reading of the call
    ([now_us() / 1000.0]). *)

Definition handle := nat.

Inductive js : Type :=
| JsReturn
| JsThrow
| JsCreateTimer (now : spec_float) (cb : handle) (delay : spec_float)
    (oneshot : bool) (k : option Z -> js)        (* [None]: RangeError *)
| JsDeleteTimer (timer_id : Z) (k : bool -> js)  (* the boolean returned *)
| JsListenFd (fd events : Z) (k : bool -> js)    (* [false]: Error thrown *)
| JsRequestExit (k : js).

(** ** The state of the module: its statics and the stash *)

Record state := mk_state {
  timer_list : list ev_timer;       (* timer_list[0 .. timer_count - 1] *)
  timer_expiring : ev_timer;
  timer_next_id : Z;
  poll_list : list pollfd;          (* poll_list[0 .. poll_count - 1] *)
  exit_requested : bool;
  eventTimers : gmap Z handle;      (* <stash>.eventTimers *)
  calls : nat                       (* not a C variable: the number of
                                       callbacks invoked so far, on which
                                       what a callback does may depend *)
}.

Definition timer_count (st : state) : nat := length (timer_list st).
Definition poll_count (st : state) : nat := length (poll_list st).

Definition set_timer_list (l : list ev_timer) (st : state) : state :=
  mk_state l (timer_expiring st) (timer_next_id st) (poll_list st)
           (exit_requested st) (eventTimers st) (calls st).
Definition set_timer_expiring (t : ev_timer) (st : state) : state :=
  mk_state (timer_list st) t (timer_next_id st) (poll_list st)
           (exit_requested st) (eventTimers st) (calls st).
Definition set_timer_next_id (n : Z) (st : state) : state :=
  mk_state (timer_list st) (timer_expiring st) n (poll_list st)
           (exit_requested st) (eventTimers st) (calls st).
Definition set_poll_list (l : list pollfd) (st : state) : state :=
  mk_state (timer_list st) (timer_expiring st) (timer_next_id st) l
           (exit_requested st) (eventTimers st) (calls st).
Definition set_exit_requested (b : bool) (st : state) : state :=
  mk_state (timer_list st) (timer_expiring st) (timer_next_id st) (poll_list st)
           b (eventTimers st) (calls st).
Definition set_eventTimers (m : gmap Z handle) (st : state) : state :=
  mk_state (timer_list st) (timer_expiring st) (timer_next_id st) (poll_list st)
           (exit_requested st) m (calls st).
Definition set_calls (n : nat) (st : state) : state :=
  mk_state (timer_list st) (timer_expiring st) (timer_next_id st) (poll_list st)
           (exit_requested st) (eventTimers st) n.

Definition set_removed (b : bool) (t : ev_timer) : ev_timer :=
  mk_timer (id t) (target t) (delay t) (oneshot t) b.
Definition set_target (x : spec_float) (t : ev_timer) : ev_timer :=
  mk_timer (id t) x (delay t) (oneshot t) (removed t).
Definition set_fd (z : Z) (p : pollfd) : pollfd := mk_pollfd z (events p) (revents p).
Definition set_events (z : Z) (p : pollfd) : pollfd := mk_pollfd (fd p) z (revents p).
Definition set_revents (z : Z) (p : pollfd) : pollfd := mk_pollfd (fd p) (events p) z.

(** [eventloop_register]: the arrays and the holder zeroed, the counters at
    their static initial values, an empty [eventTimers] object. *)
Definition eventloop_register : state :=
  mk_state [] timer_zero 1 [] false ∅ 0.

(** ** What the program does, as a trace *)

Inductive event :=
| EvTimerCallback (timer_id : Z)
    (* expire_timers: duk_pcall of eventTimers[timer_id] *)
| EvFdCallback (fd revents : Z)
    (* eventloop_run: duk_pcall_method of fdPollHandler *)
| EvCreateTimer (r : option Z) (timers : list ev_timer)
    (* create_timer returned [r]; the timer list it left *)
| EvDeleteTimer (timer_id : Z) (found : bool) (timers : list ev_timer)
    (* delete_timer returned [found]; the timer list it left *)
| EvRequeue (timer_id : Z) (timers : list ev_timer)
    (* expire_timers queued an interval timer back; the timer list it left *)
| EvListenFd (fd events : Z) (ok : bool)
| EvRequestExit
| EvPoll (nfds : nat) (timeout : Z)
    (* poll(poll_list, poll_count, timeout) *)
| EvLog (timer_id : Z) (fd : option Z).
    (* duk_console_log: a callback failed *)

(** ** Timer registry *)

(** [find_nearest_timer]: the index of the last timer, [None] for NULL. *)
Definition find_nearest_timer (st : state) : option nat :=
  match timer_count st with
  | O => None
  | S i => Some i
  end.

(** The loop of [bubble_last_timer], entered with [i]: the timer to bubble is
    at index [i], the timer to compare it to at [i - 1]. *)
Fixpoint bubble_loop (i : nat) (l : list ev_timer) : list ev_timer :=
  match i with
  | O => l
  | S j =>
      match l !! i, l !! j with
      | Some t, Some p =>
          if Double.leb (target t) (target p) then l
          else bubble_loop j (<[j := t]> (<[i := p]> l))
      | _, _ => l
      end
  end.

Definition bubble_last_timer (l : list ev_timer) : list ev_timer :=
  bubble_loop (length l - 1) l.

Definition create_timer (now : spec_float) (cb : handle) (delay0 : spec_float)
    (oneshot0 : bool) (st : state) : state * option Z :=
  let delay1 := if Double.ltb delay0 MIN_DELAY then MIN_DELAY else delay0 in
  if (MAX_TIMERS <=? timer_count st)%nat then (st, None)
  else
    let timer_id := timer_next_id st in
    let t := mk_timer timer_id (Double.add now delay1) delay1 oneshot0 false in
    let st1 := set_timer_list (bubble_last_timer (timer_list st ++ [t]))
                 (set_timer_next_id (timer_id + 1) st) in
    (set_eventTimers (<[timer_id := cb]> (eventTimers st1)) st1, Some timer_id).

(** The scan of [delete_timer]: the first timer with the id is taken out and
    the timers after it move down. *)
Fixpoint remove_timer (timer_id : Z) (l : list ev_timer) : option (list ev_timer) :=
  match l with
  | [] => None
  | t :: l' =>
      if id t =? timer_id then Some l'
      else option_map (cons t) (remove_timer timer_id l')
  end.

Definition delete_timer (timer_id : Z) (st : state) : state * bool :=
  if id (timer_expiring st) =? timer_id then
    (set_timer_expiring (set_removed true (timer_expiring st)) st, true)
  else
    match remove_timer timer_id (timer_list st) with
    | Some l => (set_eventTimers (delete timer_id (eventTimers st)) (set_timer_list l st), true)
    | None => (st, false)
    end.

(** ** Poll set *)

Fixpoint listen_scan (fd0 events0 : Z) (l : list pollfd) : option (list pollfd) :=
  match l with
  | [] => None
  | p :: l' =>
      if fd p =? fd0 then
        Some ((if events0 =? 0 then set_fd 0 p else set_events (to_short events0) p) :: l')
      else option_map (cons p) (listen_scan fd0 events0 l')
  end.

Definition listen_fd (fd0 events0 : Z) (st : state) : state * bool :=
  match listen_scan fd0 events0 (poll_list st) with
  | Some l => (set_poll_list l st, true)
  | None =>
      if (MAX_FDS <=? poll_count st)%nat then (st, false)
      else (set_poll_list (poll_list st ++ [mk_pollfd fd0 (to_short events0) 0]) st, true)
  end.

Fixpoint compact (l : list pollfd) : list pollfd :=
  match l with
  | [] => []
  | p :: l' => if fd p =? 0 then compact l' else p :: compact l'
  end.

Definition compact_poll_list (st : state) : state :=
  set_poll_list (compact (poll_list st)) st.

(** The loop of [compact_poll_list] as it is written, on the array [a]
    ([poll_list] with its unused entries): [i] is the input index, [j] the
    output index and [k] the number of rounds left, [n - i]. *)
Definition pollfd_zero : pollfd := mk_pollfd 0 0 0.

Fixpoint compact_loop (k i j : nat) (a : list pollfd) : list pollfd * nat :=
  match k with
  | O => (a, j)
  | S k' =>
      let pfd := nth i a pollfd_zero in
      if fd pfd =? 0 then compact_loop k' (S i) j a
      else compact_loop k' (S i) (S j) (if (i =? j)%nat then a else <[j := pfd]> a)
  end.

(** [memset(poll_list + j, 0, k * sizeof(struct pollfd))], within the
    array. *)
Definition zeroize (j k : nat) (a : list pollfd) : list pollfd :=
  take j a ++ replicate k pollfd_zero ++ drop (j + k) a.

(** [compact_poll_list] on the array [a] with [poll_count = n]: the array
    and [poll_count] when it returns. *)
Definition compact_array (a : list pollfd) (n : nat) : list pollfd * nat :=
  let '(a1, j) := compact_loop n 0 0 a in
  ((if (j <? n)%nat then zeroize j (n - j) a1 else a1), j).

Definition request_exit (st : state) : state := set_exit_requested true st.

(** ** Running JavaScript code against the module *)

Fixpoint run_js (p : js) (st : state) : state * bool * list event :=
  match p with
  | JsReturn => (st, true, [])
  | JsThrow => (st, false, [])
  | JsCreateTimer now cb d o k =>
      let '(st1, r) := create_timer now cb d o st in
      let '(st2, ok, tr) := run_js (k r) st1 in
      (st2, ok, EvCreateTimer r (timer_list st1) :: tr)
  | JsDeleteTimer i k =>
      let '(st1, b) := delete_timer i st in
      let '(st2, ok, tr) := run_js (k b) st1 in
      (st2, ok, EvDeleteTimer i b (timer_list st1) :: tr)
  | JsListenFd f e k =>
      let '(st1, b) := listen_fd f e st in
      let '(st2, ok, tr) := run_js (k b) st1 in
      (st2, ok, EvListenFd f e b :: tr)
  | JsRequestExit k =>
      let '(st2, ok, tr) := run_js k (request_exit st) in
      (st2, ok, EvRequestExit :: tr)
  end.

(** What the environment decides: [script h n] is what the function behind
    handle [h] does when it is the [n]-th callback invoked (a closure may
    behave differently from one call to the next), [fd_handler n fd revents]
    what [EventLoop.fdPollHandler] does. *)

Section Reactor.

Variable script : handle -> nat -> js.
Variable fd_handler : nat -> Z -> Z -> js.

(** [duk_get_prop] of [eventTimers[timer_id]] and [duk_pcall]: calling
    [undefined] fails. *)
Definition call_timer (timer_id : Z) (st : state) : state * bool * list event :=
  let st1 := set_calls (S (calls st)) st in
  match eventTimers st !! timer_id with
  | Some h => run_js (script h (calls st)) st1
  | None => (st1, false, [])
  end.

Definition call_fd (fd0 revents0 : Z) (st : state) : state * bool * list event :=
  run_js (fd_handler (calls st) fd0 revents0) (set_calls (S (calls st)) st).

(** *** expire_timers *)

Inductive flow := Break | Continue | Throw.

(** One round of the [while (sanity-- > 0)] loop. *)
Definition expire_iter (now : spec_float) (st : state) : flow * state * list event :=
  if exit_requested st then (Break, st, [])
  else
    match find_nearest_timer st with
    | None => (Break, st, [])
    | Some i =>
        let t := nth i (timer_list st) timer_zero in
        if Double.gtb (target t) now then (Break, st, [])
        else
          let t1 := if oneshot t then set_removed true t
                    else set_target (Double.add now (delay t)) t in
          let st1 := set_timer_expiring t1 (set_timer_list (take i (timer_list st)) st) in
          let '(st2, ok, tr) := call_timer (id t1) st1 in
          let te := timer_expiring st2 in
          let tr1 := EvTimerCallback (id t1) :: tr ++ (if ok then [] else [EvLog (id te) None]) in
          if removed te then
            (Continue, set_eventTimers (delete (id te) (eventTimers st2)) st2, tr1)
          else if (MAX_TIMERS <=? timer_count st2)%nat then
            (Throw, st2, tr1)
          else
            let l := bubble_last_timer (timer_list st2 ++ [te]) in
            (Continue, set_timer_list l st2, tr1 ++ [EvRequeue (id te) l])
    end.

Fixpoint expire_loop (sanity : nat) (now : spec_float) (st : state)
  : flow * state * list event :=
  match sanity with
  | O => (Break, st, [])
  | S sanity' =>
      match expire_iter now st with
      | (Continue, st1, tr1) =>
          let '(f, st2, tr2) := expire_loop sanity' now st1 in
          (f, st2, tr1 ++ tr2)
      | r => r
      end
  end.

(** [expire_timers]: [true] when it returns, [false] when [duk_error] leaves
    it (the holder is then not cleared). *)
Definition expire_timers (now : spec_float) (st : state) : bool * state * list event :=
  match expire_loop MAX_EXPIRYS now st with
  | (Throw, st1, tr) => (false, st1, tr)
  | (_, st1, tr) => (true, set_timer_expiring timer_zero st1, tr)
  end.

(** *** eventloop_run *)

(** What [poll] does: when it fails it returns a negative value, having
    reported no event ([poll_list] is as it was); otherwise it writes every
    [revents] and returns how many are not zero. *)
Inductive poll_result :=
| PollError
| PollDone (revs : list Z).

Fixpoint write_revents (revs : list Z) (l : list pollfd) : list pollfd :=
  match l with
  | [] => []
  | p :: l' => set_revents (hd 0 revs) p :: write_revents (tl revs) l'
  end.

Definition poll (r : poll_result) (l : list pollfd) : list pollfd * Z :=
  match r with
  | PollError => (l, -1)
  | PollDone revs =>
      let l' := write_revents revs l in
      (l', Z.of_nat (length (filter (fun p => revents p ≠ 0) l')))
  end.

(** What one round of the loop reads from outside: the clock in
    [expire_timers], the clock before the wait, and [poll]. *)
Record tick := mk_tick {
  now_expire : spec_float;
  now_wait : spec_float;
  polled : poll_result
}.

Inductive fault :=
| NullTimerRead     (* t->id with t == NULL *)
| DoubleToInt.      (* (int) diff with diff not representable *)

Inductive stop :=
| Exited            (* exit requested *)
| Idle              (* no timers and no sockets to poll *)
| Threw             (* out of timer slots in expire_timers *)
| Faulted (f : fault)
| Running.          (* the rounds given are used up *)

(** The pass over [poll_list] after [poll]: index [i], [todo] entries to go;
    [t] is what [find_nearest_timer] returned before the wait. *)
Fixpoint dispatch (todo i : nat) (t : option nat) (st : state)
  : option fault * state * list event :=
  match todo with
  | O => (None, st, [])
  | S todo' =>
      match poll_list st !! i with
      | None => (None, st, [])
      | Some pfd =>
          if fd pfd =? 0 then dispatch todo' (S i) t st
          else if revents pfd =? 0 then dispatch todo' (S i) t st
          else
            let '(st1, ok, tr) := call_fd (fd pfd) (revents pfd) st in
            let tr1 := EvFdCallback (fd pfd) (revents pfd) :: tr in
            let pfd1 := nth i (poll_list st1) pfd in
            let st2 := set_poll_list (<[i := set_revents 0 pfd1]> (poll_list st1)) st1 in
            if ok then
              let '(f, st3, tr3) := dispatch todo' (S i) t st2 in
              (f, st3, tr1 ++ tr3)
            else
              match t with
              | None => (Some NullTimerRead, st1, tr1)
              | Some ti =>
                  let log := EvLog (id (nth ti (timer_list st1) timer_zero)) (Some (fd pfd1)) in
                  let '(f, st3, tr3) := dispatch todo' (S i) t st2 in
                  (f, st3, tr1 ++ log :: tr3)
              end
      end
  end.

Definition clamp_wait (diff : spec_float) : spec_float :=
  if Double.ltb diff MIN_WAIT then MIN_WAIT
  else if Double.gtb diff MAX_WAIT then MAX_WAIT
  else diff.

(** A round of [for (;;)] from the test of [exit_requested] on, after
    [expire_timers] has returned: [Some s] when the loop is left. *)
Definition run_after_expiry (tk : tick) (st1 : state) : option stop * state * list event :=
  if exit_requested st1 then (Some Exited, st1, [])
  else
    let st2 := compact_poll_list st1 in
    let t := find_nearest_timer st2 in
    let wait :=
      match t with
      | Some i =>
          let diff := Double.sub (target (nth i (timer_list st2) timer_zero)) (now_wait tk) in
          inr (Double.to_int (clamp_wait diff))
      | None =>
          if (poll_count st2 =? 0)%nat then inl Idle
          else inr (Double.to_int MAX_WAIT)
      end in
    match wait with
    | inl s => (Some s, st2, [])
    | inr None => (Some (Faulted DoubleToInt), st2, [])
    | inr (Some timeout) =>
        let '(l, rc) := poll (polled tk) (poll_list st2) in
        let st3 := set_poll_list l st2 in
        let n := if rc =? 0 then O else poll_count st3 in
        let '(f, st4, tr4) := dispatch n 0 t st3 in
        (option_map Faulted f, st4, EvPoll (poll_count st2) timeout :: tr4)
    end.

(** One round of [for (;;)]. *)
Definition run_iter (tk : tick) (st : state) : option stop * state * list event :=
  let '(returned, st1, tr1) := expire_timers (now_expire tk) st in
  if negb returned then (Some Threw, st1, tr1)
  else
    let '(r, st2, tr2) := run_after_expiry tk st1 in
    (r, st2, tr1 ++ tr2).

Fixpoint eventloop_run (env : list tick) (st : state) : stop * state * list event :=
  match env with
  | [] => (Running, st, [])
  | tk :: env' =>
      match run_iter tk st with
      | (Some s, st1, tr1) => (s, st1, tr1)
      | (None, st1, tr1) =>
          let '(s, st2, tr2) := eventloop_run env' st1 in
          (s, st2, tr1 ++ tr2)
      end
  end.

End Reactor.

(** ** Properties of states and of traces *)

Definition ids (l : list ev_timer) : list Z := id <$> l.
Arguments ids : simpl never.

(** The pending timers in the order they expire: [find_nearest_timer] reads
    the end of [timer_list], so this is [timer_list] read backwards. *)
Definition pending (st : state) : list ev_timer := rev (timer_list st).

(** Ascending by [target], with the [<=] of C doubles. *)
Fixpoint ascending (l : list ev_timer) : bool :=
  match l with
  | [] => true
  | a :: l' =>
      match l' with
      | [] => true
      | b :: _ => Double.leb (target a) (target b) && ascending l'
      end
  end.

(** In [timer_list], [a] may stand before [b]. *)
Definition later (a b : ev_timer) : Prop := Double.leb (target b) (target a) = true.

Definition timed (t : ev_timer) : Prop :=
  Double.is_nan (target t) = false /\ Double.is_nan (delay t) = false.

Record ordered (st : state) : Prop := mk_ordered {
  ordered_list : StronglySorted later (timer_list st);
  ordered_timed : Forall timed (timer_list st);
  ordered_holder : timed (timer_expiring st)
}.

(** The timer list a call left, for the events that carry one. *)
Definition snapshot (e : event) : option (list ev_timer) :=
  match e with
  | EvCreateTimer _ l | EvDeleteTimer _ _ l | EvRequeue _ l => Some l
  | _ => None
  end.

Definition snapshot_ascending (e : event) : Prop :=
  forall l, snapshot e = Some l -> ascending (rev l) = true.

(** The ids on the list are positive, below [timer_next_id] and used once;
    [timer_next_id] is positive. *)
Record wf (st : state) : Prop := mk_wf {
  wf_nodup : NoDup (ids (timer_list st));
  wf_ids : Forall (fun t => 1 <= id t < timer_next_id st) (timer_list st);
  wf_next : 1 <= timer_next_id st
}.

(** [wf] while a timer callback runs ([busy = true]: the holder has the
    timer, which is off the list) and between callbacks. *)
Definition wf_in (busy : bool) (st : state) : Prop :=
  wf st /\
  (busy = true ->
   1 <= id (timer_expiring st) < timer_next_id st /\
   id (timer_expiring st) ∉ ids (timer_list st)).

(** The id [i] was given out and is not on the list. *)
Definition retired (i : Z) (st : state) : Prop :=
  (i ∉ ids (timer_list st)) /\ 1 <= i < timer_next_id st.

(** The timer [i] has been discarded, or is in the holder marked removed
    and about to be. *)
Definition gone (i : Z) (st : state) : Prop :=
  retired i st /\
  (id (timer_expiring st) = i -> removed (timer_expiring st) = true).

(** The timer [i] is gone and [eventTimers] has no callback for it. *)
Definition discarded (i : Z) (st : state) : Prop :=
  gone i st /\ eventTimers st !! i = None.

(** [discarded], with the holder as [expire_timers] leaves it: unmarked
    when it threw, else empty. *)
Definition discarded_in (i : Z) (busy : bool) (st : state) : Prop :=
  discarded i st /\
  (if busy then removed (timer_expiring st) = false
   else id (timer_expiring st) = 0).

(** [expire_timers] at [now] fires [t] first: exit is not requested, [t] is
    the last timer of the list and its target is not after [now]. *)
Definition fires (now : spec_float) (st : state) (t : ev_timer) : Prop :=
  exit_requested st = false /\
  last (timer_list st) = Some t /\
  Double.gtb (target t) now = false.

(** The state in which the callback of that timer is called: the timer
    moved from the list to the holder, marked if one-shot and with its next
    target if not. *)
Definition popped (now : spec_float) (st : state) : state :=
  match find_nearest_timer st with
  | None => st
  | Some i =>
      let t := nth i (timer_list st) timer_zero in
      let t1 := if oneshot t then set_removed true t
                else set_target (Double.add now (delay t)) t in
      set_timer_expiring t1 (set_timer_list (take i (timer_list st)) st)
  end.

(** The holder is [h], up to its [removed] mark. *)
Definition holds (h : ev_timer) (st : state) : Prop :=
  set_removed true (timer_expiring st) = set_removed true h.

Definition clock_ok (now : spec_float) : Prop := Double.is_finite now = true.

(** The timer [i] is neither on the list nor in the holder, and
    [eventTimers] has no callback for it. *)
Definition absent (i : Z) (st : state) : Prop :=
  (i ∉ ids (timer_list st)) /\ id (timer_expiring st) <> i /\ eventTimers st !! i = None.

(** No watched descriptor has events left over from a wait. *)
Definition polls_clear (l : list pollfd) : Prop :=
  Forall (fun p => fd p <> 0 -> revents p = 0) l.

(** JavaScript code whose calls to [createTimer] satisfy [okc]. *)
Inductive admits (okc : spec_float -> spec_float -> Prop) : js -> Prop :=
| admits_return : admits okc JsReturn
| admits_throw : admits okc JsThrow
| admits_create now cb d o k :
    okc now d -> (forall r, admits okc (k r)) -> admits okc (JsCreateTimer now cb d o k)
| admits_delete i k :
    (forall b, admits okc (k b)) -> admits okc (JsDeleteTimer i k)
| admits_listen f e k :
    (forall b, admits okc (k b)) -> admits okc (JsListenFd f e k)
| admits_exit k :
    admits okc k -> admits okc (JsRequestExit k).

(** The clock reading is finite and the delay is a number. *)
Definition regular (now d : spec_float) : Prop :=
  Double.is_finite now = true /\ Double.is_nan d = false.

Definition tame : js -> Prop := admits regular.

Definition is_timer_callback (i : Z) (e : event) : bool :=
  match e with
  | EvTimerCallback j => j =? i
  | _ => false
  end.

Definition is_callback (e : event) : bool :=
  match e with
  | EvTimerCallback _ | EvFdCallback _ _ => true
  | _ => false
  end.

(** How many callbacks a trace invokes. *)
Fixpoint callbacks (tr : list event) : nat :=
  match tr with
  | [] => O
  | e :: tr' => ((if is_callback e then 1 else 0) + callbacks tr')%nat
  end.

Definition is_poll (e : event) : bool :=
  match e with
  | EvPoll _ _ => true
  | _ => false
  end.

Definition is_fd_callback (e : event) : bool :=
  match e with
  | EvFdCallback _ _ => true
  | _ => false
  end.

(** [polls_clear] but for the entries from index [a] to index [b - 1]: during
    the pass over the poll list, those it has still to look at. *)
Definition clear_outside (a b : nat) (l : list pollfd) : Prop :=
  (b <= length l)%nat /\
  forall k p, l !! k = Some p -> (k < a \/ b <= k)%nat -> fd p <> 0 -> revents p = 0.

(** After an exit request, no callback. *)
Definition calm (tr : list event) : Prop :=
  forall pre post, tr = pre ++ EvRequestExit :: post ->
  Forall (fun e => is_callback e = false) post.

(** The event is not the callback of timer [i]. *)
Definition quiet (i : Z) (e : event) : Prop := is_timer_callback i e = false.

Definition thrown (f : flow) : bool :=
  match f with Throw => true | _ => false end.

Definition threw (s : option stop) : bool :=
  match s with Some Threw => true | _ => false end.

(** ** Properties of whole runs *)

(** A relation between a state, the trace of a stretch of a run and the
    state it ends in, that composes and that every step of the module
    satisfies. *)
Record stepwise (R : state -> list event -> state -> Prop) : Prop := mk_stepwise {
  step_nil : forall st, R st [] st;
  step_app : forall st tr1 st1 tr2 st2,
    R st tr1 st1 -> R st1 tr2 st2 -> R st (tr1 ++ tr2) st2;
  step_create : forall now cb d o st st1 r,
    create_timer now cb d o st = (st1, r) -> R st [EvCreateTimer r (timer_list st1)] st1;
  step_delete : forall i st st1 b,
    delete_timer i st = (st1, b) -> R st [EvDeleteTimer i b (timer_list st1)] st1;
  step_listen : forall f e st st1 b,
    listen_fd f e st = (st1, b) -> R st [EvListenFd f e b] st1;
  step_exit : forall st, R st [EvRequestExit] (request_exit st);
  step_calls : forall n st, R st [] (set_calls n st);
  step_pop : forall now st i t,
    find_nearest_timer st = Some i ->
    t = nth i (timer_list st) timer_zero ->
    let t1 := if oneshot t then set_removed true t
              else set_target (Double.add now (delay t)) t in
    R st [EvTimerCallback (id t1)]
      (set_timer_expiring t1 (set_timer_list (take i (timer_list st)) st));
  step_log : forall st i f, R st [EvLog i f] st;
  step_discard : forall st,
    removed (timer_expiring st) = true ->
    R st [] (set_eventTimers (delete (id (timer_expiring st)) (eventTimers st)) st);
  step_requeue : forall st l,
    removed (timer_expiring st) = false -> (timer_count st < MAX_TIMERS)%nat ->
    l = bubble_last_timer (timer_list st ++ [timer_expiring st]) ->
    R st [EvRequeue (id (timer_expiring st)) l] (set_timer_list l st);
  step_clear : forall st, R st [] (set_timer_expiring timer_zero st);
  step_compact : forall st, R st [] (compact_poll_list st);
  step_poll : forall r timeout st,
    R st [EvPoll (poll_count st) timeout] (set_poll_list (poll r (poll_list st)).1 st);
  step_fd : forall st i pfd,
    poll_list st !! i = Some pfd -> fd pfd <> 0 -> revents pfd <> 0 ->
    R st [EvFdCallback (fd pfd) (revents pfd)] st;
  step_served : forall st i p,
    poll_list st !! i = Some p ->
    R st [] (set_poll_list (<[i := set_revents 0 p]> (poll_list st)) st)
}.

(** The ids that the calls of [createTimer] returned, in the order of the
    calls. *)
Fixpoint created (tr : list event) : list Z :=
  match tr with
  | [] => []
  | EvCreateTimer (Some i) _ :: tr' => i :: created tr'
  | _ :: tr' => created tr'
  end.

(** The arrays are within their bounds. *)
Definition within (st : state) : Prop :=
  (timer_count st <= MAX_TIMERS)%nat /\ (poll_count st <= MAX_FDS)%nat.

(** The timer list a call left fits [timer_list]; [poll] is given no more
    than [MAX_FDS] entries. *)
Definition fits (e : event) : Prop :=
  match e with
  | EvPoll n _ => (n <= MAX_FDS)%nat
  | _ => forall l, snapshot e = Some l -> (length l <= MAX_TIMERS)%nat
  end.

(** The descriptors watched: those of the entries that [listen_fd] has not
    marked as deleted. *)
Definition watched (l : list pollfd) : list Z := filter (fun z => z <> 0) (fd <$> l).

(** A readiness callback is for a descriptor other than 0 and reports
    events. *)
Definition ready (e : event) : Prop :=
  match e with
  | EvFdCallback f r => f <> 0 /\ r <> 0
  | _ => True
  end.

(** The ids given out from [st] on are consecutive. *)
Definition numbered (st : state) (tr : list event) (st' : state) : Prop :=
  created tr = seqZ (timer_next_id st) (Z.of_nat (length (created tr))) /\
  timer_next_id st' = timer_next_id st + Z.of_nat (length (created tr)).

(** The arrays stay within their bounds, and so does every list a call
    leaves. *)
Definition bounded_run (st : state) (tr : list event) (st' : state) : Prop :=
  within st -> within st' /\ Forall fits tr.

(** No descriptor is watched twice. *)
Definition single_run (st : state) (tr : list event) (st' : state) : Prop :=
  NoDup (watched (poll_list st)) -> NoDup (watched (poll_list st')).

(** The timer that [create_timer] makes. *)
Definition new_timer (now d : spec_float) (o : bool) (st : state) : ev_timer :=
  let delay1 := if Double.ltb d MIN_DELAY then MIN_DELAY else d in
  mk_timer (timer_next_id st) (Double.add now delay1) delay1 o false.

(** [eventTimers] has a callback for the timers on the list and, while a
    timer callback runs ([busy = true]), for the timer in the holder, and
    for no other id. *)
Definition stash_exact (busy : bool) (st : state) : Prop :=
  wf_in busy st /\
  id (timer_expiring st) < timer_next_id st /\
  forall i, is_Some (eventTimers st !! i) <->
            i ∈ ids (timer_list st) \/ (busy = true /\ i = id (timer_expiring st)).

(** The value is one of the binary64 format: its mantissa has the length
    that goes with its exponent. *)
Definition is_double (x : spec_float) : Prop :=
  valid_binary Double.prec Double.emax x = true.

(** The timer [t] is pending as it was, or it has been cancelled and its
    id is not on the list. *)
Definition waits (t : ev_timer) (st : state) : Prop :=
  t ∈ timer_list st \/ ((id t ∉ ids (timer_list st)) /\ id t < timer_next_id st).

(** [waits], in a well-formed state; while a timer callback runs, the timer
    in the holder is another one. *)
Definition waiting (busy : bool) (t : ev_timer) (st : state) : Prop :=
  wf_in busy st /\ (busy = true -> id (timer_expiring st) <> id t) /\ waits t st.

(** ** Programs used as examples *)

Definition ms (z : Z) : spec_float := Double.of_Z z.

(** Handle 0 does nothing; handle 1 cancels timer 1; handle 2 sets a
    one-shot timer with itself as callback, at a clock reading of 0; the
    other handles throw. *)
Definition demo_script (h : handle) (n : nat) : js :=
  match h with
  | 0%nat => JsReturn
  | 1%nat => JsDeleteTimer 1 (fun _ => JsReturn)
  | 2%nat => JsCreateTimer (ms 0) 2%nat (ms 0) true (fun _ => JsReturn)
  | _ => JsThrow
  end.

Definition demo_fd_ok (n : nat) (fd0 revents0 : Z) : js := JsReturn.
Definition demo_fd_fails (n : nat) (fd0 revents0 : Z) : js := JsThrow.

(** setTimeout(f0, 50); setTimeout(f0, 10); setTimeout(f0, 30) *)
Definition demo_three : js :=
  JsCreateTimer (ms 0) 0%nat (ms 50) true (fun _ =>
  JsCreateTimer (ms 0) 0%nat (ms 10) true (fun _ =>
  JsCreateTimer (ms 0) 0%nat (ms 30) true (fun _ => JsReturn))).

(** setTimeout(f0, 10) *)
Definition demo_timeout : js :=
  JsCreateTimer (ms 0) 0%nat (ms 10) true (fun _ => JsReturn).


(** setInterval(f0, 10) *)
Definition demo_ticker : js :=
  JsCreateTimer (ms 0) 0%nat (ms 10) false (fun _ => JsReturn).

(** setTimeout(f2, 0), where f2 sets itself again *)
Definition demo_chain : js :=
  JsCreateTimer (ms 0) 2%nat (ms 0) true (fun _ => JsReturn).

(** createTimer(f0, NaN, true); createTimer(f0, 5, true) *)
Definition demo_nan : js :=
  JsCreateTimer (ms 0) 0%nat Double.nan true (fun _ =>
  JsCreateTimer (ms 0) 0%nat (ms 5) true (fun _ => JsReturn)).

(** createTimer(f0, 5, true); createTimer(f0, NaN, true) *)
Definition demo_nan_last : js :=
  JsCreateTimer (ms 0) 0%nat (ms 5) true (fun _ =>
  JsCreateTimer (ms 0) 0%nat Double.nan true (fun _ => JsReturn)).

(** listenFd(7, 1) *)
Definition demo_listen : js := JsListenFd 7 1 (fun _ => JsReturn).

Definition after (p : js) : state := (run_js p eventloop_register).1.1.

Definition demo_tick : tick := mk_tick (ms 100) (ms 100) (PollDone []).

(** listenFd(7, 1); listenFd(0, 1); listenFd(7, 0); requestExit() *)
Definition demo_watch : js :=
  JsListenFd 7 1 (fun _ => JsListenFd 0 1 (fun _ =>
  JsListenFd 7 0 (fun _ => JsRequestExit JsReturn))).

(** setTimeout(f0, 10); setTimeout(f0, 10) *)
Definition demo_twins : js :=
  JsCreateTimer (ms 0) 0%nat (ms 10) true (fun _ =>
  JsCreateTimer (ms 0) 0%nat (ms 10) true (fun _ => JsReturn)).

(** setTimeout(f0, 10); setTimeout(f0, 200) *)
Definition demo_near_far : js :=
  JsCreateTimer (ms 0) 0%nat (ms 10) true (fun _ =>
  JsCreateTimer (ms 0) 0%nat (ms 200) true (fun _ => JsReturn)).

(** [n] one-shot timers with the delay 10, and then [k]. *)
Fixpoint demo_fill (n : nat) (k : js) : js :=
  match n with
  | O => k
  | S n' => JsCreateTimer (ms 0) 0%nat (ms 10) true (fun _ => demo_fill n' k)
  end.

(** 4095 times setTimeout(f0, 10), and setInterval(f2, 10), where f2 sets a
    timer *)
Definition demo_full : js :=
  demo_fill 4095 (JsCreateTimer (ms 0) 2%nat (ms 10) false (fun _ => JsReturn)).

(** setInterval(f0, NaN) *)
Definition demo_nan_interval : js :=
  JsCreateTimer (ms 0) 0%nat Double.nan false (fun _ => JsReturn).

(** The handler for descriptors watches descriptor 9 when it is called. *)
Definition demo_fd_listens (n : nat) (fd0 revents0 : Z) : js :=
  JsListenFd 9 1 (fun _ => JsReturn).

(** listenFd(7, 1); listenFd(8, 1) *)
Definition demo_listen_two : js :=
  JsListenFd 7 1 (fun _ => JsListenFd 8 1 (fun _ => JsReturn)).

(** * Facts *)

(** ** C doubles *)

Lemma compare_antisym x y :
  SFcompare y x = option_map CompOpp (SFcompare x y).
Proof.
  destruct x as [s1| s1| |s1 m1 e1], y as [s2|s2| |s2 m2 e2]; simpl;
    try destruct s1; try destruct s2; try reflexivity.
  all: rewrite (Z.compare_antisym e2 e1);
    destruct (e2 ?= e1) eqn:E; simpl; try reflexivity;
    change (Pos.compare_cont Eq m2 m1) with (Pos.compare m2 m1);
    change (Pos.compare_cont Eq m1 m2) with (Pos.compare m1 m2);
    rewrite (Pos.compare_antisym m2 m1); now destruct (m2 ?= m1)%positive.
Qed.

Lemma leb_total x y :
  Double.is_nan x = false -> Double.is_nan y = false ->
  Double.leb x y = false -> Double.leb y x = true.
Proof.
  unfold Double.leb, SFleb. rewrite (compare_antisym x y).
  destruct x, y; try discriminate; intros _ _;
    destruct (SFcompare _ _) as [[]|] eqn:E; simpl; try discriminate; try reflexivity.
  all: destruct s, s0; discriminate.
Qed.

Lemma leb_trans x y z :
  Double.leb x y = true -> Double.leb y z = true -> Double.leb x z = true.
Proof.
  unfold Double.leb, SFleb.
  destruct x as [s1| s1| |s1 m1 e1], y as [s2|s2| |s2 m2 e2], z as [s3|s3| |s3 m3 e3];
    simpl; try destruct s1; try destruct s2; try destruct s3; simpl;
    try reflexivity; try discriminate; try (intros; assumption).
  all: change (Pos.compare_cont Eq) with Pos.compare.
  all: destruct (Z.compare_spec e1 e2), (Z.compare_spec e2 e3), (Z.compare_spec e1 e3);
    try lia; try discriminate; try reflexivity; subst.
  all: destruct (Pos.compare_spec m1 m2), (Pos.compare_spec m2 m3), (Pos.compare_spec m1 m3);
    simpl; try lia; try discriminate; try reflexivity.
Qed.

Lemma shr_1_nonneg mrs : 0 <= shr_m mrs -> 0 <= shr_m (shr_1 mrs).
Proof.
  destruct mrs as [m r s]; simpl.
  destruct m as [|p|p]; simpl; try lia; destruct p; simpl; lia.
Qed.

Lemma iter_shr_1_nonneg p : forall mrs,
  0 <= shr_m mrs -> 0 <= shr_m (SpecFloat.iter_pos shr_1 p mrs).
Proof.
  induction p as [p IH|p IH|]; intros mrs H; simpl.
  - apply IH, IH, shr_1_nonneg, H.
  - apply IH, IH, H.
  - apply shr_1_nonneg, H.
Qed.

Lemma shr_fexp_nonneg prec emax m e l :
  0 <= m -> 0 <= shr_m (fst (shr_fexp prec emax m e l)).
Proof.
  intros H. unfold shr_fexp, shr.
  assert (H0 : 0 <= shr_m (shr_record_of_loc m l)).
  { destruct l as [|[]]; simpl; exact H. }
  destruct (fexp prec emax (Zdigits2 m + e) - e); simpl; try exact H0.
  apply iter_shr_1_nonneg, H0.
Qed.

Lemma round_nearest_even_nonneg mx lx : 0 <= mx -> 0 <= round_nearest_even mx lx.
Proof.
  intros H. destruct lx as [|[]]; simpl; try lia.
  destruct (Z.even mx); lia.
Qed.

Lemma binary_round_aux_not_nan prec emax sx mx ex lx :
  0 <= mx -> binary_round_aux prec emax sx mx ex lx <> S754_nan.
Proof.
  intros H. unfold binary_round_aux.
  pose proof (shr_fexp_nonneg prec emax mx ex lx H) as H1.
  destruct (shr_fexp prec emax mx ex lx) as [mrs' e']. simpl in H1.
  pose proof (shr_fexp_nonneg prec emax _ e' loc_Exact
                (round_nearest_even_nonneg _ (loc_of_shr_record mrs') H1)) as H2.
  destruct (shr_fexp prec emax _ e' loc_Exact) as [mrs'' e'']. simpl in H2.
  destruct (shr_m mrs'') as [|p|p]; try discriminate; try lia.
  destruct (e'' <=? emax - prec); discriminate.
Qed.

Lemma binary_normalize_not_nan prec emax m e sz :
  binary_normalize prec emax m e sz <> S754_nan.
Proof.
  destruct m as [|p|p]; simpl; try discriminate.
  all: unfold binary_round; destruct (shl_align _ _ _) as [mz ez];
    apply binary_round_aux_not_nan; lia.
Qed.

(** A finite clock reading plus a delay that is a number is a number. *)
Lemma add_not_nan x y :
  Double.is_finite x = true -> Double.is_nan y = false ->
  Double.is_nan (Double.add x y) = false.
Proof.
  intros Hx Hy.
  assert (H : Double.add x y <> S754_nan).
  { unfold Double.add.
    destruct x as [s1|s1| |s1 m1 e1], y as [s2|s2| |s2 m2 e2]; simpl; try easy.
    - destruct s1, s2; discriminate.
    - apply binary_normalize_not_nan. }
  destruct (Double.add x y); try reflexivity. now elim H.
Qed.

(** ** The timer list *)

(** What the loop of [bubble_last_timer] does to the timer at index
    [length pre]: it moves down past the timers it is not [<=] to, and stops
    at the first one it is [<=] to. *)
Lemma bubble_loop_spec x : forall pre suf,
  exists pre1 pre2,
    pre = pre1 ++ pre2 /\
    bubble_loop (length pre) (pre ++ x :: suf) = pre1 ++ x :: pre2 ++ suf /\
    Forall (fun p => Double.leb (target x) (target p) = false) pre2 /\
    (forall p, last pre1 = Some p -> Double.leb (target x) (target p) = true).
Proof.
  induction pre as [|p pre IH] using rev_ind; intros suf.
  - exists [], []. simpl. repeat split; auto. discriminate.
  - rewrite length_app. simpl. replace (length pre + 1)%nat with (S (length pre)) by lia.
    simpl.
    rewrite <- app_assoc. simpl.
    replace ((pre ++ p :: x :: suf) !! S (length pre)) with (Some x).
    2:{ symmetry. rewrite (lookup_app_r pre) by lia.
        replace (S (length pre) - length pre)%nat with 1%nat by lia. reflexivity. }
    rewrite list_lookup_middle by reflexivity.
    destruct (Double.leb (target x) (target p)) eqn:E.
    + exists (pre ++ [p]), []. rewrite <- !app_assoc. simpl.
      split; [reflexivity|]. split; [reflexivity|]. split; [constructor|].
      intros q. rewrite last_snoc. now intros [= <-].
    + replace (<[length pre := x]> (<[S (length pre) := p]> (pre ++ p :: x :: suf)))
        with (pre ++ x :: p :: suf).
      2:{ symmetry.
          rewrite (insert_app_r_alt pre) by lia.
          replace (S (length pre) - length pre)%nat with 1%nat by lia. simpl.
          rewrite (insert_app_r_alt pre) by lia.
          now replace (length pre - length pre)%nat with 0%nat by lia. }
      destruct (IH (p :: suf)) as (pre1 & pre2 & -> & Hb & Hf & Hl).
      exists pre1, (pre2 ++ [p]).
      split; [now rewrite app_assoc|]. split; [|split; [|exact Hl]].
      * rewrite Hb. now rewrite <- !app_assoc.
      * apply Forall_app. split; auto.
Qed.

Lemma bubble_last_spec x l :
  exists pre1 pre2,
    l = pre1 ++ pre2 /\
    bubble_last_timer (l ++ [x]) = pre1 ++ x :: pre2 /\
    Forall (fun p => Double.leb (target x) (target p) = false) pre2 /\
    (forall p, last pre1 = Some p -> Double.leb (target x) (target p) = true).
Proof.
  destruct (bubble_loop_spec x l []) as (pre1 & pre2 & H1 & H2 & H3 & H4).
  exists pre1, pre2. rewrite app_nil_r in H2.
  unfold bubble_last_timer. rewrite length_app. simpl.
  replace (length l + 1 - 1)%nat with (length l) by lia. auto.
Qed.

Lemma bubble_last_perm x l : bubble_last_timer (l ++ [x]) ≡ₚ x :: l.
Proof.
  destruct (bubble_last_spec x l) as (pre1 & pre2 & -> & -> & _).
  now rewrite <- Permutation_middle.
Qed.

Lemma bubble_last_sorted x l :
  StronglySorted later l -> Forall timed l -> timed x ->
  StronglySorted later (bubble_last_timer (l ++ [x])).
Proof.
  intros Hs Ht Hx.
  destruct (bubble_last_spec x l) as (pre1 & pre2 & -> & -> & Hf & Hl).
  apply StronglySorted_app in Hs as (H12 & Hs1 & Hs2).
  apply Forall_app in Ht as (Ht1 & Ht2).
  apply StronglySorted_app. split; [|split]; auto.
  - intros a b Ha Hb. apply elem_of_cons in Hb as [->|Hb]; [|now apply H12].
    destruct pre1 as [|q pre1 _] using rev_ind; [now apply elem_of_nil in Ha|].
    specialize (Hl q (last_snoc _ _)).
    apply elem_of_app in Ha as [Ha|Ha].
    + apply StronglySorted_app in Hs1 as (Hq & _).
      unfold later in *. eapply leb_trans; [exact Hl|].
      apply Hq; [exact Ha|]. apply list_elem_of_singleton. reflexivity.
    + apply list_elem_of_singleton in Ha as ->. exact Hl.
  - apply StronglySorted_cons. split; auto.
    rewrite Forall_forall in *. intros p Hp. unfold later.
    apply leb_total; [apply Hx|apply (Ht2 p Hp)|now apply Hf].
Qed.

Lemma ids_cons t l : ids (t :: l) = id t :: ids l.
Proof. reflexivity. Qed.

Lemma ids_app l1 l2 : ids (l1 ++ l2) = ids l1 ++ ids l2.
Proof. apply fmap_app. Qed.

Lemma elem_of_ids i l : i ∈ ids l <-> exists t, t ∈ l /\ id t = i.
Proof.
  unfold ids. rewrite list_elem_of_fmap. split; intros (t & H1 & H2); exists t; auto.
Qed.

Lemma remove_timer_Some i l l' :
  remove_timer i l = Some l' ->
  exists l1 t l2, l = l1 ++ t :: l2 /\ l' = l1 ++ l2 /\ id t = i /\ i ∉ ids l1.
Proof.
  revert l'. induction l as [|t l IH]; intros l'; simpl; [discriminate|].
  destruct (Z.eqb_spec (id t) i) as [E|E].
  - intros [= <-]. exists [], t, l. repeat split; auto. apply not_elem_of_nil.
  - destruct (remove_timer i l) as [l0|]; simpl; [|discriminate].
    intros [= <-]. destruct (IH l0 eq_refl) as (l1 & t' & l2 & -> & -> & Hi & Hn).
    exists (t :: l1), t', l2. repeat split; auto.
    rewrite ids_cons, not_elem_of_cons. split; auto.
Qed.

Lemma remove_timer_None i l : remove_timer i l = None <-> i ∉ ids l.
Proof.
  induction l as [|t l IH]; simpl.
  - split; auto. intros _. apply not_elem_of_nil.
  - rewrite ids_cons, not_elem_of_cons. destruct (Z.eqb_spec (id t) i) as [E|E].
    + split; [discriminate|]. intros [H _]. now elim H.
    + destruct (remove_timer i l); simpl.
      * split; [discriminate|]. intros [_ H]. now apply IH in H.
      * split; auto. intros _. split; [auto|now apply IH].
Qed.

Lemma nearest_split st i :
  find_nearest_timer st = Some i ->
  timer_list st = take i (timer_list st) ++ [nth i (timer_list st) timer_zero] /\
  length (take i (timer_list st)) = i.
Proof.
  unfold find_nearest_timer, timer_count.
  destruct (timer_list st) as [|t l _] using rev_ind; [discriminate|].
  rewrite length_app. simpl. replace (length l + 1)%nat with (S (length l)) by lia.
  intros [= <-]. rewrite take_app_length, app_nth2, Nat.sub_diag by lia. simpl. auto.
Qed.

Lemma ascending_snoc l a :
  ascending (l ++ [a]) =
  ascending l && match last l with
                 | Some b => Double.leb (target b) (target a)
                 | None => true
                 end.
Proof.
  induction l as [|x l IH]; [reflexivity|].
  destruct l as [|y l]; [simpl; now rewrite andb_true_r|].
  change (ascending ((x :: y :: l) ++ [a]))
    with (Double.leb (target x) (target y) && ascending ((y :: l) ++ [a])).
  rewrite IH. change (last (x :: y :: l)) with (last (y :: l)).
  change (ascending (x :: y :: l)) with (Double.leb (target x) (target y) && ascending (y :: l)).
  now rewrite andb_assoc.
Qed.

Lemma sorted_ascending l : StronglySorted later l -> ascending (rev l) = true.
Proof.
  induction 1 as [|a l Hs IH Hf]; [reflexivity|].
  simpl. rewrite ascending_snoc, IH. simpl.
  destruct l as [|b l]; [reflexivity|].
  simpl. rewrite last_snoc. inversion Hf; subst. assumption.
Qed.

(** ** Invariants

    A property [P] of states that the four calls of the module preserve is
    preserved by JavaScript code, whatever it does; [Q] holds of every
    event on the way. *)

Section Api_invariant.

Variable P : state -> Prop.
Variable Q : event -> Prop.
Variable okc : spec_float -> spec_float -> Prop.

Hypothesis P_create : forall now cb d o st st1 r,
  P st -> okc now d -> create_timer now cb d o st = (st1, r) ->
  P st1 /\ Q (EvCreateTimer r (timer_list st1)).
Hypothesis P_delete : forall i st st1 b,
  P st -> delete_timer i st = (st1, b) ->
  P st1 /\ Q (EvDeleteTimer i b (timer_list st1)).
Hypothesis P_listen : forall f e st st1 b,
  P st -> listen_fd f e st = (st1, b) -> P st1 /\ Q (EvListenFd f e b).
Hypothesis P_exit : forall st, P st -> P (request_exit st) /\ Q EvRequestExit.

Lemma run_js_inv p : admits okc p -> forall st st' ok tr,
  P st -> run_js p st = (st', ok, tr) -> P st' /\ Forall Q tr.
Proof.
  induction 1 as [| |now cb d o k Hc Hk IH|i k Hk IH|f e k Hk IH|k Hk IHk];
    intros st st' ok tr HP; simpl.
  - intros [= <- <- <-]. auto.
  - intros [= <- <- <-]. auto.
  - destruct (create_timer now cb d o st) as [st1 r] eqn:E1.
    destruct (run_js (k r) st1) as [[st2 ok2] tr2] eqn:E2.
    intros [= <- <- <-].
    destruct (P_create _ _ _ _ _ _ _ HP Hc E1) as [HP1 HQ1].
    destruct (IH r _ _ _ _ HP1 E2). auto.
  - destruct (delete_timer i st) as [st1 b] eqn:E1.
    destruct (run_js (k b) st1) as [[st2 ok2] tr2] eqn:E2.
    intros [= <- <- <-].
    destruct (P_delete _ _ _ _ HP E1) as [HP1 HQ1].
    destruct (IH b _ _ _ _ HP1 E2). auto.
  - destruct (listen_fd f e st) as [st1 b] eqn:E1.
    destruct (run_js (k b) st1) as [[st2 ok2] tr2] eqn:E2.
    intros [= <- <- <-].
    destruct (P_listen _ _ _ _ _ HP E1) as [HP1 HQ1].
    destruct (IH b _ _ _ _ HP1 E2). auto.
  - destruct (run_js k (request_exit st)) as [[st2 ok2] tr2] eqn:E2.
    intros [= <- <- <-].
    destruct (P_exit _ HP) as [HP1 HQ1].
    destruct (IHk _ _ _ _ HP1 E2). auto.
Qed.

End Api_invariant.

(** The same for [expire_timers].  [P true] is the property while a timer
    callback runs (the holder is in use), [P false] the property between
    callbacks; when [expire_timers] throws, the holder stays in use. *)

Section Registry_invariant.

Variable script : handle -> nat -> js.
Variable P : bool -> state -> Prop.
Variable Q : event -> Prop.
Variable okc : spec_float -> spec_float -> Prop.
Variable oknow : spec_float -> Prop.

Hypothesis P_js : forall p st st' ok tr,
  admits okc p -> P true st -> run_js p st = (st', ok, tr) -> P true st' /\ Forall Q tr.
Hypothesis P_calls : forall m n st, P m st -> P m (set_calls n st).
Hypothesis P_pop : forall now st i t,
  P false st -> oknow now -> find_nearest_timer st = Some i ->
  t = nth i (timer_list st) timer_zero ->
  let t1 := if oneshot t then set_removed true t
            else set_target (Double.add now (delay t)) t in
  P true (set_timer_expiring t1 (set_timer_list (take i (timer_list st)) st)) /\
  Q (EvTimerCallback (id t1)).
Hypothesis P_discard : forall st,
  P true st -> removed (timer_expiring st) = true ->
  P false (set_eventTimers (delete (id (timer_expiring st)) (eventTimers st)) st).
Hypothesis P_requeue : forall st l,
  P true st -> removed (timer_expiring st) = false ->
  l = bubble_last_timer (timer_list st ++ [timer_expiring st]) ->
  P false (set_timer_list l st) /\ Q (EvRequeue (id (timer_expiring st)) l).
Hypothesis P_clear : forall st, P false st -> P false (set_timer_expiring timer_zero st).
Hypothesis Q_log : forall i f, Q (EvLog i f).
Hypothesis script_ok : forall h n, admits okc (script h n).

Lemma call_timer_inv i st st' ok tr :
  P true st -> call_timer script i st = (st', ok, tr) -> P true st' /\ Forall Q tr.
Proof.
  intros HP. unfold call_timer. destruct (eventTimers st !! i) as [h|].
  - apply P_js; auto.
  - intros [= <- <- <-]. auto.
Qed.

Lemma expire_iter_inv now st f st' tr :
  P false st -> oknow now -> expire_iter script now st = (f, st', tr) ->
  P (thrown f) st' /\ Forall Q tr.
Proof.
  intros HP Hn. unfold expire_iter.
  destruct (exit_requested st); [intros [= <- <- <-]; auto|].
  destruct (find_nearest_timer st) as [i|] eqn:Ei; [|intros [= <- <- <-]; auto].
  destruct (Double.gtb _ now); [intros [= <- <- <-]; auto|].
  destruct (P_pop now st i _ HP Hn Ei eq_refl) as [HP1 HQ1].
  set (t1 := if oneshot _ then _ else _) in *. clearbody t1.
  destruct (call_timer _ _ _) as [[st2 ok] trc] eqn:Ec.
  destruct (call_timer_inv _ _ _ _ _ HP1 Ec) as [HP2 HQ2].
  assert (HQ3 : Forall Q (EvTimerCallback (id t1)
      :: trc ++ (if ok then [] else [EvLog (id (timer_expiring st2)) None]))).
  { constructor; auto. apply Forall_app. split; auto. destruct ok; auto. }
  destruct (removed (timer_expiring st2)) eqn:Er.
  - intros [= <- <- <-]. simpl. auto.
  - destruct (MAX_TIMERS <=? timer_count st2)%nat.
    + intros [= <- <- <-]. auto.
    + intros [= <- <- <-].
      destruct (P_requeue st2 _ HP2 Er eq_refl) as [HP4 HQ4].
      split; auto. apply (Forall_app_2 Q (_ :: _)); auto.
Qed.

Lemma expire_loop_inv now sanity : forall st f st' tr,
  P false st -> oknow now -> expire_loop script sanity now st = (f, st', tr) ->
  P (thrown f) st' /\ Forall Q tr.
Proof.
  induction sanity as [|n IH]; intros st f st' tr HP Hn; simpl.
  - intros [= <- <- <-]. auto.
  - destruct (expire_iter script now st) as [[f1 st1] tr1] eqn:E1.
    destruct (expire_iter_inv _ _ _ _ _ HP Hn E1) as [HP1 HQ1].
    destruct f1; try (intros [= <- <- <-]; auto).
    destruct (expire_loop script n now st1) as [[f2 st2] tr2] eqn:E2.
    intros [= <- <- <-].
    destruct (IH _ _ _ _ HP1 Hn E2). split; auto. apply Forall_app. auto.
Qed.

Lemma expire_timers_inv now st r st' tr :
  P false st -> oknow now -> expire_timers script now st = (r, st', tr) ->
  P (negb r) st' /\ Forall Q tr.
Proof.
  intros HP Hn. unfold expire_timers.
  destruct (expire_loop script MAX_EXPIRYS now st) as [[f1 st1] tr1] eqn:E1.
  destruct (expire_loop_inv _ _ _ _ _ _ HP Hn E1) as [HP1 HQ1].
  destruct f1; intros [= <- <- <-]; simpl in *; auto.
Qed.

End Registry_invariant.

(** The same for the whole loop, for a property that does not depend on the
    poll list. *)

Section Loop_invariant.

Variable script : handle -> nat -> js.
Variable fd_handler : nat -> Z -> Z -> js.
Variable P : bool -> state -> Prop.
Variable Q : event -> Prop.
Variable okc : spec_float -> spec_float -> Prop.
Variable oknow : spec_float -> Prop.

Hypothesis P_js : forall p st st' ok tr,
  admits okc p -> P false st -> run_js p st = (st', ok, tr) -> P false st' /\ Forall Q tr.
Hypothesis P_expire : forall now st r st' tr,
  P false st -> oknow now -> expire_timers script now st = (r, st', tr) ->
  P (negb r) st' /\ Forall Q tr.
Hypothesis P_poll : forall l st, P false st -> P false (set_poll_list l st).
Hypothesis P_calls : forall n st, P false st -> P false (set_calls n st).
Hypothesis Q_fd : forall f r, Q (EvFdCallback f r).
Hypothesis Q_poll : forall n t, Q (EvPoll n t).
Hypothesis Q_log : forall i f, Q (EvLog i f).
Hypothesis fd_handler_ok : forall n f r, admits okc (fd_handler n f r).

Lemma dispatch_inv t todo : forall i st f st' tr,
  P false st -> dispatch fd_handler todo i t st = (f, st', tr) ->
  P false st' /\ Forall Q tr.
Proof.
  induction todo as [|n IH]; intros i st f st' tr HP; simpl.
  - intros [= <- <- <-]. auto.
  - destruct (poll_list st !! i) as [pfd|]; [|intros [= <- <- <-]; auto].
    destruct (fd pfd =? 0); [apply IH; auto|].
    destruct (revents pfd =? 0); [apply IH; auto|].
    destruct (call_fd _ _ _ _) as [[st1 ok] trc] eqn:Ec.
    unfold call_fd in Ec.
    destruct (P_js _ _ _ _ _ (fd_handler_ok _ _ _) (P_calls _ _ HP) Ec) as [HP1 HQ1].
    set (st2 := set_poll_list _ st1).
    assert (HP2 : P false st2) by (apply P_poll; auto).
    destruct ok.
    + destruct (dispatch _ _ _ _ st2) as [[f3 st3] tr3] eqn:E3.
      intros [= <- <- <-]. destruct (IH _ _ _ _ _ HP2 E3).
      split; auto. constructor; auto. apply Forall_app; auto.
    + destruct t as [ti|].
      * destruct (dispatch _ _ _ _ st2) as [[f3 st3] tr3] eqn:E3.
        intros [= <- <- <-]. destruct (IH _ _ _ _ _ HP2 E3).
        split; auto. constructor; auto. apply Forall_app; auto.
      * intros [= <- <- <-]. auto.
Qed.

Lemma run_after_expiry_inv tk st r st' tr :
  P false st -> run_after_expiry fd_handler tk st = (r, st', tr) ->
  P false st' /\ Forall Q tr /\ threw r = false.
Proof.
  intros HP. unfold run_after_expiry.
  destruct (exit_requested st); [intros [= <- <- <-]; auto|].
  assert (HP2 : P false (compact_poll_list st)) by (apply P_poll; auto).
  set (st2 := compact_poll_list st) in *.
  set (w := match find_nearest_timer st2 with Some _ => _ | None => _ end).
  assert (Hw : forall s, w = inl s -> s = Idle).
  { intros s. subst w. destruct (find_nearest_timer st2); [discriminate|].
    destruct (poll_count st2 =? 0)%nat; congruence. }
  destruct w as [s|[timeout|]].
  - intros [= <- <- <-]. rewrite (Hw s eq_refl). auto.
  - destruct (poll _ _) as [l rc].
    destruct (dispatch _ _ _ _ _) as [[f st4] tr4] eqn:E4.
    intros [= <- <- <-].
    destruct (dispatch_inv _ _ _ _ _ _ _ (P_poll l _ HP2) E4).
    split; auto. split; [auto|now destruct f].
  - intros [= <- <- <-]; auto.
Qed.

Lemma run_iter_inv tk st r st' tr :
  P false st -> oknow (now_expire tk) ->
  run_iter script fd_handler tk st = (r, st', tr) -> P (threw r) st' /\ Forall Q tr.
Proof.
  intros HP Hn. unfold run_iter.
  destruct (expire_timers _ _ _) as [[ret st1] tr1] eqn:E1.
  destruct (P_expire _ _ _ _ _ HP Hn E1) as [HP1 HQ1].
  destruct ret; simpl in *; [|intros [= <- <- <-]; auto].
  destruct (run_after_expiry _ _ _) as [[r2 st2] tr2] eqn:E2.
  intros [= <- <- <-].
  destruct (run_after_expiry_inv _ _ _ _ _ HP1 E2) as (HP2 & HQ2 & ->).
  split; auto. apply Forall_app; auto.
Qed.

Lemma eventloop_run_inv env : forall st s st' tr,
  P false st -> Forall (fun tk => oknow (now_expire tk)) env ->
  eventloop_run script fd_handler env st = (s, st', tr) ->
  P (threw (Some s)) st' /\ Forall Q tr.
Proof.
  induction env as [|tk env IH]; intros st s st' tr HP He; simpl.
  - intros [= <- <- <-]. auto.
  - inversion He as [|? ? Hn He']; subst.
    destruct (run_iter _ _ _ _) as [[r st1] tr1] eqn:E1.
    destruct (run_iter_inv _ _ _ _ _ HP Hn E1) as [HP1 HQ1].
    destruct r as [s1|]; [intros [= <- <- <-]; auto|].
    destruct (eventloop_run _ _ _ _) as [[s2 st2] tr2] eqn:E2.
    intros [= <- <- <-]. destruct (IH _ _ _ _ HP1 He' E2).
    split; auto. apply Forall_app; auto.
Qed.

End Loop_invariant.

(** ** Timer ids *)

Lemma ids_bubble x l : ids (bubble_last_timer (l ++ [x])) ≡ₚ id x :: ids l.
Proof. unfold ids. now rewrite bubble_last_perm. Qed.

Lemma ids_below n l i :
  Forall (fun t => 1 <= id t < n) l -> i ∈ ids l -> 1 <= i < n.
Proof.
  rewrite Forall_forall. intros H (t & Ht & <-)%elem_of_ids. auto.
Qed.

Lemma wf_register : wf_in false eventloop_register.
Proof. split; [|discriminate]. split; simpl; try constructor. lia. Qed.

Lemma wf_create m now cb d o st st1 r :
  wf_in m st -> create_timer now cb d o st = (st1, r) -> wf_in m st1.
Proof.
  intros [[Hn Hi Hx] Hm]. unfold create_timer.
  destruct (MAX_TIMERS <=? timer_count st)%nat.
  { intros [= <- <-]. split; [split|]; auto. }
  intros [= <- <-]. split; [split|]; simpl.
  - rewrite ids_bubble. simpl. constructor; auto.
    intros Hin. apply (ids_below _ _ _ Hi) in Hin. lia.
  - rewrite bubble_last_perm. constructor; simpl; [lia|].
    eapply Forall_impl; [exact Hi|]. simpl. intros; lia.
  - lia.
  - intros ->. destruct (Hm eq_refl) as [Hr Ho]. split; [lia|].
    rewrite ids_bubble. simpl. apply not_elem_of_cons. split; [lia|auto].
Qed.

Lemma wf_delete m i st st1 b :
  wf_in m st -> delete_timer i st = (st1, b) -> wf_in m st1.
Proof.
  intros [[Hn Hi Hx] Hm]. unfold delete_timer.
  destruct (id (timer_expiring st) =? i).
  { intros [= <- <-]. split; [split|]; auto. }
  destruct (remove_timer i (timer_list st)) as [l|] eqn:Er.
  - intros [= <- <-].
    apply remove_timer_Some in Er as (l1 & t & l2 & El & -> & _).
    rewrite El in *. rewrite ids_app, ids_cons in *.
    apply NoDup_app in Hn as (Hn1 & Hn12 & Hn2).
    apply NoDup_cons in Hn2 as (_ & Hn2).
    apply Forall_app in Hi as (Hi1 & Hi2). inversion Hi2; subst.
    split; [split|]; simpl; rewrite ?ids_app; auto.
    + apply NoDup_app. repeat split; auto.
      intros x Hx1 Hx2. apply (Hn12 x Hx1). now apply elem_of_cons; right.
    + apply Forall_app; auto.
    + intros ->. destruct (Hm eq_refl) as [Hr Ho]. split; auto.
      apply not_elem_of_app in Ho as (Ho1 & Ho2).
      apply not_elem_of_cons in Ho2 as (_ & Ho2).
      apply not_elem_of_app; auto.
  - intros [= <- <-]. split; [split|]; auto.
Qed.

Lemma wf_poll m l st : wf_in m st -> wf_in m (set_poll_list l st).
Proof. intros [[? ? ?] ?]. split; [split|]; auto. Qed.

Lemma wf_listen m f e st st1 b :
  wf_in m st -> listen_fd f e st = (st1, b) -> wf_in m st1.
Proof.
  intros Hw. unfold listen_fd.
  destruct (listen_scan f e (poll_list st)).
  - intros [= <- <-]. now apply wf_poll.
  - destruct (MAX_FDS <=? poll_count st)%nat; intros [= <- <-]; auto.
    now apply wf_poll.
Qed.

Lemma wf_exit m st : wf_in m st -> wf_in m (request_exit st).
Proof. intros [[? ? ?] ?]. split; [split|]; auto. Qed.

Lemma wf_calls m n st : wf_in m st -> wf_in m (set_calls n st).
Proof. intros [[? ? ?] ?]. split; [split|]; auto. Qed.

(** The nearest timer of a well-formed list: its id is in range and is
    not the id of another timer on the list. *)
Lemma wf_nearest st i t :
  wf st -> find_nearest_timer st = Some i ->
  t = nth i (timer_list st) timer_zero ->
  1 <= id t < timer_next_id st /\ (id t ∉ ids (take i (timer_list st))) /\
  NoDup (ids (take i (timer_list st))) /\
  Forall (fun t => 1 <= id t < timer_next_id st) (take i (timer_list st)).
Proof.
  intros [Hn Hi Hx] Ei ->.
  destruct (nearest_split st i Ei) as [El _]. set (t := nth i _ _) in *.
  rewrite El in Hn, Hi. rewrite ids_app in Hn.
  apply NoDup_app in Hn as (Hn1 & Hn12 & _).
  apply Forall_app in Hi as (Hi1 & Hi2). inversion Hi2 as [|? ? Hr _]; subst.
  repeat split; auto; try lia.
  intros Hin. apply (Hn12 _ Hin). apply list_elem_of_here.
Qed.

Lemma wf_pop now st i t :
  wf_in false st -> find_nearest_timer st = Some i ->
  t = nth i (timer_list st) timer_zero ->
  let t1 := if oneshot t then set_removed true t
            else set_target (Double.add now (delay t)) t in
  wf_in true (set_timer_expiring t1 (set_timer_list (take i (timer_list st)) st)).
Proof.
  intros [Hw _] Ei Et t1.
  destruct (wf_nearest _ _ _ Hw Ei Et) as (Hr & Hout & Hn & Hi).
  assert (E1 : id t1 = id t) by (unfold t1; now destruct (oneshot t)).
  split; [split|]; simpl; rewrite ?E1; auto. apply Hw.
Qed.

Lemma wf_discard st :
  wf_in true st ->
  wf_in false (set_eventTimers (delete (id (timer_expiring st)) (eventTimers st)) st).
Proof. intros [[? ? ?] ?]. split; [now split|discriminate]. Qed.

Lemma wf_requeue st l :
  wf_in true st ->
  l = bubble_last_timer (timer_list st ++ [timer_expiring st]) ->
  wf_in false (set_timer_list l st).
Proof.
  intros [[Hn Hi Hx] Hm] ->. destruct (Hm eq_refl) as [Hr Ho].
  split; [|discriminate]. split; simpl; auto.
  - rewrite ids_bubble. now constructor.
  - rewrite bubble_last_perm. constructor; auto.
Qed.

Lemma wf_clear st : wf_in false st -> wf_in false (set_timer_expiring timer_zero st).
Proof. intros [[? ? ?] ?]. split; [now split|discriminate]. Qed.

Lemma wf_run_js m p st st' ok tr :
  wf_in m st -> run_js p st = (st', ok, tr) -> wf_in m st'.
Proof.
  intros Hw E.
  assert (Hp : admits (fun _ _ => True) p).
  { clear. induction p; constructor; auto. }
  apply (run_js_inv (wf_in m) (fun _ => True) (fun _ _ => True)) with (st := st) in E;
    try tauto; auto.
  - intros. split; auto. eapply wf_create; eauto.
  - intros. split; auto. eapply wf_delete; eauto.
  - intros. split; auto. eapply wf_listen; eauto.
  - intros. split; auto. now apply wf_exit.
Qed.

(** ** The timer list stays ordered *)

Lemma timed_zero : timed timer_zero.
Proof. split; reflexivity. Qed.

Lemma ordered_register : ordered eventloop_register.
Proof. split; simpl; [constructor|constructor|apply timed_zero]. Qed.

Lemma ordered_create now cb d o st st1 r :
  ordered st -> regular now d -> create_timer now cb d o st = (st1, r) ->
  ordered st1 /\ snapshot_ascending (EvCreateTimer r (timer_list st1)).
Proof.
  intros [Hs Ht Hh] [Hn Hd]. unfold create_timer.
  assert (Hsnap : forall st2, ordered st2 ->
            snapshot_ascending (EvCreateTimer r (timer_list st2))).
  { intros st2 [H2 _ _] l [= <-]. now apply sorted_ascending. }
  destruct (MAX_TIMERS <=? timer_count st)%nat.
  { intros [= <- <-]. split; [now split|]. apply Hsnap. now split. }
  intros [= <- <-].
  set (d1 := if Double.ltb d MIN_DELAY then MIN_DELAY else d).
  assert (Hd1 : Double.is_nan d1 = false).
  { unfold d1. now destruct (Double.ltb d MIN_DELAY). }
  set (t := mk_timer _ _ _ _ _).
  assert (Htt : timed t).
  { split; simpl; auto. now apply add_not_nan. }
  assert (Ho : ordered (set_eventTimers (<[timer_next_id st:=cb]>
      (eventTimers (set_timer_list (bubble_last_timer (timer_list st ++ [t]))
         (set_timer_next_id (timer_next_id st + 1) st))))
      (set_timer_list (bubble_last_timer (timer_list st ++ [t]))
         (set_timer_next_id (timer_next_id st + 1) st)))).
  { split; simpl; auto.
    - now apply bubble_last_sorted.
    - rewrite bubble_last_perm. now constructor. }
  split; auto.
Qed.

Lemma ordered_delete i st st1 b :
  ordered st -> delete_timer i st = (st1, b) ->
  ordered st1 /\ snapshot_ascending (EvDeleteTimer i b (timer_list st1)).
Proof.
  intros [Hs Ht Hh] E.
  assert (Ho : ordered st1).
  { revert E. unfold delete_timer.
    destruct (id (timer_expiring st) =? i).
    { intros [= <- <-]. split; simpl; auto. }
    destruct (remove_timer i (timer_list st)) as [l|] eqn:Er.
    - intros [= <- <-].
      apply remove_timer_Some in Er as (l1 & t & l2 & El & -> & _).
      rewrite El in Hs, Ht.
      apply StronglySorted_app in Hs as (H12 & Hs1 & Hs2).
      apply StronglySorted_cons in Hs2 as (_ & Hs2).
      apply Forall_app in Ht as (Ht1 & Ht2). inversion Ht2; subst.
      split; simpl; auto.
      + apply StronglySorted_app. repeat split; auto.
        intros a c Ha Hc. apply H12; auto. now apply elem_of_cons; right.
      + apply Forall_app; auto.
    - intros [= <- <-]. now split. }
  split; auto. intros l [= <-]. apply sorted_ascending. apply Ho.
Qed.

Lemma ordered_poll l st : ordered st -> ordered (set_poll_list l st).
Proof. intros [? ? ?]. now split. Qed.

Lemma ordered_listen f e st st1 b :
  ordered st -> listen_fd f e st = (st1, b) ->
  ordered st1 /\ snapshot_ascending (EvListenFd f e b).
Proof.
  intros Ho E. split; [|intros l; discriminate]. revert E. unfold listen_fd.
  destruct (listen_scan f e (poll_list st)).
  - intros [= <- <-]. now apply ordered_poll.
  - destruct (MAX_FDS <=? poll_count st)%nat; intros [= <- <-]; auto.
    now apply ordered_poll.
Qed.

Lemma ordered_exit st :
  ordered st -> ordered (request_exit st) /\ snapshot_ascending EvRequestExit.
Proof. intros [? ? ?]. split; [now split|intros l; discriminate]. Qed.

Lemma ordered_calls n st : ordered st -> ordered (set_calls n st).
Proof. intros [? ? ?]. now split. Qed.

Lemma ordered_pop now st i t :
  ordered st -> clock_ok now -> find_nearest_timer st = Some i ->
  t = nth i (timer_list st) timer_zero ->
  let t1 := if oneshot t then set_removed true t
            else set_target (Double.add now (delay t)) t in
  ordered (set_timer_expiring t1 (set_timer_list (take i (timer_list st)) st)) /\
  snapshot_ascending (EvTimerCallback (id t1)).
Proof.
  intros [Hs Ht Hh] Hn Ei -> t1.
  destruct (nearest_split st i Ei) as [El _]. set (t := nth i _ _) in *.
  rewrite El in Hs, Ht.
  apply StronglySorted_app in Hs as (_ & Hs1 & _).
  apply Forall_app in Ht as (Ht1 & Ht2). inversion Ht2 as [|? ? [Ha Hb] _]; subst.
  split; [|intros l; discriminate].
  split; simpl; auto.
  unfold t1. destruct (oneshot t); split; simpl; auto. now apply add_not_nan.
Qed.

Lemma ordered_discard st :
  ordered st -> removed (timer_expiring st) = true ->
  ordered (set_eventTimers (delete (id (timer_expiring st)) (eventTimers st)) st).
Proof. intros [? ? ?] _. now split. Qed.

Lemma ordered_requeue st l :
  ordered st -> removed (timer_expiring st) = false ->
  l = bubble_last_timer (timer_list st ++ [timer_expiring st]) ->
  ordered (set_timer_list l st) /\ snapshot_ascending (EvRequeue (id (timer_expiring st)) l).
Proof.
  intros [Hs Ht Hh] _ ->.
  assert (H : StronglySorted later (bubble_last_timer (timer_list st ++ [timer_expiring st])))
    by now apply bubble_last_sorted.
  split.
  - split; simpl; auto. rewrite bubble_last_perm. now constructor.
  - intros l [= <-]. now apply sorted_ascending.
Qed.

Lemma ordered_clear st : ordered st -> ordered (set_timer_expiring timer_zero st).
Proof. intros [? ? ?]. split; simpl; auto. apply timed_zero. Qed.

Lemma ordered_run_js p st st' ok tr :
  tame p -> ordered st -> run_js p st = (st', ok, tr) ->
  ordered st' /\ Forall snapshot_ascending tr.
Proof.
  intros Hp. revert st st' ok tr.
  apply (run_js_inv ordered snapshot_ascending regular); auto.
  - apply ordered_create.
  - apply ordered_delete.
  - apply ordered_listen.
  - apply ordered_exit.
Qed.

Lemma ordered_expire_timers script now st r st' tr :
  (forall h n, tame (script h n)) ->
  ordered st -> clock_ok now -> expire_timers script now st = (r, st', tr) ->
  ordered st' /\ Forall snapshot_ascending tr.
Proof.
  intros Hs.
  apply (expire_timers_inv script (fun _ => ordered) snapshot_ascending regular clock_ok); auto.
  - intros p s s' ok t Hp. now apply ordered_run_js.
  - intros _. apply ordered_calls.
  - apply ordered_pop.
  - apply ordered_discard.
  - apply ordered_requeue.
  - apply ordered_clear.
  - intros i f l; discriminate.
Qed.

Lemma ordered_eventloop_run script fd_handler env st s st' tr :
  (forall h n, tame (script h n)) -> (forall n f r, tame (fd_handler n f r)) ->
  ordered st -> Forall (fun tk => clock_ok (now_expire tk)) env ->
  eventloop_run script fd_handler env st = (s, st', tr) ->
  ordered st' /\ Forall snapshot_ascending tr.
Proof.
  intros Hs Hf.
  apply (eventloop_run_inv script fd_handler (fun _ => ordered) snapshot_ascending
           regular clock_ok); auto.
  - intros p s0 s' ok t Hp. now apply ordered_run_js.
  - intros now s0 r s' t. now apply ordered_expire_timers.
  - apply ordered_poll.
  - apply ordered_calls.
  - intros f r l; discriminate.
  - intros n t l; discriminate.
  - intros i f l; discriminate.
Qed.

(** X23.  Whatever the program does (the script that sets timers up, then
    the loop, with the timer and descriptor callbacks it runs), when every
    delay passed to createTimer is a number and every clock reading is
    finite, the timer list is ordered by target after every createTimer, every
    deleteTimer and every re-insertion by expire_timers, and when the script
    and the loop end: read from the end where find_nearest_timer looks, the
    targets ascend. *)
Theorem timers_stay_ordered script fd_handler main env st1 ok tr1 s st2 tr2 :
  tame main ->
  (forall h n, tame (script h n)) ->
  (forall n f r, tame (fd_handler n f r)) ->
  Forall (fun tk => clock_ok (now_expire tk)) env ->
  run_js main eventloop_register = (st1, ok, tr1) ->
  eventloop_run script fd_handler env st1 = (s, st2, tr2) ->
  Forall snapshot_ascending (tr1 ++ tr2) /\
  ascending (pending st1) = true /\ ascending (pending st2) = true.
Proof.
  intros Hm Hs Hf He E1 E2.
  destruct (ordered_run_js _ _ _ _ _ Hm ordered_register E1) as [Ho1 Hq1].
  destruct (ordered_eventloop_run _ _ _ _ _ _ _ Hs Hf Ho1 He E2) as [Ho2 Hq2].
  split; [apply Forall_app; auto|].
  split; apply sorted_ascending; [apply Ho1|apply Ho2].
Qed.

Lemma admits_any p : admits (fun _ _ => True) p.
Proof. induction p; constructor; auto. Qed.

Lemma wf_expire_timers script now st r st' tr :
  wf_in false st -> expire_timers script now st = (r, st', tr) -> wf_in (negb r) st'.
Proof.
  intros Hw E.
  apply (expire_timers_inv script wf_in (fun _ => True) (fun _ _ => True) (fun _ => True))
    in E; auto.
  - apply E.
  - intros p s s' ok t _ H1 H2. split; [|now apply Forall_true]. eapply wf_run_js; eauto.
  - intros. now apply wf_calls.
  - intros. split; auto. now apply wf_pop.
  - intros. now apply wf_discard.
  - intros. split; auto. now apply wf_requeue.
  - apply wf_clear.
  - intros. apply admits_any.
Qed.

Lemma wf_eventloop_run script fd_handler env st s st' tr :
  wf_in false st -> eventloop_run script fd_handler env st = (s, st', tr) -> wf st'.
Proof.
  intros Hw E.
  apply (eventloop_run_inv script fd_handler wf_in (fun _ => True) (fun _ _ => True)
           (fun _ => True)) in E; auto.
  - apply E.
  - intros p s0 s' ok t _ H1 H2. split; [|now apply Forall_true]. eapply wf_run_js; eauto.
  - intros now s0 r s' t H1 _ H2. split; [|now apply Forall_true].
    eapply wf_expire_timers; eauto.
  - intros. now apply wf_poll.
  - intros. now apply wf_calls.
  - intros. apply admits_any.
  - now apply Forall_true.
Qed.

(** Every state the program reaches is well formed. *)
Lemma wf_program script fd_handler main env st1 ok tr1 s st2 tr2 :
  run_js main eventloop_register = (st1, ok, tr1) ->
  eventloop_run script fd_handler env st1 = (s, st2, tr2) ->
  wf st1 /\ wf st2.
Proof.
  intros E1 E2.
  pose proof (wf_run_js _ _ _ _ _ _ wf_register E1) as H1.
  split; [apply H1|]. eapply wf_eventloop_run; eauto.
Qed.

(** ** Retired ids *)

Lemma retired_create i now cb d o st st1 r :
  retired i st -> create_timer now cb d o st = (st1, r) ->
  retired i st1 /\ (eventTimers st !! i = None -> eventTimers st1 !! i = None).
Proof.
  intros [Hl Hr]. unfold create_timer.
  destruct (MAX_TIMERS <=? timer_count st)%nat.
  { intros [= <- <-]. now split. }
  intros [= <- <-]. unfold retired. simpl. split; [split|].
  - rewrite ids_bubble. simpl. apply not_elem_of_cons. split; [lia|auto].
  - lia.
  - intros H. rewrite lookup_insert_ne; [auto|lia].
Qed.

Lemma retired_delete i j st st1 b :
  retired i st -> delete_timer j st = (st1, b) ->
  retired i st1 /\ (eventTimers st !! i = None -> eventTimers st1 !! i = None).
Proof.
  intros [Hl Hr]. unfold delete_timer.
  destruct (id (timer_expiring st) =? j).
  { intros [= <- <-]. now split. }
  destruct (remove_timer j (timer_list st)) as [l|] eqn:Er.
  - intros [= <- <-].
    apply remove_timer_Some in Er as (l1 & t & l2 & El & -> & _).
    rewrite El, ids_app, ids_cons in Hl.
    apply not_elem_of_app in Hl as (H1 & H2).
    apply not_elem_of_cons in H2 as (_ & H2).
    unfold retired. simpl. split; [split; auto|].
    + rewrite ids_app. apply not_elem_of_app; auto.
    + intros H. rewrite lookup_delete_None. auto.
  - intros [= <- <-]. now split.
Qed.

Lemma listen_fd_timers f e st st1 b :
  listen_fd f e st = (st1, b) -> exists l, st1 = set_poll_list l st.
Proof.
  unfold listen_fd. destruct (listen_scan f e (poll_list st)) as [l|].
  - intros [= <- <-]. now exists l.
  - destruct (MAX_FDS <=? poll_count st)%nat; intros [= <- <-].
    + exists (poll_list st). now destruct st.
    + eexists. reflexivity.
Qed.


(** ** The holder while a callback runs *)

Lemma holds_run_js h p st st' ok tr :
  holds h st -> run_js p st = (st', ok, tr) ->
  holds h st' /\ (removed (timer_expiring st) = true -> removed (timer_expiring st') = true).
Proof.
  intros Hh E.
  apply (run_js_inv
           (fun s => holds h s /\
              (removed (timer_expiring st) = true -> removed (timer_expiring s) = true))
           (fun _ => True) (fun _ _ => True)) with (st := st) in E;
    try tauto; auto using admits_any.
  - intros now cb d o s s1 r H1 _. unfold create_timer.
    destruct (MAX_TIMERS <=? timer_count s)%nat; intros [= <- <-]; auto.
  - intros i s s1 b [H1 H2]. unfold delete_timer.
    destruct (id (timer_expiring s) =? i); [intros [= <- <-]; now split|].
    destruct (remove_timer i (timer_list s)); intros [= <- <-]; auto.
  - intros f e s s1 b H1 (l & ->)%listen_fd_timers. auto.
Qed.

Lemma holder_run_js p st st' ok tr :
  run_js p st = (st', ok, tr) ->
  timer_expiring st' = timer_expiring st \/
  timer_expiring st' = set_removed true (timer_expiring st).
Proof.
  intros E. destruct (holds_run_js (timer_expiring st) _ _ _ _ _ eq_refl E) as [H1 H2].
  unfold holds in H1. destruct (timer_expiring st') as [a b c d [|]],
    (timer_expiring st) as [a' b' c' d' [|]]; simpl in *; auto.
  all: injection H1 as -> -> -> ->; auto.
  specialize (H2 eq_refl). discriminate.
Qed.

Lemma holder_id_run_js p st st' ok tr :
  run_js p st = (st', ok, tr) -> id (timer_expiring st') = id (timer_expiring st).
Proof. intros [->| ->]%holder_run_js; reflexivity. Qed.

(** ** Callbacks are invoked by the loop only *)

Lemma run_js_no_callbacks p : forall st st' ok tr,
  run_js p st = (st', ok, tr) -> Forall (fun e => is_callback e = false) tr.
Proof.
  induction p as [| |now cb d o k IH|i k IH|f e k IH|k IH]; intros st st' ok tr; simpl.
  - intros [= <- <- <-]. constructor.
  - intros [= <- <- <-]. constructor.
  - destruct (create_timer now cb d o st) as [st1 r].
    destruct (run_js (k r) st1) as [[st2 ok2] tr2] eqn:E2.
    intros [= <- <- <-]. constructor; eauto.
  - destruct (delete_timer i st) as [st1 b].
    destruct (run_js (k b) st1) as [[st2 ok2] tr2] eqn:E2.
    intros [= <- <- <-]. constructor; eauto.
  - destruct (listen_fd f e st) as [st1 b].
    destruct (run_js (k b) st1) as [[st2 ok2] tr2] eqn:E2.
    intros [= <- <- <-]. constructor; eauto.
  - destruct (run_js k (request_exit st)) as [[st2 ok2] tr2] eqn:E2.
    intros [= <- <- <-]. constructor; eauto.
Qed.

Lemma not_callback_not_timer i e : is_callback e = false -> is_timer_callback i e = false.
Proof. destruct e; simpl; auto; discriminate. Qed.

Lemma call_timer_no_callbacks script i st st' ok tr :
  call_timer script i st = (st', ok, tr) -> Forall (fun e => is_callback e = false) tr.
Proof.
  unfold call_timer. destruct (eventTimers st !! i).
  - apply run_js_no_callbacks.
  - intros [= <- <- <-]. constructor.
Qed.


(** ** A discarded timer stays discarded and does not fire *)

Lemma discarded_create i now cb d o st st1 r :
  discarded i st -> create_timer now cb d o st = (st1, r) -> discarded i st1.
Proof.
  intros [[Hr Hh] Hs] E. destruct (retired_create _ _ _ _ _ _ _ _ Hr E) as [Hr1 Hs1].
  split; [split|]; auto.
  revert E. unfold create_timer.
  destruct (MAX_TIMERS <=? timer_count st)%nat; intros [= <- <-]; auto.
Qed.

Lemma discarded_delete i j st st1 b :
  discarded i st -> delete_timer j st = (st1, b) -> discarded i st1.
Proof.
  intros [[Hr Hh] Hs] E. destruct (retired_delete _ _ _ _ _ Hr E) as [Hr1 Hs1].
  split; [split|]; auto.
  revert E. unfold delete_timer.
  destruct (id (timer_expiring st) =? j); [intros [= <- <-]; auto|].
  destruct (remove_timer j (timer_list st)); intros [= <- <-]; auto.
Qed.

Lemma discarded_calls i n st : discarded i st -> discarded i (set_calls n st).
Proof. auto. Qed.

Lemma discarded_run_js i p st st' ok tr :
  discarded i st -> run_js p st = (st', ok, tr) ->
  discarded i st' /\ Forall (quiet i) tr.
Proof.
  intros Hd E. split.
  - apply (run_js_inv (discarded i) (fun _ => True) (fun _ _ => True)) with (st := st) in E;
      try tauto; auto using admits_any.
    + intros. split; auto. eapply discarded_create; eauto.
    + intros. split; auto. eapply discarded_delete; eauto.
    + intros f e s s1 b H1 (l & ->)%listen_fd_timers. now split.
  - eapply Forall_impl; [eapply run_js_no_callbacks; eauto|].
    intros e. apply not_callback_not_timer.
Qed.

Lemma discarded_pop i now st j t :
  discarded i st -> find_nearest_timer st = Some j ->
  t = nth j (timer_list st) timer_zero ->
  let t1 := if oneshot t then set_removed true t
            else set_target (Double.add now (delay t)) t in
  discarded i (set_timer_expiring t1 (set_timer_list (take j (timer_list st)) st)) /\
  quiet i (EvTimerCallback (id t1)).
Proof.
  intros [[[Hl Hr] Hh] Hs] Ej -> t1.
  destruct (nearest_split st j Ej) as [El _]. set (t := nth j _ _) in *.
  assert (E1 : id t1 = id t) by (unfold t1; now destruct (oneshot t)).
  rewrite El, ids_app, ids_cons in Hl.
  apply not_elem_of_app in Hl as (H1 & H2). apply not_elem_of_cons in H2 as (H2 & _).
  split.
  - split; [split; [split|]|]; simpl; auto. rewrite E1. intros; congruence.
  - unfold quiet. simpl. rewrite E1. apply Z.eqb_neq. congruence.
Qed.

Lemma discarded_discard i st :
  discarded i st ->
  discarded i (set_eventTimers (delete (id (timer_expiring st)) (eventTimers st)) st).
Proof.
  intros [[Hr Hh] Hs]. split; [split|]; auto. simpl.
  rewrite lookup_delete_None. auto.
Qed.

Lemma discarded_requeue i st l :
  discarded i st -> removed (timer_expiring st) = false ->
  l = bubble_last_timer (timer_list st ++ [timer_expiring st]) ->
  discarded i (set_timer_list l st) /\ quiet i (EvRequeue (id (timer_expiring st)) l).
Proof.
  intros [[[Hl Hr] Hh] Hs] Hf ->. split; [|reflexivity].
  split; [split; [split|]|]; simpl; auto.
  rewrite ids_bubble. apply not_elem_of_cons. split; auto.
  intros E. symmetry in E. apply Hh in E. congruence.
Qed.

Lemma discarded_clear i st :
  discarded i st -> discarded i (set_timer_expiring timer_zero st).
Proof.
  intros [[[Hl Hr] Hh] Hs]. split; [split; [split|]|]; simpl; auto. lia.
Qed.

Lemma discarded_expire_loop script i now sanity st f st' tr :
  discarded i st -> expire_loop script sanity now st = (f, st', tr) ->
  discarded i st' /\ Forall (quiet i) tr.
Proof.
  intros Hd E.
  apply (expire_loop_inv script (fun _ => discarded i) (quiet i) (fun _ _ => True)
           (fun _ => True)) in E; [exact E| | | | | | | |exact Hd|exact I].
  - intros. eapply discarded_run_js; eauto.
  - intros. now apply discarded_calls.
  - intros. eapply discarded_pop; eauto.
  - intros. now apply discarded_discard.
  - intros. now apply discarded_requeue.
  - reflexivity.
  - intros. apply admits_any.
Qed.

(** How [expire_timers] leaves the holder, and the list when it throws. *)
Lemma expire_loop_thrown script now sanity : forall st f st' tr,
  expire_loop script sanity now st = (f, st', tr) ->
  f = Throw ->
  removed (timer_expiring st') = false /\ (MAX_TIMERS <= timer_count st')%nat.
Proof.
  induction sanity as [|n IH]; intros st f st' tr; simpl.
  - intros [= <- <- <-]. discriminate.
  - destruct (expire_iter script now st) as [[f1 st1] tr1] eqn:E1.
    destruct f1.
    + intros [= <- <- <-]. discriminate.
    + destruct (expire_loop script n now st1) as [[f2 st2] tr2] eqn:E2.
      intros [= <- <- <-]. eapply IH; eauto.
    + intros [= <- <- <-] _. revert E1. unfold expire_iter.
      destruct (exit_requested st); [discriminate|].
      destruct (find_nearest_timer st); [|discriminate].
      destruct (Double.gtb _ now); [discriminate|].
      destruct (call_timer _ _ _) as [[st2 ok] trc].
      destruct (removed (timer_expiring st2)) eqn:Er; [discriminate|].
      destruct (MAX_TIMERS <=? timer_count st2)%nat eqn:Ec; [|discriminate].
      intros [= <- <-]. split; [exact Er|]. now apply Nat.leb_le.
Qed.

Lemma expire_timers_holder script now st r st' tr :
  expire_timers script now st = (r, st', tr) ->
  if r then timer_expiring st' = timer_zero
  else removed (timer_expiring st') = false /\ (MAX_TIMERS <= timer_count st')%nat.
Proof.
  unfold expire_timers.
  destruct (expire_loop script MAX_EXPIRYS now st) as [[f1 st1] tr1] eqn:E1.
  destruct f1; intros [= <- <- <-]; auto.
  eapply expire_loop_thrown; eauto.
Qed.

Lemma discarded_expire_timers script i now st r st' tr :
  discarded i st -> expire_timers script now st = (r, st', tr) ->
  discarded_in i (negb r) st' /\ Forall (quiet i) tr.
Proof.
  intros Hd E. pose proof (expire_timers_holder _ _ _ _ _ _ E) as Hh.
  revert E. unfold expire_timers.
  destruct (expire_loop script MAX_EXPIRYS now st) as [[f1 st1] tr1] eqn:E1.
  destruct (discarded_expire_loop _ _ _ _ _ _ _ _ Hd E1) as [Hd1 Hq1].
  destruct f1; intros [= <- <- <-]; (split; [split|]); simpl in *; auto.
  all: try now apply discarded_clear.
  apply Hh.
Qed.

Lemma discarded_in_run_js i p st st' ok tr :
  discarded_in i false st -> run_js p st = (st', ok, tr) ->
  discarded_in i false st' /\ Forall (quiet i) tr.
Proof.
  intros [Hd Hz] E. destruct (discarded_run_js _ _ _ _ _ _ Hd E).
  split; [split|]; auto. simpl in *. rewrite (holder_id_run_js _ _ _ _ _ E). auto.
Qed.

Lemma discarded_eventloop_run script fd_handler i env st s st' tr :
  discarded_in i false st -> eventloop_run script fd_handler env st = (s, st', tr) ->
  discarded_in i (threw (Some s)) st' /\ Forall (quiet i) tr.
Proof.
  intros Hd E.
  apply (eventloop_run_inv script fd_handler (discarded_in i) (quiet i) (fun _ _ => True)
           (fun _ => True)) in E; [exact E| | | | | | | | |exact Hd|now apply Forall_true].
  - intros. eapply discarded_in_run_js; eauto.
  - intros now s0 r s' t [H1 _] _ H2. eapply discarded_expire_timers; eauto.
  - intros l s0 [H1 H2]. split; auto.
  - intros n s0 [H1 H2]. split; auto.
  - reflexivity.
  - reflexivity.
  - reflexivity.
  - intros. apply admits_any.
Qed.

Lemma discarded_in_absent i m st : discarded_in i m st -> absent i st.
Proof.
  intros [[[[Hl Hr] Hh] Hs] Hm]. repeat split; auto.
  intros E. destruct m.
  - apply Hh in E. congruence.
  - lia.
Qed.

(** ** A timer that fires and is marked removed *)

Lemma last_nearest st t :
  last (timer_list st) = Some t ->
  exists i, find_nearest_timer st = Some i /\ nth i (timer_list st) timer_zero = t.
Proof.
  unfold find_nearest_timer, timer_count.
  destruct (timer_list st) as [|x l _] using rev_ind; [discriminate|].
  rewrite last_snoc. intros [= ->]. exists (length l).
  rewrite length_app. simpl. replace (length l + 1)%nat with (S (length l)) by lia.
  split; auto. now rewrite app_nth2, Nat.sub_diag by lia.
Qed.

(** The round of [expire_timers] that fires [t]: the callback is called in
    the state [popped now st]. *)
Lemma expire_iter_fires script now st t :
  fires now st t ->
  expire_iter script now st =
    let '(st2, ok, tr) := call_timer script (id t) (popped now st) in
    let te := timer_expiring st2 in
    let tr1 := EvTimerCallback (id t)
               :: tr ++ (if ok then [] else [EvLog (id te) None]) in
    if removed te then
      (Continue, set_eventTimers (delete (id te) (eventTimers st2)) st2, tr1)
    else if (MAX_TIMERS <=? timer_count st2)%nat then (Throw, st2, tr1)
    else
      let l := bubble_last_timer (timer_list st2 ++ [te]) in
      (Continue, set_timer_list l st2, tr1 ++ [EvRequeue (id te) l]).
Proof.
  intros (Hx & Hl & Hd).
  destruct (last_nearest _ _ Hl) as (i & Ei & Et).
  unfold expire_iter, popped. rewrite Hx, Ei, Et, Hd.
  set (t1 := if oneshot t then _ else _).
  assert (E1 : id t1 = id t) by (unfold t1; now destruct (oneshot t)).
  rewrite E1. reflexivity.
Qed.








(** ** deleteTimer *)


Lemma delete_timer_unknown i st :
  i ∉ ids (timer_list st) -> id (timer_expiring st) <> i ->
  delete_timer i st = (st, false).
Proof.
  intros Hl Hh. unfold delete_timer.
  apply Z.eqb_neq in Hh. rewrite Hh.
  apply remove_timer_None in Hl. now rewrite Hl.
Qed.


(** A timer callback leaves the holder as it is, or marks it. *)
Lemma call_timer_holder script i st st2 ok trc :
  call_timer script i st = (st2, ok, trc) ->
  timer_expiring st2 = timer_expiring st \/
  timer_expiring st2 = set_removed true (timer_expiring st).
Proof.
  unfold call_timer. destruct (eventTimers st !! i).
  - intros E. apply holder_run_js in E. exact E.
  - intros [= <- <- <-]. now left.
Qed.

Lemma popped_holder now st t :
  last (timer_list st) = Some t ->
  timer_expiring (popped now st) =
    (if oneshot t then set_removed true t else set_target (Double.add now (delay t)) t) /\
  timer_list st = timer_list (popped now st) ++ [t].
Proof.
  intros Hl. destruct (last_nearest _ _ Hl) as (i & Ei & Et).
  unfold popped. rewrite Ei, Et. simpl. split; auto.
  destruct (nearest_split _ _ Ei) as [El _]. now rewrite Et in El.
Qed.



(** C4, at the failing input.  Before any timer exists, deleteTimer(0)
    matches the id of the empty holder: it returns true and marks the
    holder. *)
Theorem delete_timer_zero_found :
  delete_timer 0 eventloop_register =
  (set_timer_expiring (set_removed true timer_zero) eventloop_register, true).
Proof. reflexivity. Qed.

(** C6.  An interval timer that is due, with [now] the clock reading of
    this call of expire_timers and [delay] the timer's delay.  The round that
    fires it takes it off the list and calls its callback with the holder
    having the timer at the target [now + delay]; whatever the callback does,
    the holder has that target when it returns.  What the round then does is
    decided by the state the callback leaves: when the callback has not
    cancelled the timer and a slot is free, the round queues the timer back
    with the target [now + delay] and nothing else changed; when no slot is
    free it throws, the holder keeping the timer with that target; when the
    callback has cancelled the timer it is discarded. *)
Theorem interval_target_from_now script now st t st2 ok trc :
  fires now st t -> oneshot t = false ->
  call_timer script (id t) (popped now st) = (st2, ok, trc) ->
  let t1 := set_target (Double.add now (delay t)) t in
  let tr1 := EvTimerCallback (id t) :: trc ++ (if ok then [] else [EvLog (id t) None]) in
  let l := bubble_last_timer (timer_list st2 ++ [t1]) in
  timer_list st = timer_list (popped now st) ++ [t] /\
  timer_expiring (popped now st) = t1 /\
  target (timer_expiring st2) = Double.add now (delay t) /\
  (removed (timer_expiring st2) = false -> (timer_count st2 < MAX_TIMERS)%nat ->
     expire_iter script now st = (Continue, set_timer_list l st2, tr1 ++ [EvRequeue (id t) l]) /\
     t1 ∈ l /\ length l = S (timer_count st2)) /\
  (removed (timer_expiring st2) = false -> (MAX_TIMERS <= timer_count st2)%nat ->
     expire_iter script now st = (Throw, st2, tr1) /\ timer_expiring st2 = t1) /\
  (removed (timer_expiring st2) = true ->
     expire_iter script now st =
       (Continue, set_eventTimers (delete (id t) (eventTimers st2)) st2, tr1)).
Proof.
  intros Hf Ho Ec t1 tr1 l.
  pose proof (expire_iter_fires script _ _ _ Hf) as E. rewrite Ec in E. cbv zeta in E.
  destruct Hf as (_ & Hl & _).
  destruct (popped_holder now _ _ Hl) as [Hh Hp]. rewrite Ho in Hh. fold t1 in Hh.
  assert (Hte : timer_expiring st2 = t1 \/ timer_expiring st2 = set_removed true t1).
  { destruct (call_timer_holder _ _ _ _ _ _ Ec) as [H|H]; rewrite H, Hh; auto. }
  assert (Hid : id (timer_expiring st2) = id t) by (now destruct Hte as [-> | ->]).
  rewrite Hid in E.
  split; [exact Hp|]. split; [exact Hh|].
  split; [now destruct Hte as [-> | ->]|].
  split; [|split].
  - intros Hr Hc. destruct Hte as [Hte|Hte]; [|rewrite Hte in Hr; discriminate].
    apply Nat.leb_gt in Hc. rewrite Hr, Hc, Hte in E. fold l in E.
    split; [exact E|]. unfold l. split.
    + rewrite bubble_last_perm. apply list_elem_of_here.
    + rewrite (Permutation_length (bubble_last_perm _ _)). reflexivity.
  - intros Hr Hc. destruct Hte as [Hte|Hte]; [|rewrite Hte in Hr; discriminate].
    apply Nat.leb_le in Hc. rewrite Hr, Hc in E. now split.
  - intros Hr. now rewrite Hr in E.
Qed.

(** C9.  listenFd(fd, 0) for a descriptor that is on no entry of the poll
    list: when the list is full the call throws and changes nothing;
    otherwise it adds the entry (fd, events 0, revents 0) at the end, and the
    list is one entry longer. *)
Theorem listen_unknown_fd_zero_events fd0 st :
  Forall (fun p => fd p <> fd0) (poll_list st) ->
  listen_fd fd0 0 st =
    (if (MAX_FDS <=? poll_count st)%nat then (st, false)
     else (set_poll_list (poll_list st ++ [mk_pollfd fd0 0 0]) st, true)) /\
  ((poll_count st < MAX_FDS)%nat ->
   poll_count (fst (listen_fd fd0 0 st)) = S (poll_count st)).
Proof.
  intros Hf.
  assert (Hs : listen_scan fd0 0 (poll_list st) = None).
  { induction Hf as [|p l Hp _ IH]; simpl; auto.
    apply Z.eqb_neq in Hp. now rewrite Hp, IH. }
  unfold listen_fd. rewrite Hs. split; [reflexivity|].
  intros Hlt. apply Nat.leb_gt in Hlt. rewrite Hlt. unfold poll_count. simpl.
  rewrite length_app. simpl. lia.
Qed.

(** ** The cap of expire_timers and the exit request *)

Lemma callbacks_app tr1 tr2 :
  callbacks (tr1 ++ tr2) = (callbacks tr1 + callbacks tr2)%nat.
Proof. induction tr1 as [|e tr1 IH]; simpl; [reflexivity|]. rewrite IH. lia. Qed.

Lemma callbacks_none tr :
  Forall (fun e => is_callback e = false) tr -> callbacks tr = O.
Proof. induction 1 as [|e tr He _ IH]; simpl; [reflexivity|]. now rewrite He, IH. Qed.

Lemma run_js_exit p : forall st st' ok tr,
  run_js p st = (st', ok, tr) ->
  exit_requested st = true \/ EvRequestExit ∈ tr -> exit_requested st' = true.
Proof.
  induction p as [| |now cb d o k IH|j k IH|f e k IH|k IH]; intros st st' ok tr; simpl.
  - intros [= <- <- <-] [H|H]; [auto|now apply elem_of_nil in H].
  - intros [= <- <- <-] [H|H]; [auto|now apply elem_of_nil in H].
  - destruct (create_timer now cb d o st) as [st1 r] eqn:E1.
    destruct (run_js (k r) st1) as [[st2 ok2] tr2] eqn:E2.
    assert (Hx : exit_requested st1 = exit_requested st).
    { revert E1. unfold create_timer.
      destruct (MAX_TIMERS <=? timer_count st)%nat; intros [= <- <-]; auto. }
    intros [= <- <- <-] [H|[H|H]%elem_of_cons]; try discriminate;
      (eapply IH; [exact E2|]; first [left; congruence|right; assumption]).
  - destruct (delete_timer j st) as [st1 b] eqn:E1.
    destruct (run_js (k b) st1) as [[st2 ok2] tr2] eqn:E2.
    assert (Hx : exit_requested st1 = exit_requested st).
    { revert E1. unfold delete_timer.
      destruct (id (timer_expiring st) =? j); [intros [= <- <-]; auto|].
      destruct (remove_timer j (timer_list st)); intros [= <- <-]; auto. }
    intros [= <- <- <-] [H|[H|H]%elem_of_cons]; try discriminate;
      (eapply IH; [exact E2|]; first [left; congruence|right; assumption]).
  - destruct (listen_fd f e st) as [st1 b] eqn:E1.
    destruct (run_js (k b) st1) as [[st2 ok2] tr2] eqn:E2.
    assert (Hx : exit_requested st1 = exit_requested st).
    { apply listen_fd_timers in E1 as (l & ->). reflexivity. }
    intros [= <- <- <-] [H|[H|H]%elem_of_cons]; try discriminate;
      (eapply IH; [exact E2|]; first [left; congruence|right; assumption]).
  - destruct (run_js k (request_exit st)) as [[st2 ok2] tr2] eqn:E2.
    intros [= <- <- <-] _. eapply IH; eauto.
Qed.

(** What a round of [expire_timers] leaves in the trace: nothing, or one
    timer callback followed by what the callback did; and the exit flag
    is set when the callback requested exit. *)
Lemma expire_iter_trace script now st f st' tr :
  expire_iter script now st = (f, st', tr) ->
  (exit_requested st = true -> f = Break /\ st' = st /\ tr = []) /\
  (EvRequestExit ∈ tr -> exit_requested st' = true) /\
  (tr = [] \/ exists i rest, tr = EvTimerCallback i :: rest /\
                 Forall (fun e => is_callback e = false) rest).
Proof.
  assert (Hnil : forall s : state, EvRequestExit ∈ @nil event -> exit_requested s = true).
  { intros s H. now apply elem_of_nil in H. }
  unfold expire_iter. destruct (exit_requested st) eqn:Hx.
  { intros [= <- <- <-]. split; [auto|split; [apply Hnil|auto]]. }
  destruct (find_nearest_timer st) as [i|].
  2:{ intros [= <- <- <-]. split; [discriminate|split; [apply Hnil|auto]]. }
  destruct (Double.gtb _ now).
  { intros [= <- <- <-]. split; [discriminate|split; [apply Hnil|auto]]. }
  set (t1 := if oneshot _ then _ else _).
  set (st1 := set_timer_expiring t1 _).
  destruct (call_timer script (id t1) st1) as [[st2 ok] trc] eqn:Ec.
  pose proof (call_timer_no_callbacks _ _ _ _ _ _ Ec) as Hn.
  assert (Hx2 : EvRequestExit ∈ trc -> exit_requested st2 = true).
  { revert Ec. unfold call_timer. destruct (eventTimers _ !! _).
    - intros E H. eapply run_js_exit; eauto.
    - intros [= <- <- <-] H. now apply elem_of_nil in H. }
  set (log := if ok then [] else [EvLog (id (timer_expiring st2)) None]).
  assert (Hlog : Forall (fun e => is_callback e = false) log).
  { unfold log. destruct ok; repeat constructor. }
  assert (Hx3 : forall tl, EvRequestExit ∉ tl ->
            EvRequestExit ∈ EvTimerCallback (id t1) :: (trc ++ log) ++ tl ->
            exit_requested st2 = true).
  { intros tl Htl [H|H]%elem_of_cons; [discriminate|].
    apply elem_of_app in H as [H|H]; [|contradiction].
    apply elem_of_app in H as [H|H]; [auto|].
    unfold log in H. destruct ok; [now apply elem_of_nil in H|].
    apply list_elem_of_singleton in H. discriminate. }
  assert (Hx4 : EvRequestExit ∈ EvTimerCallback (id t1) :: trc ++ log ->
            exit_requested st2 = true).
  { intros H. apply (Hx3 []); [apply not_elem_of_nil|now rewrite app_nil_r]. }
  assert (Hs : Forall (fun e => is_callback e = false) (trc ++ log)).
  { apply Forall_app; auto. }
  destruct (removed (timer_expiring st2)).
  - intros [= <- <- <-]. split; [discriminate|]. split; [exact Hx4|].
    right. eexists _, _. split; [reflexivity|exact Hs].
  - destruct (MAX_TIMERS <=? timer_count st2)%nat.
    + intros [= <- <- <-]. split; [discriminate|]. split; [exact Hx4|].
      right. eexists _, _. split; [reflexivity|exact Hs].
    + intros [= <- <- <-]. split; [discriminate|]. split.
      * intros H. simpl. eapply Hx3; [|exact H].
        intros H1. apply list_elem_of_singleton in H1. discriminate.
      * right. eexists _, _. split; [reflexivity|].
        apply Forall_app. split; [exact Hs|repeat constructor].
Qed.

Lemma expire_loop_exit script now sanity st :
  exit_requested st = true -> expire_loop script sanity now st = (Break, st, []).
Proof.
  intros Hx. destruct sanity as [|n]; [reflexivity|]. simpl.
  destruct (expire_iter script now st) as [[f st1] tr1] eqn:E.
  destruct (expire_iter_trace _ _ _ _ _ _ E) as [H _].
  destruct (H Hx) as (-> & -> & ->). reflexivity.
Qed.

Lemma calm_nil : calm [].
Proof. intros [|? ?] post; discriminate. Qed.

Lemma calm_round i rest :
  Forall (fun e => is_callback e = false) rest -> calm (EvTimerCallback i :: rest).
Proof.
  intros Hr [|e pre] post; [discriminate|]. intros [= _ ->].
  apply Forall_app in Hr as [_ Hr]. now inversion Hr.
Qed.

Lemma calm_app tr1 tr2 :
  calm tr1 -> calm tr2 ->
  (EvRequestExit ∈ tr1 -> tr2 = []) -> calm (tr1 ++ tr2).
Proof.
  intros H1 H2 H12 pre post E.
  apply app_eq_app in E as [l [[-> E]|[-> E]]].
  - destruct l as [|e l].
    + simpl in E. rewrite app_nil_r in *. subst tr2.
      eapply H2. rewrite app_nil_l. reflexivity.
    + injection E as <- ->.
      rewrite H12 by (apply elem_of_app; right; apply list_elem_of_here).
      rewrite app_nil_r. eapply H1. reflexivity.
  - eapply H2. exact E.
Qed.

Lemma expire_loop_capped script now sanity : forall st f st' tr,
  expire_loop script sanity now st = (f, st', tr) ->
  (callbacks tr <= sanity)%nat /\ calm tr /\
  (EvRequestExit ∈ tr -> exit_requested st' = true).
Proof.
  induction sanity as [|n IH]; intros st f st' tr; simpl.
  - intros [= <- <- <-]. split; [simpl; lia|]. split; [apply calm_nil|].
    intros H. now apply elem_of_nil in H.
  - destruct (expire_iter script now st) as [[f1 st1] tr1] eqn:E1.
    destruct (expire_iter_trace _ _ _ _ _ _ E1) as (_ & Hx1 & Hs1).
    assert (Hc1 : (callbacks tr1 <= 1)%nat /\ calm tr1).
    { destruct Hs1 as [->|(i & rest & -> & Hr)].
      - split; [simpl; lia|apply calm_nil].
      - split; [simpl; rewrite (callbacks_none _ Hr); lia|now apply calm_round]. }
    destruct Hc1 as [Hc1 Hm1].
    destruct f1; try (intros [= <- <- <-]; split; [lia|auto]).
    destruct (expire_loop script n now st1) as [[f2 st2] tr2] eqn:E2.
    destruct (IH _ _ _ _ E2) as (Hc2 & Hm2 & Hx2).
    intros [= <- <- <-]. split; [rewrite callbacks_app; lia|]. split.
    + apply calm_app; auto. intros H. apply Hx1 in H.
      rewrite (expire_loop_exit _ _ _ _ H) in E2. congruence.
    + intros [H|H]%elem_of_app; auto. apply Hx1 in H.
      rewrite (expire_loop_exit _ _ _ _ H) in E2. congruence.
Qed.

(** C7.  A call of expire_timers invokes at most MAX_EXPIRYS = 10 callbacks,
    whatever the callbacks do (they may create timers that are due at
    once); after a callback has requested exit it invokes no callback; and
    when exit is requested before the call, it invokes none. *)
Theorem expiry_is_capped script now st :
  exists r st' tr,
    expire_timers script now st = (r, st', tr) /\
    (callbacks tr <= MAX_EXPIRYS)%nat /\ MAX_EXPIRYS = 10%nat /\
    (forall pre post, tr = pre ++ EvRequestExit :: post ->
       Forall (fun e => is_callback e = false) post) /\
    (exit_requested st = true -> tr = []).
Proof.
  unfold expire_timers.
  destruct (expire_loop script MAX_EXPIRYS now st) as [[f st1] tr] eqn:E.
  destruct (expire_loop_capped _ _ _ _ _ _ _ E) as (Hc & Hm & _).
  assert (Hx : exit_requested st = true -> tr = []).
  { intros H. rewrite (expire_loop_exit _ _ _ _ H) in E. congruence. }
  destruct f; eexists _, _, tr; (split; [reflexivity|]); repeat split; auto.
Qed.

(** ** The loop *)

Lemma run_js_no_poll p : forall st st' ok tr,
  run_js p st = (st', ok, tr) -> Forall (fun e => is_poll e = false) tr.
Proof.
  induction p as [| |now cb d o k IH|i k IH|f e k IH|k IH]; intros st st' ok tr; simpl.
  - intros [= <- <- <-]. constructor.
  - intros [= <- <- <-]. constructor.
  - destruct (create_timer now cb d o st) as [st1 r].
    destruct (run_js (k r) st1) as [[st2 ok2] tr2] eqn:E2.
    intros [= <- <- <-]. constructor; eauto.
  - destruct (delete_timer i st) as [st1 b].
    destruct (run_js (k b) st1) as [[st2 ok2] tr2] eqn:E2.
    intros [= <- <- <-]. constructor; eauto.
  - destruct (listen_fd f e st) as [st1 b].
    destruct (run_js (k b) st1) as [[st2 ok2] tr2] eqn:E2.
    intros [= <- <- <-]. constructor; eauto.
  - destruct (run_js k (request_exit st)) as [[st2 ok2] tr2] eqn:E2.
    intros [= <- <- <-]. constructor; eauto.
Qed.

Lemma expire_timers_no_poll script now st r st' tr :
  expire_timers script now st = (r, st', tr) -> Forall (fun e => is_poll e = false) tr.
Proof.
  intros E.
  apply (expire_timers_inv script (fun _ _ => True) (fun e => is_poll e = false)
           (fun _ _ => True) (fun _ => True)) in E; [tauto| | | | | | | | |exact I|exact I].
  - intros p s s' ok t _ _ H. split; [exact I|]. eapply run_js_no_poll; eauto.
  - auto.
  - intros. split; [exact I|reflexivity].
  - auto.
  - intros. split; [exact I|reflexivity].
  - auto.
  - reflexivity.
  - intros. apply admits_any.
Qed.

(** C8.  A round in which expire_timers leaves no timer and in which the
    poll list has no entry left after compaction: the loop ends in that
    round, on the exit request if there is one and else for want of anything
    to wait for, and in neither case calls poll; whatever rounds would
    follow, nothing more happens: the events of the run are those of
    expire_timers in that round. *)
Theorem idle_loop_stops script fd_handler tk env st r st1 tr1 :
  expire_timers script (now_expire tk) st = (r, st1, tr1) ->
  timer_list st1 = [] ->
  compact (poll_list st1) = [] ->
  exists s st',
    eventloop_run script fd_handler (tk :: env) st = (s, st', tr1) /\
    (s = Idle \/ s = Exited) /\
    (exit_requested st1 = false -> s = Idle /\ st' = compact_poll_list st1) /\
    Forall (fun e => is_poll e = false) tr1.
Proof.
  intros E Ht Hp.
  pose proof (expire_timers_no_poll _ _ _ _ _ _ E) as Hn.
  pose proof (expire_timers_holder _ _ _ _ _ _ E) as Hh.
  simpl. unfold run_iter. rewrite E.
  destruct r; simpl.
  - unfold run_after_expiry. destruct (exit_requested st1) eqn:Hx.
    + exists Exited, st1. rewrite app_nil_r. repeat split; auto; discriminate.
    + unfold find_nearest_timer, timer_count, poll_count, compact_poll_list. simpl.
      rewrite Ht, Hp. simpl. eexists _, _. rewrite app_nil_r.
      split; [reflexivity|]. auto.
  - destruct Hh as [_ Hfull]. unfold timer_count in Hfull. rewrite Ht in Hfull.
    unfold MAX_TIMERS in Hfull. simpl in Hfull. lia.
Qed.

(** C10.  With no timer pending, find_nearest_timer returns NULL; in the
    pass over the poll list, a readiness callback that fails makes the loop
    read [t->id] through that NULL pointer.  So it is in a round that finds
    no timer, polls, and finds the first descriptor ready with a failing
    callback. *)
Theorem failing_fd_callback_reads_null_timer fd_handler :
  (forall st, timer_list st = [] -> find_nearest_timer st = None) /\
  (forall todo i st pfd st1 trc,
     poll_list st !! i = Some pfd -> fd pfd <> 0 -> revents pfd <> 0 ->
     call_fd fd_handler (fd pfd) (revents pfd) st = (st1, false, trc) ->
     dispatch fd_handler (S todo) i None st =
       (Some NullTimerRead, st1, EvFdCallback (fd pfd) (revents pfd) :: trc)) /\
  (forall tk st pfd rest r revs st1 trc,
     exit_requested st = false ->
     timer_list st = [] ->
     compact (poll_list st) = pfd :: rest ->
     polled tk = PollDone (r :: revs) -> r <> 0 ->
     call_fd fd_handler (fd pfd) r
       (set_poll_list (write_revents (r :: revs) (pfd :: rest)) (compact_poll_list st))
       = (st1, false, trc) ->
     run_after_expiry fd_handler tk st =
       (Some (Faulted NullTimerRead), st1,
        EvPoll (S (length rest)) 60000 :: EvFdCallback (fd pfd) r :: trc)).
Proof.
  assert (H2 : forall todo i st pfd st1 trc,
     poll_list st !! i = Some pfd -> fd pfd <> 0 -> revents pfd <> 0 ->
     call_fd fd_handler (fd pfd) (revents pfd) st = (st1, false, trc) ->
     dispatch fd_handler (S todo) i None st =
       (Some NullTimerRead, st1, EvFdCallback (fd pfd) (revents pfd) :: trc)).
  { intros todo i st pfd st1 trc Hl Hf Hr Ec. simpl. rewrite Hl.
    apply Z.eqb_neq in Hf, Hr. now rewrite Hf, Hr, Ec. }
  split; [|split; [exact H2|]].
  - intros st H. unfold find_nearest_timer, timer_count. now rewrite H.
  - intros tk st pfd rest r revs st1 trc Hx Ht Hc Hp Hr Ec.
    assert (Hf : fd pfd <> 0).
    { clear -Hc. induction (poll_list st) as [|p l IH]; [discriminate|].
      simpl in Hc. destruct (Z.eqb_spec (fd p) 0); auto. now injection Hc as <- _. }
    unfold run_after_expiry. rewrite Hx.
    unfold find_nearest_timer, timer_count, poll_count.
    replace (timer_list (compact_poll_list st)) with (@nil ev_timer) by (symmetry; exact Ht).
    replace (poll_list (compact_poll_list st)) with (pfd :: rest) by (symmetry; exact Hc).
    rewrite Hp.
    change (length [] ) with O. change (length (pfd :: rest) =? 0)%nat with false.
    cbv iota beta.
    replace (Double.to_int MAX_WAIT) with (Some 60000) by reflexivity.
    cbv iota beta. unfold poll.
    set (l := write_revents (r :: revs) (pfd :: rest)) in *.
    assert (Hn : (Z.of_nat (length (filter (fun p => revents p <> 0) l)) =? 0) = false).
    { unfold l. simpl. rewrite filter_cons_True by exact Hr. simpl. reflexivity. }
    rewrite Hn.
    assert (Hlen : length (poll_list (set_poll_list l (compact_poll_list st)))
                   = S (length (write_revents revs rest))) by reflexivity.
    rewrite Hlen.
    rewrite (H2 _ 0%nat _ (set_revents r pfd) st1 trc); auto.
Qed.

(** ** The poll list between waits *)

Lemma clear_outside_all a l : clear_outside a a l -> polls_clear l.
Proof.
  intros [_ H]. apply Forall_forall. intros p Hp.
  apply list_elem_of_lookup in Hp as [k Hk]. apply (H k p Hk). lia.
Qed.

Lemma polls_clear_outside a b l :
  polls_clear l -> (b <= length l)%nat -> clear_outside a b l.
Proof.
  intros H Hb. split; auto. intros k p Hk _.
  unfold polls_clear in H. rewrite Forall_forall in H. apply H.
  eapply list_elem_of_lookup_2; eauto.
Qed.

Lemma listen_scan_spec f e l l' :
  listen_scan f e l = Some l' ->
  length l' = length l /\
  forall k p', l' !! k = Some p' ->
    exists p, l !! k = Some p /\ revents p' = revents p /\ (fd p' = fd p \/ fd p' = 0).
Proof.
  revert l'. induction l as [|q l IH]; intros l'; simpl; [discriminate|].
  destruct (fd q =? f).
  - intros [= <-]. split; [reflexivity|]. intros [|k] p'; simpl.
    + intros [= <-]. exists q. split; auto. destruct (e =? 0); simpl; auto.
    + intros H. exists p'. auto.
  - destruct (listen_scan f e l) as [l0|]; simpl; [|discriminate].
    intros [= <-]. destruct (IH l0 eq_refl) as [Hlen Hk].
    split; [simpl; lia|]. intros [|k] p'; simpl.
    + intros [= <-]. exists q. auto.
    + apply Hk.
Qed.

Lemma clear_outside_listen a b f e st st1 r :
  clear_outside a b (poll_list st) -> listen_fd f e st = (st1, r) ->
  clear_outside a b (poll_list st1).
Proof.
  intros [Hb Hc]. unfold listen_fd.
  destruct (listen_scan f e (poll_list st)) as [l|] eqn:Es.
  - intros [= <- <-]. simpl. destruct (listen_scan_spec _ _ _ _ Es) as [Hlen Hk].
    split; [lia|]. intros k p' Hp' Hr Hf.
    destruct (Hk k p' Hp') as (p & Hp & Hrev & Hfd). rewrite Hrev.
    apply (Hc k p Hp Hr). destruct Hfd; congruence.
  - destruct (MAX_FDS <=? poll_count st)%nat; intros [= <- <-]; [now split|].
    simpl. split; [rewrite length_app; simpl; lia|].
    intros k p Hp Hr Hf. apply lookup_app_Some in Hp as [Hp|[Hlen Hp]].
    + now apply (Hc k p Hp Hr).
    + apply list_lookup_singleton_Some in Hp as [_ <-]. reflexivity.
Qed.

Lemma clear_outside_run_js a b p st st' ok tr :
  clear_outside a b (poll_list st) -> run_js p st = (st', ok, tr) ->
  clear_outside a b (poll_list st').
Proof.
  intros Hc E.
  apply (run_js_inv (fun s => clear_outside a b (poll_list s)) (fun _ => True)
           (fun _ _ => True)) with (st := st) in E;
    [tauto| | | | |apply admits_any|exact Hc].
  - intros now cb d o s s1 r H _. unfold create_timer.
    destruct (MAX_TIMERS <=? timer_count s)%nat; intros [= <- <-]; auto.
  - intros i s s1 b0 H. unfold delete_timer.
    destruct (id (timer_expiring s) =? i); [intros [= <- <-]; auto|].
    destruct (remove_timer i (timer_list s)); intros [= <- <-]; auto.
  - intros f e s s1 r H E1. split; auto. eapply clear_outside_listen; eauto.
  - auto.
Qed.

Lemma polls_clear_expire_timers script now st r st' tr :
  polls_clear (poll_list st) -> expire_timers script now st = (r, st', tr) ->
  polls_clear (poll_list st') /\ Forall (fun e => is_fd_callback e = false) tr.
Proof.
  intros Hc E.
  apply (expire_timers_inv script (fun _ s => polls_clear (poll_list s))
           (fun e => is_fd_callback e = false)
           (fun _ _ => True) (fun _ => True)) in E;
    [tauto| | | | | | | | |exact Hc|exact I].
  - intros p s s' ok t _ H E1. split.
    + apply (clear_outside_all 0). eapply clear_outside_run_js; [|exact E1].
      apply polls_clear_outside; [exact H|lia].
    + eapply Forall_impl; [eapply run_js_no_callbacks; eauto|].
      intros e. destruct e; simpl; auto.
  - auto.
  - intros. split; [auto|reflexivity].
  - auto.
  - intros. split; [auto|reflexivity].
  - auto.
  - reflexivity.
  - intros. apply admits_any.
Qed.

Lemma polls_clear_compact l : polls_clear l -> polls_clear (compact l).
Proof.
  induction 1 as [|p l Hp _ IH]; simpl; [constructor|].
  destruct (fd p =? 0); [exact IH|]. now constructor.
Qed.

Lemma compact_live l : Forall (fun p => fd p <> 0) (compact l).
Proof.
  induction l as [|p l IH]; simpl; [constructor|].
  destruct (Z.eqb_spec (fd p) 0); [exact IH|]. now constructor.
Qed.

(** The pass over a list with nothing ready calls nothing. *)
Lemma dispatch_idle fd_handler t todo : forall i st,
  (forall k p, poll_list st !! k = Some p -> fd p = 0 \/ revents p = 0) ->
  dispatch fd_handler todo i t st = (None, st, []).
Proof.
  induction todo as [|n IH]; intros i st H; simpl; [reflexivity|].
  destruct (poll_list st !! i) as [pfd|] eqn:E; [|reflexivity].
  destruct (H _ _ E) as [-> | Hr]; [now apply IH|].
  rewrite Hr. destruct (fd pfd =? 0); now apply IH.
Qed.

(** After the pass, no entry has events left over. *)
Lemma dispatch_clears fd_handler t todo : forall i st f st' tr,
  clear_outside i (i + todo) (poll_list st) ->
  dispatch fd_handler todo i t st = (f, st', tr) ->
  f = None -> polls_clear (poll_list st').
Proof.
  induction todo as [|n IH]; intros i st f st' tr Hc; simpl.
  - intros [= <- <- <-] _. apply (clear_outside_all i).
    now rewrite Nat.add_0_r in Hc.
  - destruct Hc as [Hb Hc].
    destruct (poll_list st !! i) as [pfd|] eqn:E.
    2:{ apply lookup_ge_None in E. lia. }
    assert (Hskip : (fd pfd = 0 \/ revents pfd = 0) ->
              clear_outside (S i) (S i + n) (poll_list st)).
    { intros Hz. split; [lia|]. intros k p Hk Hr Hf.
      destruct (decide (k = i)) as [->|Hne].
      - rewrite E in Hk. injection Hk as <-. destruct Hz; [contradiction|auto].
      - apply (Hc k p Hk); [lia|auto]. }
    destruct (Z.eqb_spec (fd pfd) 0) as [Hf|Hf]; [apply IH; auto|].
    destruct (Z.eqb_spec (revents pfd) 0) as [Hr|Hr]; [apply IH; auto|].
    destruct (call_fd _ _ _ _) as [[st1 ok] trc] eqn:Ec.
    unfold call_fd in Ec.
    assert (Hc1 : clear_outside i (i + S n) (poll_list st1)).
    { eapply clear_outside_run_js; [|exact Ec]. now split. }
    set (pfd1 := nth i (poll_list st1) pfd).
    set (st2 := set_poll_list _ st1).
    assert (Hc2 : clear_outside (S i) (S i + n) (poll_list st2)).
    { destruct Hc1 as [Hb1 Hc1]. unfold st2. simpl. split.
      - rewrite length_insert. lia.
      - intros k p Hk Hr1 Hf1.
        destruct (decide (k = i)) as [->|Hne].
        + rewrite list_lookup_insert_eq in Hk by lia. now injection Hk as <-.
        + rewrite list_lookup_insert_ne in Hk by auto.
          apply (Hc1 k p Hk); [lia|auto]. }
    destruct ok.
    + destruct (dispatch _ _ _ _ st2) as [[f3 st3] tr3] eqn:E3.
      intros [= <- <- <-] Hn. eapply IH; eauto.
    + destruct t as [ti|]; [|intros [= <- <- <-]; discriminate].
      destruct (dispatch _ _ _ _ st2) as [[f3 st3] tr3] eqn:E3.
      intros [= <- <- <-] Hn. eapply IH; eauto.
Qed.

Lemma write_no_revents l :
  Forall (fun p => revents p = 0) l -> write_revents [] l = l.
Proof.
  induction 1 as [|p l Hp _ IH]; simpl; [reflexivity|].
  simpl in IH. rewrite IH. destruct p; simpl in *. now subst.
Qed.

Lemma filter_none l :
  Forall (fun p => revents p = 0) l -> filter (fun p : pollfd => revents p <> 0) l = [].
Proof.
  induction 1 as [|p l Hp _ IH]; [reflexivity|].
  rewrite filter_cons_False by (intros H; now apply H). exact IH.
Qed.

Lemma filter_nil_clear l :
  Z.of_nat (length (filter (fun p : pollfd => revents p <> 0) l)) = 0 -> polls_clear l.
Proof.
  intros H. apply Forall_forall. intros p Hp _.
  destruct (decide (revents p = 0)) as [|Hn]; auto.
  assert (Hin : p ∈ filter (fun p : pollfd => revents p <> 0) l)
    by (apply list_elem_of_filter; auto).
  destruct (filter _ l); [now apply elem_of_nil in Hin|simpl in H; lia].
Qed.

Lemma polls_clear_run_after_expiry fd_handler tk st st' tr :
  polls_clear (poll_list st) ->
  run_after_expiry fd_handler tk st = (None, st', tr) ->
  polls_clear (poll_list st').
Proof.
  intros Hc. unfold run_after_expiry.
  destruct (exit_requested st); [discriminate|].
  pose proof (polls_clear_compact _ Hc) as Hc2.
  set (st2 := compact_poll_list st) in *.
  change (compact (poll_list st)) with (poll_list st2) in Hc2.
  set (w := match find_nearest_timer st2 with Some _ => _ | None => _ end).
  destruct w as [s|[timeout|]]; [discriminate| |discriminate].
  destruct (poll (polled tk) (poll_list st2)) as [l rc] eqn:Ep.
  destruct (dispatch _ _ _ _ _) as [[f st4] tr4] eqn:E4.
  intros [= Hf <- <-]. destruct f; [discriminate|].
  eapply dispatch_clears; [|exact E4|reflexivity].
  destruct (Z.eqb_spec rc 0) as [Hrc|Hrc]; simpl.
  - apply polls_clear_outside; [|lia].
    revert Ep. unfold poll. destruct (polled tk); intros [= <- <-]; [lia|].
    now apply filter_nil_clear.
  - unfold poll_count. simpl. split; [lia|]. intros k p Hk [Hr|Hr]; [lia|].
    apply lookup_lt_Some in Hk. lia.
Qed.

Lemma polls_clear_run_iter script fd_handler tk st st' tr :
  polls_clear (poll_list st) ->
  run_iter script fd_handler tk st = (None, st', tr) ->
  polls_clear (poll_list st').
Proof.
  intros Hc. unfold run_iter.
  destruct (expire_timers _ _ _) as [[r st1] tr1] eqn:E1.
  destruct (polls_clear_expire_timers _ _ _ _ _ _ Hc E1) as [Hc1 _].
  destruct r; simpl; [|discriminate].
  destruct (run_after_expiry _ _ _) as [[r2 st2] tr2] eqn:E2.
  intros [= -> <- <-]. eapply polls_clear_run_after_expiry; eauto.
Qed.

Lemma run_after_expiry_stop fd_handler tk st s st' tr :
  run_after_expiry fd_handler tk st = (Some s, st', tr) -> s <> Running.
Proof.
  unfold run_after_expiry.
  destruct (exit_requested st); [intros [= <- <- <-]; discriminate|].
  set (st2 := compact_poll_list st).
  set (w := match find_nearest_timer st2 with Some _ => _ | None => _ end).
  assert (Hw : forall s, w = inl s -> s = Idle).
  { intros s0. subst w. destruct (find_nearest_timer st2); [discriminate|].
    destruct (poll_count st2 =? 0)%nat; congruence. }
  destruct w as [s0|[timeout|]].
  - intros [= <- <- <-]. rewrite (Hw s0 eq_refl). discriminate.
  - destruct (poll _ _) as [l rc].
    destruct (dispatch _ _ _ _ _) as [[f st4] tr4].
    destruct f; intros [= <- <- <-]; discriminate.
  - intros [= <- <- <-]. discriminate.
Qed.

Lemma run_iter_stop script fd_handler tk st s st' tr :
  run_iter script fd_handler tk st = (Some s, st', tr) -> s <> Running.
Proof.
  unfold run_iter.
  destruct (expire_timers _ _ _) as [[r st1] tr1].
  destruct r; simpl; [|intros [= <- <- <-]; discriminate].
  destruct (run_after_expiry _ _ _) as [[r2 st2] tr2] eqn:E2.
  intros [= -> <- <-]. eapply run_after_expiry_stop; eauto.
Qed.

Lemma polls_clear_eventloop_run script fd_handler env : forall st st' tr,
  polls_clear (poll_list st) ->
  eventloop_run script fd_handler env st = (Running, st', tr) ->
  polls_clear (poll_list st').
Proof.
  induction env as [|tk env IH]; intros st st' tr Hc; simpl.
  - now intros [= <- <-].
  - destruct (run_iter _ _ _ _) as [[r st1] tr1] eqn:E1.
    destruct r as [s1|].
    + intros [= -> <- <-]. now apply run_iter_stop in E1.
    + destruct (eventloop_run _ _ _ _) as [[s2 st2] tr2] eqn:E2.
      intros [= -> <- <-]. eapply IH; [|exact E2].
      eapply polls_clear_run_iter; eauto.
Qed.

Lemma polls_clear_main main :
  polls_clear (poll_list (run_js main eventloop_register).1.1).
Proof.
  destruct (run_js main eventloop_register) as [[st ok] tr] eqn:E. simpl.
  apply (clear_outside_all 0). eapply clear_outside_run_js; [|exact E].
  split; [simpl; lia|]. intros k p Hk. simpl in Hk. now rewrite lookup_nil in Hk.
Qed.

(** A failed wait and a wait that times out leave the round the same. *)
Lemma run_after_expiry_error fd_handler now1 now2 st :
  polls_clear (poll_list st) ->
  run_after_expiry fd_handler (mk_tick now1 now2 PollError) st =
  run_after_expiry fd_handler (mk_tick now1 now2 (PollDone [])) st /\
  forall r st' tr,
    run_after_expiry fd_handler (mk_tick now1 now2 PollError) st = (r, st', tr) ->
    Forall (fun e => is_fd_callback e = false) tr /\
    (Exists (fun e => is_poll e = true) tr -> r = None).
Proof.
  intros Hc. unfold run_after_expiry.
  destruct (exit_requested st).
  { split; [reflexivity|]. intros r st' tr [= <- <- <-]. split; [constructor|].
    intros H. inversion H. }
  pose proof (polls_clear_compact _ Hc) as Hc2.
  pose proof (compact_live (poll_list st)) as Hl.
  set (st2 := compact_poll_list st) in *.
  change (compact (poll_list st)) with (poll_list st2) in Hc2, Hl.
  assert (Hz : Forall (fun p => revents p = 0) (poll_list st2)).
  { unfold polls_clear in Hc2. rewrite Forall_forall in *. auto. }
  clearbody st2.
  set (w := match find_nearest_timer st2 with Some _ => _ | None => _ end).
  simpl now_wait.
  destruct w as [s|[timeout|]].
  - split; [reflexivity|]. intros r st' tr [= <- <- <-]. split; [constructor|].
    intros H. inversion H.
  - simpl polled. unfold poll.
    rewrite (write_no_revents _ Hz), (filter_none _ Hz). simpl.
    assert (Hs : set_poll_list (poll_list st2) st2 = st2) by now destruct st2.
    rewrite Hs.
    rewrite (dispatch_idle fd_handler (find_nearest_timer st2) (poll_count st2) 0 st2).
    2:{ intros k p Hk. right. rewrite Forall_forall in Hz. apply Hz.
        eapply list_elem_of_lookup_2; eauto. }
    split; [reflexivity|]. intros r st' tr [= <- <- <-]. split; [|reflexivity].
    repeat constructor.
  - split; [reflexivity|]. intros r st' tr [= <- <- <-]. split; [constructor|].
    intros H. inversion H.
Qed.

Lemma run_iter_error script fd_handler now1 now2 st :
  polls_clear (poll_list st) ->
  run_iter script fd_handler (mk_tick now1 now2 PollError) st =
  run_iter script fd_handler (mk_tick now1 now2 (PollDone [])) st /\
  forall r st' tr,
    run_iter script fd_handler (mk_tick now1 now2 PollError) st = (r, st', tr) ->
    Forall (fun e => is_fd_callback e = false) tr /\
    (Exists (fun e => is_poll e = true) tr -> r = None).
Proof.
  intros Hc. unfold run_iter. simpl now_expire.
  destruct (expire_timers script now1 st) as [[ret st1] tr1] eqn:E1.
  destruct (polls_clear_expire_timers _ _ _ _ _ _ Hc E1) as [Hc1 Hq1].
  pose proof (expire_timers_no_poll _ _ _ _ _ _ E1) as Hp1.
  assert (Hnp : Exists (fun e => is_poll e = true) tr1 -> False).
  { intros H. apply Exists_exists in H as (e & He & Hpe).
    rewrite Forall_forall in Hp1. rewrite (Hp1 e He) in Hpe. discriminate. }
  destruct ret; simpl.
  - destruct (run_after_expiry_error fd_handler now1 now2 st1 Hc1) as [He Hr].
    rewrite He. split; [reflexivity|].
    rewrite <- He.
    destruct (run_after_expiry _ _ _) as [[r2 st2] tr2] eqn:E2.
    intros r st' tr [= <- <- <-]. destruct (Hr _ _ _ eq_refl) as [Hq2 Hx2].
    split; [apply Forall_app; auto|].
    intros [H|H]%Exists_app; [contradiction|auto].
  - split; [reflexivity|]. intros r st' tr [= <- <- <-]. split; auto.
    intros H. contradiction.
Qed.

Lemma eventloop_run_error script fd_handler now1 now2 env2 env1 : forall st,
  polls_clear (poll_list st) ->
  eventloop_run script fd_handler (env1 ++ mk_tick now1 now2 PollError :: env2) st =
  eventloop_run script fd_handler (env1 ++ mk_tick now1 now2 (PollDone []) :: env2) st.
Proof.
  induction env1 as [|tk env1 IH]; intros st Hc; simpl.
  - destruct (run_iter_error script fd_handler now1 now2 st Hc) as [-> _]. reflexivity.
  - destruct (run_iter _ _ _ _) as [[r st1] tr1] eqn:E1.
    destruct r as [s1|]; [reflexivity|].
    rewrite IH; [reflexivity|]. eapply polls_clear_run_iter; eauto.
Qed.

(** C5.  Take any run of the program (the script, then the loop) and any
    round of it.  If poll fails in that round (it then returns a negative
    value and has written no [revents]), the whole run is, event for event
    and state for state, the run in which that wait reported no descriptor
    ready; and that round invokes no readiness callback and, once it has
    polled, goes on to the next round.  The loop does scan the poll list
    after a failed poll, and finds nothing: between waits no watched
    descriptor has events left over. *)
Theorem poll_error_as_nothing_ready script fd_handler main env1 env2 now1 now2 :
  let st0 := (run_js main eventloop_register).1.1 in
  eventloop_run script fd_handler (env1 ++ mk_tick now1 now2 PollError :: env2) st0 =
  eventloop_run script fd_handler (env1 ++ mk_tick now1 now2 (PollDone []) :: env2) st0 /\
  forall st tr0,
    eventloop_run script fd_handler env1 st0 = (Running, st, tr0) ->
    exists r st' tr,
      run_iter script fd_handler (mk_tick now1 now2 PollError) st = (r, st', tr) /\
      Forall (fun e => is_fd_callback e = false) tr /\
      (Exists (fun e => is_poll e = true) tr -> r = None).
Proof.
  intros st0. pose proof (polls_clear_main main) as Hc0. fold st0 in Hc0.
  split; [now apply eventloop_run_error|].
  intros st tr0 E.
  pose proof (polls_clear_eventloop_run _ _ _ _ _ _ Hc0 E) as Hc.
  destruct (run_iter script fd_handler (mk_tick now1 now2 PollError) st)
    as [[r st'] tr] eqn:Er.
  exists r, st', tr. split; [reflexivity|].
  destruct (run_iter_error script fd_handler now1 now2 st Hc) as [_ H].
  exact (H _ _ _ Er).
Qed.

(** ** Relations between the states of a run

    A relation [R st tr st'] between a state, the trace of a stretch of
    the run and the state it ends in, that composes and that every step of
    the module satisfies, holds of every run. *)

Section Run_relation.

Variable script : handle -> nat -> js.
Variable fd_handler : nat -> Z -> Z -> js.
Variable R : state -> list event -> state -> Prop.

Hypothesis HR : stepwise R.

Let R_nil := step_nil R HR.
Let R_app := step_app R HR.
Let R_create := step_create R HR.
Let R_delete := step_delete R HR.
Let R_listen := step_listen R HR.
Let R_exit := step_exit R HR.
Let R_calls := step_calls R HR.
Let R_pop := step_pop R HR.
Let R_log := step_log R HR.
Let R_discard := step_discard R HR.
Let R_requeue := step_requeue R HR.
Let R_clear := step_clear R HR.
Let R_compact := step_compact R HR.
Let R_poll := step_poll R HR.
Let R_fd := step_fd R HR.
Let R_served := step_served R HR.

Lemma R_cons st e st1 tr st2 : R st [e] st1 -> R st1 tr st2 -> R st (e :: tr) st2.
Proof. intros H1 H2. exact (R_app _ _ _ _ _ H1 H2). Qed.

Lemma R_silent st st1 tr st2 : R st [] st1 -> R st1 tr st2 -> R st tr st2.
Proof. intros H1 H2. exact (R_app _ _ _ _ _ H1 H2). Qed.

Lemma R_snoc st tr st1 e st2 : R st tr st1 -> R st1 [e] st2 -> R st (tr ++ [e]) st2.
Proof. apply R_app. Qed.

Lemma R_then st tr st1 st2 : R st tr st1 -> R st1 [] st2 -> R st tr st2.
Proof. intros H1 H2. rewrite <- (app_nil_r tr). exact (R_app _ _ _ _ _ H1 H2). Qed.

Lemma run_js_rel p : forall st st' ok tr, run_js p st = (st', ok, tr) -> R st tr st'.
Proof.
  induction p as [| |now cb d o k IH|i k IH|f e k IH|k IH]; intros st st' ok tr; simpl.
  - intros [= <- <- <-]. apply R_nil.
  - intros [= <- <- <-]. apply R_nil.
  - destruct (create_timer now cb d o st) as [st1 r] eqn:E1.
    destruct (run_js (k r) st1) as [[st2 ok2] tr2] eqn:E2.
    intros [= <- <- <-]. eapply R_cons; [eapply R_create; eauto|eapply IH; eauto].
  - destruct (delete_timer i st) as [st1 b] eqn:E1.
    destruct (run_js (k b) st1) as [[st2 ok2] tr2] eqn:E2.
    intros [= <- <- <-]. eapply R_cons; [eapply R_delete; eauto|eapply IH; eauto].
  - destruct (listen_fd f e st) as [st1 b] eqn:E1.
    destruct (run_js (k b) st1) as [[st2 ok2] tr2] eqn:E2.
    intros [= <- <- <-]. eapply R_cons; [eapply R_listen; eauto|eapply IH; eauto].
  - destruct (run_js k (request_exit st)) as [[st2 ok2] tr2] eqn:E2.
    intros [= <- <- <-]. eapply R_cons; [apply R_exit|eapply IH; eauto].
Qed.

Lemma call_timer_rel i st st' ok tr :
  call_timer script i st = (st', ok, tr) -> R st tr st'.
Proof.
  unfold call_timer. destruct (eventTimers st !! i) as [h|].
  - intros E. eapply R_silent; [apply R_calls|eapply run_js_rel; eauto].
  - intros [= <- <- <-]. apply R_calls.
Qed.

Lemma call_fd_rel f r st st' ok tr :
  call_fd fd_handler f r st = (st', ok, tr) -> R st tr st'.
Proof.
  unfold call_fd. intros E. eapply R_silent; [apply R_calls|eapply run_js_rel; eauto].
Qed.

Lemma expire_iter_rel now st f st' tr :
  expire_iter script now st = (f, st', tr) -> R st tr st'.
Proof.
  unfold expire_iter.
  destruct (exit_requested st); [intros [= <- <- <-]; apply R_nil|].
  destruct (find_nearest_timer st) as [i|] eqn:Ei; [|intros [= <- <- <-]; apply R_nil].
  destruct (Double.gtb _ now); [intros [= <- <- <-]; apply R_nil|].
  pose proof (R_pop now st i _ Ei eq_refl) as Hpop. simpl in Hpop.
  set (t1 := if oneshot _ then _ else _) in *. clearbody t1.
  destruct (call_timer _ _ _) as [[st2 ok] trc] eqn:Ec.
  pose proof (call_timer_rel _ _ _ _ _ Ec) as Hc.
  assert (H3 : R st (EvTimerCallback (id t1)
      :: trc ++ (if ok then [] else [EvLog (id (timer_expiring st2)) None])) st2).
  { eapply R_cons; [exact Hpop|]. destruct ok.
    - rewrite app_nil_r. exact Hc.
    - eapply R_snoc; [exact Hc|apply R_log]. }
  destruct (removed (timer_expiring st2)) eqn:Er.
  - intros [= <- <- <-]. eapply R_then; [exact H3|now apply R_discard].
  - destruct (MAX_TIMERS <=? timer_count st2)%nat eqn:Ef.
    + intros [= <- <- <-]. exact H3.
    + intros [= <- <- <-]. apply Nat.leb_gt in Ef.
      exact (R_app _ _ _ _ _ H3 (R_requeue st2 _ Er Ef eq_refl)).
Qed.

Lemma expire_loop_rel now sanity : forall st f st' tr,
  expire_loop script sanity now st = (f, st', tr) -> R st tr st'.
Proof.
  induction sanity as [|n IH]; intros st f st' tr; simpl.
  - intros [= <- <- <-]. apply R_nil.
  - destruct (expire_iter script now st) as [[f1 st1] tr1] eqn:E1.
    pose proof (expire_iter_rel _ _ _ _ _ E1) as H1.
    destruct f1; try (intros [= <- <- <-]; exact H1).
    destruct (expire_loop script n now st1) as [[f2 st2] tr2] eqn:E2.
    intros [= <- <- <-]. eapply R_app; [exact H1|eapply IH; eauto].
Qed.

Lemma expire_timers_rel now st r st' tr :
  expire_timers script now st = (r, st', tr) -> R st tr st'.
Proof.
  unfold expire_timers.
  destruct (expire_loop script MAX_EXPIRYS now st) as [[f1 st1] tr1] eqn:E1.
  pose proof (expire_loop_rel _ _ _ _ _ _ E1) as H1.
  destruct f1; intros [= <- <- <-]; try exact H1;
    (eapply R_then; [exact H1|apply R_clear]).
Qed.

Lemma served_rel i pfd st :
  R st [] (set_poll_list (<[i := set_revents 0 (nth i (poll_list st) pfd)]> (poll_list st)) st).
Proof.
  destruct (poll_list st !! i) as [p|] eqn:E.
  - rewrite (nth_lookup_Some _ _ _ _ E). now apply R_served.
  - rewrite list_insert_ge by (now apply lookup_ge_None).
    destruct st; apply R_nil.
Qed.

Lemma dispatch_rel t todo : forall i st f st' tr,
  dispatch fd_handler todo i t st = (f, st', tr) -> R st tr st'.
Proof.
  induction todo as [|n IH]; intros i st f st' tr; simpl.
  - intros [= <- <- <-]. apply R_nil.
  - destruct (poll_list st !! i) as [pfd|] eqn:Ep; [|intros [= <- <- <-]; apply R_nil].
    destruct (fd pfd =? 0) eqn:Ef; [apply IH|].
    destruct (revents pfd =? 0) eqn:Er; [apply IH|].
    apply Z.eqb_neq in Ef, Er.
    destruct (call_fd _ _ _ _) as [[st1 ok] trc] eqn:Ec.
    pose proof (R_cons _ _ _ _ _ (R_fd st i pfd Ep Ef Er) (call_fd_rel _ _ _ _ _ _ Ec)) as H1.
    pose proof (served_rel i pfd st1) as H2.
    set (st2 := set_poll_list _ st1) in *. clearbody st2.
    destruct ok.
    + destruct (dispatch _ _ _ _ st2) as [[f3 st3] tr3] eqn:E3.
      intros [= <- <- <-].
      exact (R_app _ _ _ _ _ (R_then _ _ _ _ H1 H2) (IH _ _ _ _ _ E3)).
    + destruct t as [ti|].
      * destruct (dispatch _ _ _ _ st2) as [[f3 st3] tr3] eqn:E3.
        intros [= <- <- <-].
        refine (R_app _ _ _ _ _ (R_then _ _ _ _ H1 H2) _).
        eapply R_cons; [apply R_log|eapply IH; eauto].
      * intros [= <- <- <-]. exact H1.
Qed.

Lemma run_after_expiry_rel tk st r st' tr :
  run_after_expiry fd_handler tk st = (r, st', tr) -> R st tr st'.
Proof.
  unfold run_after_expiry.
  destruct (exit_requested st); [intros [= <- <- <-]; apply R_nil|].
  pose proof (R_compact st) as H2.
  set (st2 := compact_poll_list st) in *. clearbody st2.
  destruct (match find_nearest_timer st2 with Some _ => _ | None => _ end) as [s|[timeout|]].
  - intros [= <- <- <-]. exact H2.
  - pose proof (R_poll (polled tk) timeout st2) as H3.
    destruct (poll _ _) as [l rc]. simpl in H3.
    destruct (dispatch _ _ _ _ _) as [[f st4] tr4] eqn:E4.
    intros [= <- <- <-].
    eapply R_silent; [exact H2|]. eapply R_cons; [exact H3|eapply dispatch_rel; eauto].
  - intros [= <- <- <-]. exact H2.
Qed.

Lemma run_iter_rel tk st r st' tr :
  run_iter script fd_handler tk st = (r, st', tr) -> R st tr st'.
Proof.
  unfold run_iter.
  destruct (expire_timers _ _ _) as [[ret st1] tr1] eqn:E1.
  pose proof (expire_timers_rel _ _ _ _ _ E1) as H1.
  destruct ret; simpl; [|intros [= <- <- <-]; exact H1].
  destruct (run_after_expiry _ _ _) as [[r2 st2] tr2] eqn:E2.
  intros [= <- <- <-]. eapply R_app; [exact H1|eapply run_after_expiry_rel; eauto].
Qed.

Lemma eventloop_run_rel env : forall st s st' tr,
  eventloop_run script fd_handler env st = (s, st', tr) -> R st tr st'.
Proof.
  induction env as [|tk env IH]; intros st s st' tr; simpl.
  - intros [= <- <- <-]. apply R_nil.
  - destruct (run_iter _ _ _ _) as [[r st1] tr1] eqn:E1.
    pose proof (run_iter_rel _ _ _ _ _ E1) as H1.
    destruct r as [s1|]; [intros [= <- <- <-]; exact H1|].
    destruct (eventloop_run _ _ _ _) as [[s2 st2] tr2] eqn:E2.
    intros [= <- <- <-]. eapply R_app; [exact H1|eapply IH; eauto].
Qed.

(** A program: the main script against the registered module, then the
    loop. *)
Lemma program_rel main env st1 ok tr1 s st2 tr2 :
  run_js main eventloop_register = (st1, ok, tr1) ->
  eventloop_run script fd_handler env st1 = (s, st2, tr2) ->
  R eventloop_register (tr1 ++ tr2) st2.
Proof.
  intros E1 E2. eapply R_app; [eapply run_js_rel; eauto|eapply eventloop_run_rel; eauto].
Qed.

End Run_relation.

Lemma created_app tr1 tr2 : created (tr1 ++ tr2) = created tr1 ++ created tr2.
Proof.
  induction tr1 as [|e tr1 IH]; [reflexivity|].
  destruct e as [| |[i|]| | | | | |]; simpl; now rewrite ?IH.
Qed.

Lemma numbered_same st e st' :
  created [e] = [] -> timer_next_id st' = timer_next_id st -> numbered st [e] st'.
Proof. intros H1 H2. unfold numbered. rewrite H1, H2. simpl. split; [reflexivity|lia]. Qed.

Lemma numbered_silent st st' :
  timer_next_id st' = timer_next_id st -> numbered st [] st'.
Proof. intros H2. unfold numbered. rewrite H2. simpl. split; [reflexivity|lia]. Qed.

Lemma numbered_app st tr1 st1 tr2 st2 :
  numbered st tr1 st1 -> numbered st1 tr2 st2 -> numbered st (tr1 ++ tr2) st2.
Proof.
  intros [H1 N1] [H2 N2]. unfold numbered.
  rewrite created_app, length_app, Nat2Z.inj_add, seqZ_app by lia.
  rewrite <- H1, <- N1, <- H2. split; [reflexivity|lia].
Qed.

Lemma numbered_stepwise : stepwise numbered.
Proof.
  split.
  - intros. now apply numbered_silent.
  - apply numbered_app.
  - intros now cb d o st0 st1 r. unfold create_timer.
    destruct (MAX_TIMERS <=? timer_count st0)%nat; intros [= <- <-].
    + now apply numbered_same.
    + unfold numbered. simpl. split; [reflexivity|lia].
  - intros i st0 st1 b. unfold delete_timer.
    destruct (id (timer_expiring st0) =? i); [intros [= <- <-]; now apply numbered_same|].
    destruct (remove_timer i (timer_list st0)); intros [= <- <-]; now apply numbered_same.
  - intros f e st0 st1 b E. destruct (listen_fd_timers _ _ _ _ _ E) as [l ->].
    now apply numbered_same.
  - intros. now apply numbered_same.
  - intros. now apply numbered_silent.
  - intros. now apply numbered_same.
  - intros. now apply numbered_same.
  - intros. now apply numbered_silent.
  - intros. now apply numbered_same.
  - intros. now apply numbered_silent.
  - intros. now apply numbered_silent.
  - intros. now apply numbered_same.
  - intros. now apply numbered_same.
  - intros. now apply numbered_silent.
Qed.

(** ** The bounds of the arrays *)

Lemma compact_length l : (length (compact l) <= length l)%nat.
Proof. induction l as [|p l IH]; simpl; [lia|]. destruct (fd p =? 0); simpl; lia. Qed.

Lemma write_revents_length revs : forall l, length (write_revents revs l) = length l.
Proof. intros l. revert revs. induction l as [|p l IH]; intros revs; simpl; [|rewrite IH]; reflexivity. Qed.

Lemma poll_length r l : length (poll r l).1 = length l.
Proof. destruct r; simpl; [reflexivity|apply write_revents_length]. Qed.

Lemma bounded_silent st st' :
  (within st -> within st') -> bounded_run st [] st'.
Proof. intros H W. split; [auto|constructor]. Qed.

Lemma bounded_one st e st' :
  (within st -> within st' /\ fits e) -> bounded_run st [e] st'.
Proof. intros H W. destruct (H W). split; [auto|repeat constructor; auto]. Qed.

Lemma bounded_stepwise : stepwise bounded_run.
Proof.
  split.
  - intros. now apply bounded_silent.
  - intros st tr1 st1 tr2 st2 H1 H2 W. destruct (H1 W) as [W1 F1].
    destruct (H2 W1) as [W2 F2]. split; [auto|now apply Forall_app_2].
  - intros now cb d o st0 st1 r E. apply bounded_one. revert E. unfold create_timer.
    destruct (MAX_TIMERS <=? timer_count st0)%nat eqn:Ef; intros [= <- <-]; intros [W1 W2].
    + split; [now split|]. intros l [= <-]. exact W1.
    + apply Nat.leb_gt in Ef. unfold timer_count in *. simpl.
      assert (length (bubble_last_timer (timer_list st0 ++
                [mk_timer (timer_next_id st0)
                   (Double.add now (if Double.ltb d MIN_DELAY then MIN_DELAY else d))
                   (if Double.ltb d MIN_DELAY then MIN_DELAY else d) o false]))
              = S (length (timer_list st0))) as Hl.
      { now rewrite bubble_last_perm. }
      split; [split|].
      * unfold within, timer_count. simpl. rewrite Hl. lia.
      * exact W2.
      * intros l [= <-]. rewrite Hl. lia.
  - intros i st0 st1 b E. apply bounded_one. revert E. unfold delete_timer.
    destruct (id (timer_expiring st0) =? i).
    { intros [= <- <-] W. split; [exact W|]. intros l [= <-]. apply W. }
    destruct (remove_timer i (timer_list st0)) as [l'|] eqn:Er; intros [= <- <-] [W1 W2].
    + destruct (remove_timer_Some _ _ _ Er) as (l1 & t & l2 & E1 & E2 & _).
      unfold timer_count in W1. rewrite E1, length_app in W1. simpl in W1.
      assert (length l' <= MAX_TIMERS)%nat by (rewrite E2, length_app; lia).
      split; [now split|]. now intros l [= <-].
    + split; [now split|]. now intros l [= <-].
  - intros f e st0 st1 b E. apply bounded_one. revert E. unfold listen_fd.
    destruct (listen_scan f e (poll_list st0)) as [l|] eqn:Es.
    + intros [= <- <-] [W1 W2]. destruct (listen_scan_spec _ _ _ _ Es) as [Hl _].
      split; [split; [exact W1|]|discriminate].
      unfold poll_count. simpl. rewrite Hl. exact W2.
    + destruct (MAX_FDS <=? poll_count st0)%nat eqn:Ef; intros [= <- <-] [W1 W2].
      * split; [now split|discriminate].
      * apply Nat.leb_gt in Ef. split; [split; [exact W1|]|discriminate].
        unfold poll_count in *. simpl. rewrite length_app. simpl. lia.
  - intros. apply bounded_one. intros W. split; [exact W|discriminate].
  - intros. now apply bounded_silent.
  - intros now st i t Ei -> t1. apply bounded_one. intros [W1 W2].
    split; [split; [|exact W2]|discriminate].
    unfold timer_count in *. simpl. rewrite length_take. lia.
  - intros. apply bounded_one. intros W. split; [exact W|discriminate].
  - intros. now apply bounded_silent.
  - intros st l Er Hc ->. apply bounded_one. intros [W1 W2].
    assert (length (bubble_last_timer (timer_list st ++ [timer_expiring st]))
            = S (length (timer_list st))) as Hl by (now rewrite bubble_last_perm).
    unfold within, timer_count in *.
    split; [split; [|exact W2]|].
    + simpl. rewrite Hl. lia.
    + intros l [= <-]. rewrite Hl. lia.
  - intros. now apply bounded_silent.
  - intros st. apply bounded_silent. intros [W1 W2]. split; [exact W1|].
    unfold poll_count in *. simpl. pose proof (compact_length (poll_list st)). lia.
  - intros r timeout st. apply bounded_one. intros [W1 W2].
    split; [split; [exact W1|]|exact W2].
    unfold poll_count in *. simpl. now rewrite poll_length.
  - intros. apply bounded_one. intros W. split; [exact W|discriminate].
  - intros st i p Ep. apply bounded_silent. intros [W1 W2]. split; [exact W1|].
    unfold poll_count in *. simpl. now rewrite length_insert.
Qed.

(** ** One entry for a descriptor *)

Lemma watched_app l1 l2 : watched (l1 ++ l2) = watched l1 ++ watched l2.
Proof. unfold watched. now rewrite fmap_app, filter_app. Qed.

Lemma watched_cons p l :
  watched (p :: l) = if fd p =? 0 then watched l else fd p :: watched l.
Proof.
  unfold watched. rewrite fmap_cons. destruct (fd p =? 0) eqn:E.
  - apply Z.eqb_eq in E. rewrite filter_cons_False; auto.
  - apply Z.eqb_neq in E. rewrite filter_cons_True; auto.
Qed.

Lemma watched_compact l : watched (compact l) = watched l.
Proof.
  induction l as [|p l IH]; [reflexivity|]. simpl. rewrite watched_cons.
  destruct (fd p =? 0) eqn:E; [exact IH|]. rewrite watched_cons, E. now f_equal.
Qed.

Lemma fds_write_revents revs : forall l, fd <$> write_revents revs l = fd <$> l.
Proof.
  intros l. revert revs. induction l as [|p l IH]; intros revs; [reflexivity|].
  simpl. f_equal. apply IH.
Qed.

Lemma watched_poll r l : watched (poll r l).1 = watched l.
Proof. destruct r; simpl; [reflexivity|]. unfold watched. now rewrite fds_write_revents. Qed.

Lemma watched_served i p l :
  l !! i = Some p -> watched (<[i := set_revents 0 p]> l) = watched l.
Proof.
  intros E. unfold watched. rewrite list_fmap_insert. simpl.
  rewrite list_insert_id; [reflexivity|]. now rewrite list_lookup_fmap, E.
Qed.

(** What [listen_fd] does to the descriptors watched. *)
Lemma listen_scan_watched f e l l' :
  listen_scan f e l = Some l' ->
  if (e =? 0) && negb (f =? 0) then
    exists w1 w2, watched l = w1 ++ f :: w2 /\ watched l' = w1 ++ w2 /\ f ∉ w1
  else watched l' = watched l.
Proof.
  revert l'. induction l as [|p l IH]; intros l'; simpl; [discriminate|].
  destruct (fd p =? f) eqn:Ef.
  - apply Z.eqb_eq in Ef. intros [= <-]. rewrite !watched_cons.
    destruct (e =? 0); simpl.
    + destruct (f =? 0) eqn:E0; simpl.
      * apply Z.eqb_eq in E0. rewrite Ef, E0. reflexivity.
      * rewrite Ef, E0. exists [], (watched l). split; [reflexivity|].
        split; [reflexivity|]. apply not_elem_of_nil.
    + reflexivity.
  - destruct (listen_scan f e l) as [l1|]; [|discriminate]. intros [= <-].
    specialize (IH _ eq_refl). rewrite !watched_cons.
    destruct ((e =? 0) && negb (f =? 0)).
    + destruct IH as (w1 & w2 & H1 & H2 & H3). destruct (fd p =? 0).
      * exists w1, w2. auto.
      * exists (fd p :: w1), w2. rewrite H1, H2. split; [reflexivity|].
        split; [reflexivity|]. apply Z.eqb_neq in Ef.
        intros [?|?]%elem_of_cons; [congruence|contradiction].
    + now rewrite IH.
Qed.

Lemma listen_scan_None f e l :
  listen_scan f e l = None -> Forall (fun p => fd p <> f) l.
Proof.
  induction l as [|p l IH]; simpl; [constructor|].
  destruct (fd p =? f) eqn:Ef; [discriminate|]. apply Z.eqb_neq in Ef.
  destruct (listen_scan f e l); [discriminate|]. constructor; auto.
Qed.

Lemma watched_listen f e st st1 b :
  listen_fd f e st = (st1, b) ->
  NoDup (watched (poll_list st)) -> NoDup (watched (poll_list st1)).
Proof.
  unfold listen_fd. destruct (listen_scan f e (poll_list st)) as [l|] eqn:Es.
  - intros [= <- <-] N. simpl. pose proof (listen_scan_watched _ _ _ _ Es) as H.
    destruct ((e =? 0) && negb (f =? 0)).
    + destruct H as (w1 & w2 & H1 & H2 & _). rewrite H1 in N. rewrite H2.
      apply NoDup_app in N as (N1 & N2 & N3). apply NoDup_cons in N3 as [_ N3].
      apply NoDup_app. split; [exact N1|]. split; [|exact N3].
      intros x Hx Hx2. apply (N2 x Hx). now right.
    + now rewrite H.
  - destruct (MAX_FDS <=? poll_count st)%nat; intros [= <- <-] N; [exact N|].
    simpl. rewrite watched_app. apply listen_scan_None in Es.
    rewrite (watched_cons _ []). simpl fd. change (watched []) with (@nil Z).
    apply NoDup_app. split; [exact N|].
    destruct (f =? 0) eqn:Hf.
    + split; [|apply NoDup_nil_2]. intros x _ Hx. now apply not_elem_of_nil in Hx.
    + split; [|apply NoDup_singleton].
      intros x Hx ->%list_elem_of_singleton. unfold watched in Hx.
      apply list_elem_of_filter in Hx as [_ Hx].
      apply list_elem_of_fmap in Hx as (p & Hp1 & Hp2).
      rewrite Forall_forall in Es. exact (Es p Hp2 (eq_sym Hp1)).
Qed.

Lemma single_stepwise : stepwise single_run.
Proof.
  split; unfold single_run; try (intros; simpl; assumption).
  - intros st tr1 st1 tr2 st2 H1 H2 N. auto.
  - intros now cb d o st0 st1 r. unfold create_timer.
    destruct (MAX_TIMERS <=? timer_count st0)%nat; intros [= <- <-]; auto.
  - intros i st0 st1 b. unfold delete_timer.
    destruct (id (timer_expiring st0) =? i); [intros [= <- <-]; auto|].
    destruct (remove_timer i (timer_list st0)); intros [= <- <-]; auto.
  - intros f e st0 st1 b E. now apply (watched_listen _ _ _ _ _ E).
  - intros st. simpl. now rewrite watched_compact.
  - intros r timeout st. simpl. now rewrite watched_poll.
  - intros st i p Ep. simpl. now rewrite watched_served.
Qed.

(** ** Readiness callbacks *)

Lemma ready_stepwise : stepwise (fun _ tr _ => Forall ready tr).
Proof.
  split; intros; try (now repeat constructor).
  now apply Forall_app_2.
Qed.

(** ** The exit request stays *)

Lemma exit_stepwise :
  stepwise (fun st _ st' => exit_requested st = true -> exit_requested st' = true).
Proof.
  split; try (intros; simpl; auto; fail).
  - intros now cb d o st0 st1 r. unfold create_timer.
    destruct (MAX_TIMERS <=? timer_count st0)%nat; intros [= <- <-]; auto.
  - intros i st0 st1 b. unfold delete_timer.
    destruct (id (timer_expiring st0) =? i); [intros [= <- <-]; auto|].
    destruct (remove_timer i (timer_list st0)); intros [= <- <-]; auto.
  - intros f e st0 st1 b E. destruct (listen_fd_timers _ _ _ _ _ E) as [l ->]. auto.
Qed.

(** ** What every run keeps *)

Lemma triple_eta {A B C} (x : A * B * C) : x = (x.1.1, x.1.2, x.2).
Proof. now destruct x as [[? ?] ?]. Qed.

Lemma after_eta p :
  run_js p eventloop_register =
  (after p, (run_js p eventloop_register).1.2, (run_js p eventloop_register).2).
Proof. apply triple_eta. Qed.

(** X1.  The ids that createTimer returns are 1, 2, 3, ... in the order of
    the calls, whoever makes them (the main script or a callback), and
    [timer_next_id] is the next of them: no id is given out twice. *)
Theorem timer_ids_count_up script fd_handler main env st1 ok tr1 s st2 tr2 :
  run_js main eventloop_register = (st1, ok, tr1) ->
  eventloop_run script fd_handler env st1 = (s, st2, tr2) ->
  created (tr1 ++ tr2) = seqZ 1 (Z.of_nat (length (created (tr1 ++ tr2)))) /\
  timer_next_id st2 = 1 + Z.of_nat (length (created (tr1 ++ tr2))).
Proof.
  intros E1 E2.
  exact (program_rel script fd_handler numbered numbered_stepwise _ _ _ _ _ _ _ _ E1 E2).
Qed.

(** X3.  [timer_list] never holds more than [MAX_TIMERS] timers and
    [poll_list] never more than [MAX_FDS] entries: in the state the main
    script leaves, in the state the loop leaves, in every list a call
    leaves on the way and in what [poll] is given. *)
Theorem arrays_within_bounds script fd_handler main env st1 ok tr1 s st2 tr2 :
  run_js main eventloop_register = (st1, ok, tr1) ->
  eventloop_run script fd_handler env st1 = (s, st2, tr2) ->
  within st1 /\ within st2 /\ Forall fits (tr1 ++ tr2).
Proof.
  intros E1 E2.
  assert (W0 : within eventloop_register) by (split; apply Nat.le_0_l).
  destruct (run_js_rel bounded_run bounded_stepwise _ _ _ _ _ E1 W0) as [W1 F1].
  destruct (eventloop_run_rel script fd_handler bounded_run bounded_stepwise
              _ _ _ _ _ E2 W1) as [W2 F2].
  split; [exact W1|]. split; [exact W2|]. now apply Forall_app_2.
Qed.

(** X16.  No descriptor is watched twice: among the entries of [poll_list]
    that are not marked as deleted, a descriptor occurs once. *)
Theorem one_entry_per_descriptor script fd_handler main env st1 ok tr1 s st2 tr2 :
  run_js main eventloop_register = (st1, ok, tr1) ->
  eventloop_run script fd_handler env st1 = (s, st2, tr2) ->
  NoDup (watched (poll_list st1)) /\ NoDup (watched (poll_list st2)).
Proof.
  intros E1 E2.
  assert (N0 : NoDup (watched (poll_list eventloop_register))) by apply NoDup_nil_2.
  pose proof (run_js_rel single_run single_stepwise _ _ _ _ _ E1 N0) as N1.
  split; [exact N1|].
  exact (eventloop_run_rel script fd_handler single_run single_stepwise _ _ _ _ _ E2 N1).
Qed.

Lemma compact_app l1 l2 : compact (l1 ++ l2) = compact l1 ++ compact l2.
Proof.
  induction l1 as [|p l1 IH]; [reflexivity|]. simpl.
  destruct (fd p =? 0); [exact IH|]. simpl. now rewrite IH.
Qed.

Lemma listen_scan_zero e l l' :
  listen_scan 0 e l = Some l' -> compact l' = compact l.
Proof.
  revert l'. induction l as [|p l IH]; intros l'; simpl; [discriminate|].
  destruct (fd p =? 0) eqn:Ef.
  - intros [= <-]. simpl. destruct (e =? 0); simpl; now rewrite ?Ef.
  - destruct (listen_scan 0 e l) as [l1|]; [|discriminate]. intros [= <-].
    simpl. rewrite Ef. f_equal. now apply IH.
Qed.

(** X17.  Descriptor 0 cannot be watched: an entry for it counts as deleted,
    so listenFd(0, events) leaves nothing that survives the next
    compaction, and [fdPollHandler] is never called for descriptor 0; nor
    is it called with no event to report. *)
Theorem descriptor_zero_is_not_watched script fd_handler :
  (forall e st, compact (poll_list (listen_fd 0 e st).1) = compact (poll_list st)) /\
  (forall env st, Forall ready (eventloop_run script fd_handler env st).2).
Proof.
  split.
  - intros e st. unfold listen_fd.
    destruct (listen_scan 0 e (poll_list st)) as [l|] eqn:Es.
    + simpl. now apply (listen_scan_zero e).
    + destruct (MAX_FDS <=? poll_count st)%nat; [reflexivity|].
      simpl. rewrite compact_app. simpl. apply app_nil_r.
  - intros env st.
    destruct (eventloop_run script fd_handler env st) as [[s st'] tr] eqn:E.
    exact (eventloop_run_rel script fd_handler _ ready_stepwise _ _ _ _ _ E).
Qed.

(** X11.  An exit request is final: nothing takes it back, and a loop
    entered with it returns at once, having called nothing and not
    waited. *)
Theorem exit_request_is_final script fd_handler tk env st :
  exit_requested st = true ->
  eventloop_run script fd_handler (tk :: env) st =
    (Exited, set_timer_expiring timer_zero st, []) /\
  (forall p st' ok tr, run_js p st = (st', ok, tr) -> exit_requested st' = true) /\
  (forall env' s st' tr,
     eventloop_run script fd_handler env' st = (s, st', tr) -> exit_requested st' = true).
Proof.
  intros He. split; [|split].
  - simpl. unfold run_iter, expire_timers.
    rewrite (expire_loop_exit script (now_expire tk) MAX_EXPIRYS st He).
    unfold run_after_expiry. simpl. now rewrite He.
  - intros p st' ok tr E. exact (run_js_rel _ exit_stepwise _ _ _ _ _ E He).
  - intros env' s st' tr E.
    exact (eventloop_run_rel script fd_handler _ exit_stepwise _ _ _ _ _ E He).
Qed.

Lemma ltb_leb_trans x y z :
  Double.ltb x y = true -> Double.leb y z = true -> Double.ltb x z = true.
Proof.
  unfold Double.ltb, Double.leb, SFltb, SFleb.
  destruct x as [s1| s1| |s1 m1 e1], y as [s2|s2| |s2 m2 e2], z as [s3|s3| |s3 m3 e3];
    simpl; try destruct s1; try destruct s2; try destruct s3; simpl;
    try reflexivity; try discriminate; try (intros; assumption).
  all: change (Pos.compare_cont Eq) with Pos.compare.
  all: destruct (Z.compare_spec e1 e2), (Z.compare_spec e2 e3), (Z.compare_spec e1 e3);
    try lia; try discriminate; try reflexivity; subst.
  all: destruct (Pos.compare_spec m1 m2), (Pos.compare_spec m2 m3), (Pos.compare_spec m1 m3);
    simpl; try lia; try discriminate; try reflexivity.
Qed.

Lemma last_app_inv {A} (l : list A) x :
  last l = Some x -> exists l', l = l' ++ [x].
Proof.
  intros H. destruct l as [|a l] using rev_ind; [discriminate|].
  rewrite last_snoc in H. injection H as ->. now exists l.
Qed.

(** ** createTimer *)

Lemma create_timer_spec now cb d o st :
  create_timer now cb d o st =
  if (MAX_TIMERS <=? timer_count st)%nat then (st, None)
  else (mk_state (bubble_last_timer (timer_list st ++ [new_timer now d o st]))
          (timer_expiring st) (timer_next_id st + 1) (poll_list st)
          (exit_requested st) (<[timer_next_id st := cb]> (eventTimers st)) (calls st),
        Some (timer_next_id st)).
Proof. reflexivity. Qed.

(** X6.  createTimer with a free slot returns [timer_next_id] and puts one
    timer with that id into the list, between the timers that were there
    and without changing their order; the delay of the timer is not below
    [MIN_DELAY], its target is the clock reading plus the delay, and the
    callback is in [eventTimers] under the id.  With no free slot it
    changes nothing. *)
Theorem create_timer_inserts now cb d o st :
  ((MAX_TIMERS <= timer_count st)%nat -> create_timer now cb d o st = (st, None)) /\
  ((timer_count st < MAX_TIMERS)%nat ->
   exists t st1 l1 l2,
     create_timer now cb d o st = (st1, Some (timer_next_id st)) /\
     id t = timer_next_id st /\ oneshot t = o /\ removed t = false /\
     Double.ltb (delay t) MIN_DELAY = false /\
     target t = Double.add now (delay t) /\
     timer_list st = l1 ++ l2 /\ timer_list st1 = l1 ++ t :: l2 /\
     eventTimers st1 = <[timer_next_id st := cb]> (eventTimers st) /\
     timer_next_id st1 = timer_next_id st + 1 /\
     timer_expiring st1 = timer_expiring st /\ poll_list st1 = poll_list st /\
     exit_requested st1 = exit_requested st).
Proof.
  rewrite create_timer_spec. split; intros H.
  - apply Nat.leb_le in H. now rewrite H.
  - apply Nat.leb_gt in H. rewrite H.
    destruct (bubble_last_spec (new_timer now d o st) (timer_list st))
      as (l1 & l2 & E1 & E2 & _).
    eexists (new_timer now d o st), _, l1, l2. split; [reflexivity|].
    repeat (split; [try reflexivity|]); try assumption; try reflexivity.
    unfold new_timer. simpl. destruct (Double.ltb d MIN_DELAY) eqn:Hd; [reflexivity|exact Hd].
Qed.

(** X7.  A timer created with a target that is not after the target of the
    nearest timer becomes the nearest: of timers with the same target, the
    one created last expires first. *)
Theorem newest_of_equal_targets_is_nearest now cb d o st st1 i p :
  create_timer now cb d o st = (st1, Some i) ->
  last (timer_list st) = Some p ->
  Double.leb (target (new_timer now d o st)) (target p) = true ->
  timer_list st1 = timer_list st ++ [new_timer now d o st] /\
  last (timer_list st1) = Some (new_timer now d o st) /\
  id (new_timer now d o st) = i.
Proof.
  rewrite create_timer_spec.
  destruct (MAX_TIMERS <=? timer_count st)%nat; [discriminate|].
  intros [= <- <-] Hl Hle. simpl.
  destruct (bubble_last_spec (new_timer now d o st) (timer_list st))
    as (l1 & l2 & E1 & E2 & F & _).
  assert (l2 = []) as ->.
  { destruct l2 as [|a l2] using rev_ind; [reflexivity|].
    rewrite E1, app_assoc, last_snoc in Hl. injection Hl as ->.
    apply Forall_app in F as [_ F]. inversion F; subst. congruence. }
  rewrite app_nil_r in E1. subst l1. rewrite E2.
  split; [reflexivity|]. split; [apply last_snoc|reflexivity].
Qed.

(** ** deleteTimer *)

Lemma remove_timer_fresh i l1 t l2 :
  i ∉ ids l1 -> id t = i -> remove_timer i (l1 ++ t :: l2) = Some (l1 ++ l2).
Proof.
  induction l1 as [|a l1 IH]; simpl; intros Hn Ht.
  - apply Z.eqb_eq in Ht. now rewrite Ht.
  - rewrite ids_cons in Hn. apply not_elem_of_cons in Hn as [Ha Hn].
    destruct (id a =? i) eqn:E; [apply Z.eqb_eq in E; congruence|].
    now rewrite IH.
Qed.

(** X8.  deleteTimer of the id that createTimer returned undoes the call
    but for [timer_next_id]: the list and [eventTimers] are as before. *)
Theorem create_then_delete now cb d o st st1 i :
  absent (timer_next_id st) st ->
  create_timer now cb d o st = (st1, Some i) ->
  i = timer_next_id st /\
  delete_timer i st1 = (set_timer_next_id (i + 1) st, true).
Proof.
  intros (Hl & Hh & Hs). rewrite create_timer_spec.
  destruct (MAX_TIMERS <=? timer_count st)%nat; [discriminate|].
  intros [= <- <-]. split; [reflexivity|].
  unfold delete_timer. simpl.
  destruct (id (timer_expiring st) =? timer_next_id st) eqn:E;
    [apply Z.eqb_eq in E; contradiction|].
  destruct (bubble_last_spec (new_timer now d o st) (timer_list st))
    as (l1 & l2 & E1 & E2 & _).
  rewrite E2, remove_timer_fresh; [| |reflexivity].
  - rewrite <- E1. unfold set_eventTimers, set_timer_list, set_timer_next_id. simpl.
    rewrite delete_insert_eq, delete_id by exact Hs. reflexivity.
  - rewrite E1, ids_app in Hl. intros H. apply Hl, elem_of_app. now left.
Qed.

(** X9.  deleteTimer of a pending timer, called outside the timer
    callbacks, finds it, takes it out of the list without changing the
    order of the others and deletes its callback; a second deleteTimer of
    the id finds nothing, and whatever runs afterwards, the callback of the
    timer is not called again. *)
Theorem cancelled_timer_never_fires script fd_handler i st :
  wf st -> id (timer_expiring st) = 0 -> i ∈ ids (timer_list st) ->
  exists l1 t l2,
    timer_list st = l1 ++ t :: l2 /\ id t = i /\
    delete_timer i st =
      (set_eventTimers (delete i (eventTimers st)) (set_timer_list (l1 ++ l2) st), true) /\
    delete_timer i (delete_timer i st).1 = ((delete_timer i st).1, false) /\
    forall p st2 ok tr2 env s st3 tr3,
      run_js p (delete_timer i st).1 = (st2, ok, tr2) ->
      eventloop_run script fd_handler env st2 = (s, st3, tr3) ->
      Forall (quiet i) (tr2 ++ tr3) /\ absent i st3.
Proof.
  intros Hw Hh Hi.
  assert (Hb : 1 <= i < timer_next_id st) by exact (ids_below _ _ _ (wf_ids _ Hw) Hi).
  destruct (remove_timer i (timer_list st)) as [l|] eqn:Er;
    [|apply remove_timer_None in Er; contradiction].
  destruct (remove_timer_Some _ _ _ Er) as (l1 & t & l2 & E1 & E2 & E3 & E4). subst l.
  assert (Ed : delete_timer i st =
            (set_eventTimers (delete i (eventTimers st)) (set_timer_list (l1 ++ l2) st), true)).
  { unfold delete_timer.
    destruct (id (timer_expiring st) =? i) eqn:E; [apply Z.eqb_eq in E; lia|].
    now rewrite Er. }
  exists l1, t, l2. rewrite Ed. simpl.
  split; [exact E1|]. split; [exact E3|]. split; [reflexivity|].
  assert (Hd : discarded_in i false
            (set_eventTimers (delete i (eventTimers st)) (set_timer_list (l1 ++ l2) st))).
  { split; [split; [split; [split|]|]|]; simpl.
    - pose proof (wf_nodup _ Hw) as N. rewrite E1, ids_app, ids_cons, E3 in N.
      apply NoDup_app in N as (_ & N2 & N3). apply NoDup_cons in N3 as [N3 _].
      rewrite ids_app. intros [H|H]%elem_of_app; [|contradiction].
      apply (N2 _ H). now left.
    - exact Hb.
    - intros H. lia.
    - apply lookup_delete_eq.
    - exact Hh. }
  split.
  { destruct (discarded_in_absent _ _ _ Hd) as (Ha1 & Ha2 & _).
    now apply delete_timer_unknown. }
  intros p st2 ok tr2 env s st3 tr3 R1 R2.
  destruct (discarded_in_run_js _ _ _ _ _ _ Hd R1) as [Hd2 Q2].
  destruct (discarded_eventloop_run _ _ _ _ _ _ _ _ Hd2 R2) as [Hd3 Q3].
  split; [now apply Forall_app_2|]. exact (discarded_in_absent _ _ _ Hd3).
Qed.

(** ** expire_timers fires what is due *)

Lemma expire_iter_one script now st st' tr :
  expire_iter script now st = (Continue, st', tr) -> callbacks tr = 1%nat.
Proof.
  intros E. destruct (expire_iter_trace _ _ _ _ _ _ E) as (H1 & _ & [->|H3]).
  - exfalso. revert E. unfold expire_iter.
    destruct (exit_requested st); [discriminate|].
    destruct (find_nearest_timer st); [|discriminate].
    destruct (Double.gtb _ now); [discriminate|].
    destruct (call_timer _ _ _) as [[st2 ok] trc].
    destruct (removed _); [discriminate|].
    destruct (MAX_TIMERS <=? _)%nat; [discriminate|].
    discriminate.
  - destruct H3 as (i & rest & -> & F). simpl. now rewrite (callbacks_none _ F).
Qed.

(** Where the loop of [expire_timers] stops before its cap. *)
Lemma expire_loop_stops script now sanity : forall st f st' tr,
  expire_loop script sanity now st = (f, st', tr) ->
  thrown f = false -> (callbacks tr < sanity)%nat ->
  exit_requested st' = true \/ timer_list st' = [] \/
  exists t, last (timer_list st') = Some t /\ Double.gtb (target t) now = true.
Proof.
  induction sanity as [|n IH]; intros st f st' tr; simpl.
  - intros [= <- <- <-] _ H. simpl in H. lia.
  - destruct (expire_iter script now st) as [[f1 st1] tr1] eqn:E1.
    destruct f1.
    + intros [= <- <- <-] _ _. revert E1. unfold expire_iter.
      destruct (exit_requested st) eqn:Ex; [intros [= <- <-]; now left|].
      destruct (find_nearest_timer st) as [i|] eqn:Ei.
      * destruct (Double.gtb _ now) eqn:Eg.
        -- intros [= <- <-]. right. right. exists (nth i (timer_list st) timer_zero).
           split; [|exact Eg]. destruct (nearest_split _ _ Ei) as [H _].
           rewrite H at 1. apply last_snoc.
        -- destruct (call_timer _ _ _) as [[st2 ok] trc].
           destruct (removed _); [discriminate|].
           destruct (MAX_TIMERS <=? _)%nat; discriminate.
      * intros [= <- <-]. right. left. unfold find_nearest_timer, timer_count in Ei.
        destruct (timer_list st); [reflexivity|discriminate].
    + destruct (expire_loop script n now st1) as [[f2 st2] tr2] eqn:E2.
      intros [= <- <- <-] Hf Hc. rewrite callbacks_app, (expire_iter_one _ _ _ _ _ E1) in Hc.
      apply (IH _ _ _ _ E2 Hf). lia.
    + intros [= <- <- <-]. discriminate.
Qed.

(** X10.  When [expire_timers] returns without having used up its
    [MAX_EXPIRYS] callbacks and without an exit request, no timer that is
    due is left: the target of every pending timer is after the clock
    reading. *)
Theorem expire_timers_leaves_none_due script now st st' tr :
  (forall h n, tame (script h n)) -> ordered st -> clock_ok now ->
  expire_timers script now st = (true, st', tr) ->
  exit_requested st' = false -> (callbacks tr < MAX_EXPIRYS)%nat ->
  Forall (fun a => Double.gtb (target a) now = true) (timer_list st').
Proof.
  intros Hs Ho Hn E Hx Hc.
  destruct (ordered_expire_timers _ _ _ _ _ _ Hs Ho Hn E) as [Ho' _].
  revert E. unfold expire_timers.
  destruct (expire_loop script MAX_EXPIRYS now st) as [[f st1] tr1] eqn:El.
  assert (Hf : thrown f = false -> st' = set_timer_expiring timer_zero st1 -> tr = tr1 ->
               Forall (fun a => Double.gtb (target a) now = true) (timer_list st')).
  { intros Hf -> ->. simpl in Hx.
    change (timer_list (set_timer_expiring timer_zero st1)) with (timer_list st1).
    destruct (expire_loop_stops _ _ _ _ _ _ _ El Hf Hc) as [H|[H|(t & Ht & Hg)]].
    - congruence.
    - rewrite H. constructor.
    - destruct (last_app_inv _ _ Ht) as [l' El'].
      pose proof (ordered_list _ Ho') as Hsort. simpl in Hsort. rewrite El' in *.
      apply StronglySorted_app in Hsort as (Hlt & _ & _).
      apply Forall_app_2; [|repeat constructor; exact Hg].
      apply Forall_forall. intros a Ha.
      apply (ltb_leb_trans now (target t)); [exact Hg|].
      apply (Hlt a t Ha). apply list_elem_of_here. }
  destruct f; intros [= <- <-]; try discriminate; now apply Hf.
Qed.

(** ** The callbacks in [eventTimers] *)

Lemma stash_register : stash_exact false eventloop_register.
Proof.
  split; [exact wf_register|]. split; [simpl; lia|].
  intros i. simpl. rewrite lookup_empty. split.
  - intros [x Hx]. discriminate.
  - intros [H|[H _]]; [|discriminate]. now apply elem_of_nil in H.
Qed.

Lemma stash_create m now cb d o st st1 r :
  stash_exact m st -> create_timer now cb d o st = (st1, r) -> stash_exact m st1.
Proof.
  intros (Hw & Hh & Hs) E. split; [exact (wf_create _ _ _ _ _ _ _ _ Hw E)|].
  revert E. rewrite create_timer_spec.
  destruct (MAX_TIMERS <=? timer_count st)%nat; intros [= <- <-]; [now split|].
  simpl. split; [lia|]. intros i.
  rewrite lookup_insert_is_Some, ids_bubble, elem_of_cons, Hs. simpl.
  destruct (decide (timer_next_id st = i)); intuition congruence.
Qed.

Lemma stash_delete m i st st1 b :
  stash_exact m st -> delete_timer i st = (st1, b) -> stash_exact m st1.
Proof.
  intros (Hw & Hh & Hs) E. split; [exact (wf_delete _ _ _ _ _ Hw E)|].
  revert E. unfold delete_timer.
  destruct (id (timer_expiring st) =? i) eqn:Ei; [intros [= <- <-]; now split|].
  apply Z.eqb_neq in Ei.
  destruct (remove_timer i (timer_list st)) as [l|] eqn:Er; intros [= <- <-]; [|now split].
  simpl. split; [exact Hh|]. intros j.
  destruct (remove_timer_Some _ _ _ Er) as (l1 & t & l2 & E1 & -> & E3 & E4).
  pose proof (wf_nodup _ (proj1 Hw)) as N. rewrite E1, ids_app, ids_cons, E3 in N.
  apply NoDup_app in N as (_ & N2 & N3). apply NoDup_cons in N3 as [N3 _].
  rewrite lookup_delete_is_Some, Hs, E1, !ids_app, ids_cons, !elem_of_app, elem_of_cons, E3.
  split.
  - intros (Hj & [[H|[H|H]]|H]); try tauto; congruence.
  - intros [[H|H]|[H1 H2]].
    + split; [|tauto]. intros ->. apply (N2 _ H). now left.
    + split; [|tauto]. now intros ->.
    + split; [congruence|tauto].
Qed.

Lemma stash_poll m l st : stash_exact m st -> stash_exact m (set_poll_list l st).
Proof. intros (Hw & Hh & Hs). split; [now apply wf_poll|now split]. Qed.

Lemma stash_listen m f e st st1 b :
  stash_exact m st -> listen_fd f e st = (st1, b) -> stash_exact m st1.
Proof. intros H E. destruct (listen_fd_timers _ _ _ _ _ E) as [l ->]. now apply stash_poll. Qed.

Lemma stash_exit m st : stash_exact m st -> stash_exact m (request_exit st).
Proof. intros (Hw & Hh & Hs). split; [now apply wf_exit|now split]. Qed.

Lemma stash_calls m n st : stash_exact m st -> stash_exact m (set_calls n st).
Proof. intros (Hw & Hh & Hs). split; [now apply wf_calls|now split]. Qed.

Lemma stash_pop now st i t :
  stash_exact false st -> find_nearest_timer st = Some i ->
  t = nth i (timer_list st) timer_zero ->
  let t1 := if oneshot t then set_removed true t
            else set_target (Double.add now (delay t)) t in
  stash_exact true (set_timer_expiring t1 (set_timer_list (take i (timer_list st)) st)).
Proof.
  intros (Hw & Hh & Hs) Ei Et t1.
  pose proof (wf_pop now _ _ _ Hw Ei Et) as Hw1. fold t1 in Hw1.
  split; [exact Hw1|]. destruct Hw1 as [_ Hb]. specialize (Hb eq_refl). simpl in Hb.
  simpl. split; [lia|]. intros j. rewrite Hs.
  destruct (nearest_split _ _ Ei) as [El _]. rewrite <- Et in El.
  rewrite El at 1. rewrite ids_app, elem_of_app. unfold ids at 2. simpl.
  rewrite list_elem_of_singleton.
  assert (E1 : id t1 = id t) by (unfold t1; now destruct (oneshot t)).
  rewrite E1. intuition congruence.
Qed.

Lemma stash_discard st :
  stash_exact true st ->
  stash_exact false (set_eventTimers (delete (id (timer_expiring st)) (eventTimers st)) st).
Proof.
  intros (Hw & Hh & Hs). split; [now apply wf_discard|]. split; [exact Hh|].
  destruct Hw as [_ Hb]. destruct (Hb eq_refl) as [_ Hout].
  intros j. simpl. rewrite lookup_delete_is_Some, Hs. split.
  - intros (Hj & [H|[_ H]]); [now left|congruence].
  - intros [H|[H _]]; [|discriminate]. split; [|now left]. now intros <-.
Qed.

Lemma stash_requeue st l :
  stash_exact true st ->
  l = bubble_last_timer (timer_list st ++ [timer_expiring st]) ->
  stash_exact false (set_timer_list l st).
Proof.
  intros (Hw & Hh & Hs) ->. split; [now apply (wf_requeue st)|]. split; [exact Hh|].
  intros j. simpl. rewrite ids_bubble, elem_of_cons, Hs. intuition congruence.
Qed.

Lemma stash_clear st :
  stash_exact false st -> stash_exact false (set_timer_expiring timer_zero st).
Proof.
  intros (Hw & Hh & Hs). split; [now apply wf_clear|].
  split; [simpl; pose proof (wf_next _ (proj1 Hw)); lia|].
  intros j. simpl. rewrite Hs. intuition congruence.
Qed.

Lemma stash_run_js m p st st' ok tr :
  stash_exact m st -> run_js p st = (st', ok, tr) -> stash_exact m st'.
Proof.
  intros Hw E.
  apply (run_js_inv (stash_exact m) (fun _ => True) (fun _ _ => True)) with (st := st) in E;
    try tauto; auto.
  - intros. split; auto. eapply stash_create; eauto.
  - intros. split; auto. eapply stash_delete; eauto.
  - intros. split; auto. eapply stash_listen; eauto.
  - intros. split; auto. now apply stash_exit.
  - apply admits_any.
Qed.

Lemma stash_expire_timers script now st r st' tr :
  stash_exact false st -> expire_timers script now st = (r, st', tr) ->
  stash_exact (negb r) st'.
Proof.
  intros Hw E.
  apply (expire_timers_inv script stash_exact (fun _ => True) (fun _ _ => True)
           (fun _ => True)) in E; auto.
  - apply E.
  - intros p s s' ok t _ H1 H2. split; [|now apply Forall_true]. eapply stash_run_js; eauto.
  - intros. now apply stash_calls.
  - intros. split; auto. now apply stash_pop.
  - intros. now apply stash_discard.
  - intros. split; auto. now apply stash_requeue.
  - apply stash_clear.
  - intros. apply admits_any.
Qed.

Lemma stash_eventloop_run script fd_handler env st s st' tr :
  stash_exact false st -> eventloop_run script fd_handler env st = (s, st', tr) ->
  stash_exact (threw (Some s)) st'.
Proof.
  intros Hw E.
  apply (eventloop_run_inv script fd_handler stash_exact (fun _ => True) (fun _ _ => True)
           (fun _ => True)) in E; auto.
  - apply E.
  - intros p s0 s' ok t _ H1 H2. split; [|now apply Forall_true]. eapply stash_run_js; eauto.
  - intros now s0 r s' t H1 _ H2. split; [|now apply Forall_true].
    eapply stash_expire_timers; eauto.
  - intros. now apply stash_poll.
  - intros. now apply stash_calls.
  - intros. apply admits_any.
  - now apply Forall_true.
Qed.

(** X4.  [eventTimers] holds a callback exactly for the pending timers:
    after the main script, and when the loop stops for another reason than
    a throw of [expire_timers].  So the callback of a timer that fires is
    there, nothing is left of a timer that is gone, and the id that
    createTimer returns next is in use nowhere. *)
Theorem callbacks_kept_for_pending_timers script fd_handler main env st1 ok tr1 s st2 tr2 :
  run_js main eventloop_register = (st1, ok, tr1) ->
  eventloop_run script fd_handler env st1 = (s, st2, tr2) ->
  (forall i, is_Some (eventTimers st1 !! i) <-> i ∈ ids (timer_list st1)) /\
  (s <> Threw ->
   forall i, is_Some (eventTimers st2 !! i) <-> i ∈ ids (timer_list st2)) /\
  absent (timer_next_id st2) st2.
Proof.
  intros E1 E2.
  pose proof (stash_run_js _ _ _ _ _ _ stash_register E1) as H1.
  pose proof (stash_eventloop_run _ _ _ _ _ _ _ H1 E2) as H2.
  split; [|split].
  - intros i. destruct H1 as (_ & _ & H1). rewrite H1. intuition congruence.
  - intros Hs i. destruct H2 as (_ & _ & H2). rewrite H2.
    destruct s; simpl; try intuition congruence.
  - destruct H2 as ([Hw _] & Hh & H2). split; [|split].
    + intros Hi. apply (ids_below _ _ _ (wf_ids _ Hw)) in Hi. lia.
    + lia.
    + apply eq_None_not_Some. rewrite H2. intros [Hi|[_ Hi]]; [|lia].
      apply (ids_below _ _ _ (wf_ids _ Hw)) in Hi. lia.
Qed.

Lemma eventloop_run_threw script fd_handler env st st' tr :
  eventloop_run script fd_handler env st = (Threw, st', tr) ->
  removed (timer_expiring st') = false /\ (MAX_TIMERS <= timer_count st')%nat.
Proof.
  intros E.
  apply (eventloop_run_inv script fd_handler
           (fun m st => m = true ->
              removed (timer_expiring st) = false /\ (MAX_TIMERS <= timer_count st)%nat)
           (fun _ => True) (fun _ _ => True) (fun _ => True)) in E.
  - now apply E.
  - intros. split; [discriminate|now apply Forall_true].
  - intros now s0 r s' t _ _ H2. split; [|now apply Forall_true].
    pose proof (expire_timers_holder _ _ _ _ _ _ H2) as H.
    destruct r; [discriminate|]. intros _. exact H.
  - discriminate.
  - discriminate.
  - exact (fun _ _ => I).
  - exact (fun _ _ => I).
  - exact (fun _ _ => I).
  - intros. apply admits_any.
  - discriminate.
  - now apply Forall_true.
Qed.

(** X5.  When the loop stops because [expire_timers] found no free slot
    to queue an interval timer back, the list is full and the timer is
    lost: it is in the holder, unmarked, and on no list, and [eventTimers]
    still has its callback. *)
Theorem out_of_slots_loses_timer script fd_handler main env st1 ok tr1 st2 tr2 :
  run_js main eventloop_register = (st1, ok, tr1) ->
  eventloop_run script fd_handler env st1 = (Threw, st2, tr2) ->
  timer_count st2 = MAX_TIMERS /\
  removed (timer_expiring st2) = false /\
  1 <= id (timer_expiring st2) /\
  (id (timer_expiring st2) ∉ ids (timer_list st2)) /\
  is_Some (eventTimers st2 !! id (timer_expiring st2)).
Proof.
  intros E1 E2.
  pose proof (stash_run_js _ _ _ _ _ _ stash_register E1) as H1.
  pose proof (stash_eventloop_run _ _ _ _ _ _ _ H1 E2) as ([_ Hb] & _ & H2).
  destruct (Hb eq_refl) as [Hr Hout].
  assert (W0 : within eventloop_register) by (split; apply Nat.le_0_l).
  destruct (run_js_rel bounded_run bounded_stepwise _ _ _ _ _ E1 W0) as [W1 _].
  destruct (eventloop_run_rel script fd_handler bounded_run bounded_stepwise
              _ _ _ _ _ E2 W1) as [[W2 _] _].
  destruct (eventloop_run_threw _ _ _ _ _ _ E2) as [Hrm Hfull].
  split; [lia|]. split; [exact Hrm|]. split; [lia|]. split; [exact Hout|].
  apply H2. right. now split.
Qed.

(** ** The wait *)

Lemma digits2_pos_bounds m :
  2 ^ (Zpos (digits2_pos m) - 1) <= Zpos m < 2 ^ Zpos (digits2_pos m).
Proof.
  induction m as [p IH|p IH|]; simpl digits2_pos.
  - rewrite Pos2Z.inj_succ. replace (Z.succ (Zpos (digits2_pos p)) - 1)
      with (Z.succ (Zpos (digits2_pos p) - 1)) by lia.
    rewrite !Z.pow_succ_r by lia. lia.
  - rewrite Pos2Z.inj_succ. replace (Z.succ (Zpos (digits2_pos p)) - 1)
      with (Z.succ (Zpos (digits2_pos p) - 1)) by lia.
    rewrite !Z.pow_succ_r by lia. lia.
  - simpl. lia.
Qed.

(** The mantissa of a normal double has 53 bits. *)
Lemma double_mantissa s m e :
  is_double (S754_finite s m e) -> -1074 < e ->
  2 ^ 52 <= Zpos m < 2 ^ 53.
Proof.
  unfold is_double, valid_binary, bounded, canonical_mantissa, fexp, emin,
    Double.prec, Double.emax.
  intros H He. apply andb_true_iff in H as [H _]. apply Z.eqb_eq in H.
  assert (Hd : Zpos (digits2_pos m) = 53) by lia.
  pose proof (digits2_pos_bounds m) as Hb. rewrite Hd in Hb. exact Hb.
Qed.

Lemma truncated_in_range m p :
  2 ^ 52 <= m < 2 ^ 53 -> 37 <= p <= 52 ->
  (p = 37 -> m <= 60000 * 2 ^ 37) ->
  1 <= m / 2 ^ p <= 60000.
Proof.
  intros Hm Hp H37.
  assert (H0 : 0 < 2 ^ p) by (apply Z.pow_pos_nonneg; lia).
  assert (H1 : 2 ^ p <= 2 ^ 52) by (apply Z.pow_le_mono_r; lia).
  split.
  - apply Z.div_le_lower_bound; lia.
  - apply Z.lt_succ_r. apply Z.div_lt_upper_bound; [exact H0|].
    destruct (Z.eq_dec p 37) as [->|Hn].
    + specialize (H37 eq_refl). lia.
    + assert (H2 : 2 ^ 38 <= 2 ^ p) by (apply Z.pow_le_mono_r; lia).
      change (2 ^ 53) with (32768 * 2 ^ 38) in Hm. lia.
Qed.

Lemma min_wait_value : MIN_WAIT = S754_finite false 4503599627370496 (-52).
Proof. reflexivity. Qed.

Lemma max_wait_value : MAX_WAIT = S754_finite false 8246337208320000 (-37).
Proof. reflexivity. Qed.

Lemma in_int_range a :
  1 <= a <= 60000 ->
  (if (- 2 ^ 31 <=? a) && (a <? 2 ^ 31) then Some a else None) = Some a.
Proof.
  intros H.
  assert (H1 : (- 2 ^ 31 <=? a) = true).
  { apply Z.leb_le. change (2 ^ 31) with 2147483648. lia. }
  assert (H2 : (a <? 2 ^ 31) = true).
  { apply Z.ltb_lt. change (2 ^ 31) with 2147483648. lia. }
  now rewrite H1, H2.
Qed.

(** The truncation of a double from 1.0 to 60000.0. *)
Lemma to_int_in_range m p :
  is_double (S754_finite false m (Zneg p)) ->
  37 <= Zpos p <= 52 -> (Zpos p = 37 -> Zpos m <= 60000 * 2 ^ 37) ->
  exists z, Double.to_int (S754_finite false m (Zneg p)) = Some z /\ 1 <= z <= 60000.
Proof.
  intros Hv Hp H37.
  assert (He : -1074 < Zneg p) by lia.
  pose proof (double_mantissa _ _ _ Hv He) as Hb.
  pose proof (truncated_in_range (Zpos m) (Zpos p) Hb Hp H37) as Hr.
  exists (Zpos m / 2 ^ Zpos p). split; [|exact Hr].
  unfold Double.to_int. now apply in_int_range.
Qed.

(** [<] on positive finite doubles: by the exponent, then by the
    mantissa. *)
Lemma ltb_finite m1 e1 m2 e2 :
  Double.ltb (S754_finite false m1 e1) (S754_finite false m2 e2) =
  match e1 ?= e2 with
  | Lt => true
  | Gt => false
  | Eq => match (m1 ?= m2)%positive with Lt => true | _ => false end
  end.
Proof.
  unfold Double.ltb, SFltb, SFcompare.
  change (PosDef.Pos.compare_cont Eq m1 m2) with (m1 ?= m2)%positive.
  destruct (e1 ?= e2); [|reflexivity|reflexivity].
  now destruct (m1 ?= m2)%positive.
Qed.

Lemma clamp_wait_finite m e :
  clamp_wait (S754_finite false m e) =
  if Double.ltb (S754_finite false m e) (S754_finite false 4503599627370496 (-52))
  then MIN_WAIT
  else if Double.ltb (S754_finite false 8246337208320000 (-37)) (S754_finite false m e)
       then MAX_WAIT
       else S754_finite false m e.
Proof. unfold clamp_wait, Double.gtb. now rewrite min_wait_value, max_wait_value at 1. Qed.

Lemma clamp_wait_range d :
  is_double d -> Double.is_nan d = false ->
  exists z, Double.to_int (clamp_wait d) = Some z /\ 1 <= z <= 60000.
Proof.
  intros Hv Hn.
  assert (Hmin : exists z, Double.to_int MIN_WAIT = Some z /\ 1 <= z <= 60000).
  { exists 1. split; [reflexivity|lia]. }
  assert (Hmax : exists z, Double.to_int MAX_WAIT = Some z /\ 1 <= z <= 60000).
  { exists 60000. split; [reflexivity|lia]. }
  destruct d as [s|s| |[|] m e]; try discriminate.
  - exact Hmin.
  - destruct s; assumption.
  - exact Hmin.
  - rewrite clamp_wait_finite, !ltb_finite.
    destruct (Z.compare_spec e (-52)) as [He|He|He]; [|exact Hmin|].
    + (* the exponent of 1.0 *)
      subst e.
      destruct (Pos.compare_spec m 4503599627370496) as [Hm|Hm|Hm]; [|exact Hmin|];
        (apply (to_int_in_range m 52 Hv); [split; discriminate|discriminate]).
    + destruct (Z.compare_spec (-37) e) as [He2|He2|He2]; [|exact Hmax|].
      * (* the exponent of 60000.0 *)
        subst e.
        destruct (Pos.compare_spec 8246337208320000 m) as [Hm|Hm|Hm]; [|exact Hmax|];
          (apply (to_int_in_range m 37 Hv); [split; discriminate|intros _]).
        -- subst m. discriminate.
        -- change (60000 * 2 ^ 37) with (Zpos 8246337208320000).
           apply Pos2Z.pos_le_pos, Pos.lt_le_incl, Hm.
      * destruct e as [|p|p]; try discriminate He2.
        apply (to_int_in_range m p Hv).
        -- clear -He He2. lia.
        -- intros Hp. exfalso. clear -He2 Hp. lia.
Qed.

Lemma sub_nan x : Double.sub S754_nan x = S754_nan.
Proof. reflexivity. Qed.

(** X12.  The timeout given to [poll] is between 1 and 60000 ms: when
    there is a pending timer and the time to its target, as computed, is a
    double other than NaN, it is that time cut to the range and truncated;
    with no timer but descriptors to watch it is 60000. *)
Theorem poll_timeout_in_range fd_handler tk st :
  exit_requested st = false ->
  (forall t, last (timer_list st) = Some t ->
     is_double (Double.sub (target t) (now_wait tk)) ->
     Double.is_nan (Double.sub (target t) (now_wait tk)) = false ->
     exists z r st' tr,
       run_after_expiry fd_handler tk st =
         (r, st', EvPoll (length (compact (poll_list st))) z :: tr) /\
       Double.to_int (clamp_wait (Double.sub (target t) (now_wait tk))) = Some z /\
       1 <= z <= 60000) /\
  (timer_list st = [] -> compact (poll_list st) <> [] ->
     exists r st' tr,
       run_after_expiry fd_handler tk st =
         (r, st', EvPoll (length (compact (poll_list st))) 60000 :: tr)).
Proof.
  intros Hx. unfold run_after_expiry. rewrite Hx. split.
  - intros t Ht Hv Hn.
    destruct (last_nearest (compact_poll_list st) t Ht) as (i & Ei & Et).
    rewrite Ei. simpl timer_list in *. rewrite Et.
    destruct (clamp_wait_range _ Hv Hn) as (z & Ez & Hz).
    rewrite Ez.
    destruct (poll (polled tk) (poll_list (compact_poll_list st))) as [l rc].
    destruct (dispatch _ _ _ _ _) as [[f st4] tr4].
    exists z, (option_map Faulted f), st4, tr4. split; [reflexivity|]. now split.
  - intros Hl Hp.
    assert (Ei : find_nearest_timer (compact_poll_list st) = None).
    { unfold find_nearest_timer, timer_count. simpl. now rewrite Hl. }
    rewrite Ei.
    assert (Ec : (poll_count (compact_poll_list st) =? 0)%nat = false).
    { apply Nat.eqb_neq. unfold poll_count. simpl.
      destruct (compact (poll_list st)); [contradiction|discriminate]. }
    rewrite Ec. change (Double.to_int MAX_WAIT) with (Some 60000).
    destruct (poll (polled tk) (poll_list (compact_poll_list st))) as [l rc].
    destruct (dispatch _ _ _ _ _) as [[f st4] tr4].
    exists (option_map Faulted f), st4, tr4. reflexivity.
Qed.

(** X13.  A pending timer whose target is NaN makes the loop convert a NaN
    to [int] when it is the nearest at the wait: the behaviour of the
    conversion is undefined.  A timer gets such a target from a delay
    that is NaN. *)
Theorem nan_target_is_converted script fd_handler tk env st t :
  (expire_timers script (now_expire tk) st).1.1 = true ->
  exit_requested (expire_timers script (now_expire tk) st).1.2 = false ->
  last (timer_list (expire_timers script (now_expire tk) st).1.2) = Some t ->
  Double.is_nan (target t) = true ->
  eventloop_run script fd_handler (tk :: env) st =
    (Faulted DoubleToInt,
     compact_poll_list (expire_timers script (now_expire tk) st).1.2,
     (expire_timers script (now_expire tk) st).2).
Proof.
  simpl. unfold run_iter.
  destruct (expire_timers script (now_expire tk) st) as [[r st1] tr1]. simpl.
  intros -> Hx Ht Hn. simpl.
  unfold run_after_expiry. rewrite Hx.
  destruct (last_nearest (compact_poll_list st1) t Ht) as (i & Ei & Et).
  rewrite Ei. simpl timer_list. simpl in Et. rewrite Et.
  destruct (target t); try discriminate. rewrite sub_nan.
  simpl. now rewrite app_nil_r.
Qed.

(** ** The poll list *)

Lemma compact_filter l : compact l = filter (fun p => fd p <> 0) l.
Proof.
  induction l as [|p l IH]; [reflexivity|]. simpl.
  destruct (Z.eqb_spec (fd p) 0) as [E|E].
  - rewrite filter_cons_False by tauto. exact IH.
  - rewrite filter_cons_True by exact E. now rewrite IH.
Qed.

Lemma compact_id l : Forall (fun p => fd p <> 0) l -> compact l = l.
Proof.
  induction 1 as [|p l Hp _ IH]; [reflexivity|]. simpl.
  destruct (Z.eqb_spec (fd p) 0); [contradiction|]. now rewrite IH.
Qed.

Lemma listen_scan_found f e l1 p l2 :
  Forall (fun q => fd q <> f) l1 -> fd p = f ->
  listen_scan f e (l1 ++ p :: l2) =
    Some (l1 ++ (if e =? 0 then set_fd 0 p else set_events (to_short e) p) :: l2).
Proof.
  intros H Hp. induction H as [|q l1 Hq _ IH]; simpl.
  - apply Z.eqb_eq in Hp. now rewrite Hp.
  - destruct (Z.eqb_spec (fd q) f); [contradiction|]. now rewrite IH.
Qed.

Lemma listen_scan_fresh f e l :
  Forall (fun q => fd q <> f) l -> listen_scan f e l = None.
Proof.
  induction 1 as [|q l Hq _ IH]; simpl; [reflexivity|].
  destruct (Z.eqb_spec (fd q) f); [contradiction|]. now rewrite IH.
Qed.

(** What the loop keeps: after the entries below [i], the array has the
    entries kept so far below [j] and is untouched from [i] on. *)
Lemma compact_loop_spec a0 k : forall i j a,
  (j <= i)%nat -> (i + k <= length a0)%nat -> length a = length a0 ->
  take j a = compact (take i a0) -> drop i a = drop i a0 ->
  exists a',
    compact_loop k i j a = (a', length (compact (take (i + k) a0))) /\
    length a' = length a0 /\
    take (length (compact (take (i + k) a0))) a' = compact (take (i + k) a0) /\
    drop (i + k) a' = drop (i + k) a0.
Proof.
  induction k as [|k IH]; intros i j a Hj Hk Hl Ht Hd.
  - rewrite Nat.add_0_r. exists a. simpl.
    assert (Ej : length (compact (take i a0)) = j).
    { rewrite <- Ht, length_take. lia. }
    rewrite Ej. auto.
  - replace (i + S k)%nat with (S i + k)%nat in * by lia.
    destruct (lookup_lt_is_Some_2 a0 i ltac:(lia)) as [p Hp].
    assert (Ha : a !! i = Some p).
    { rewrite <- (Nat.add_0_r i), <- lookup_drop, Hd, lookup_drop, Nat.add_0_r. exact Hp. }
    assert (En : nth i a pollfd_zero = p).
    { apply nth_lookup_Some with (d := pollfd_zero) in Ha. exact Ha. }
    assert (Hd' : forall b, drop i b = drop i a0 -> drop (S i) b = drop (S i) a0).
    { intros b Hb. replace (S i) with (i + 1)%nat by lia.
      rewrite <- !drop_drop, Hb. reflexivity. }
    assert (Hc : compact (take (S i) a0) = compact (take i a0) ++ compact [p]).
    { rewrite (take_S_r _ _ _ Hp). apply compact_app. }
    simpl compact_loop. rewrite En.
    destruct (Z.eqb_spec (fd p) 0) as [E0|E0].
    + apply IH; try lia; auto.
      rewrite Hc. simpl. rewrite E0. simpl. now rewrite app_nil_r.
    + assert (Ei : (if (i =? j)%nat then a else <[j := p]> a) = <[j := p]> a).
      { destruct (Nat.eqb_spec i j) as [<-|_]; [|reflexivity].
        symmetry. now apply list_insert_id. }
      rewrite Ei. apply IH; try lia.
      * now rewrite length_insert.
      * rewrite Hc. simpl. apply Z.eqb_neq in E0. rewrite E0.
        rewrite (take_S_r _ _ p).
        -- rewrite take_insert_ge by lia. now rewrite Ht.
        -- apply list_lookup_insert_eq. lia.
      * rewrite drop_insert_lt by lia. now apply Hd'.
Qed.

(** X20.  The loop of compact_poll_list, run on the array (input index i,
    output index j, an entry copied down when the indices differ, the
    entries from j on zeroed at the end), does what the list of the state
    says: with the poll list of the state in the first poll_count entries of
    the array and anything behind them, it leaves the entries whose fd is not
    0 at the start of the array, in their order, sets poll_count to their
    number, zeroes the entries between the new and the old poll_count and
    leaves the array behind the old poll_count as it was. *)
Theorem compact_loop_keeps_watched_entries st rest :
  compact_array (poll_list st ++ rest) (poll_count st) =
    (poll_list (compact_poll_list st)
       ++ replicate (poll_count st - poll_count (compact_poll_list st)) pollfd_zero
       ++ rest,
     poll_count (compact_poll_list st)) /\
  poll_list (compact_poll_list st) = filter (fun p => fd p <> 0) (poll_list st).
Proof.
  split; [|apply compact_filter].
  unfold compact_array, poll_count. simpl poll_list.
  set (l := poll_list st).
  destruct (compact_loop_spec (l ++ rest) (length l) 0 0 (l ++ rest))
    as (a' & E & Hl & Ht & Hd); simpl; auto; try lia.
  { rewrite length_app. lia. }
  simpl in E, Ht, Hd. rewrite take_app_length in E, Ht. rewrite drop_app_length in Hd.
  rewrite E. f_equal.
  pose proof (compact_length l) as Hc.
  assert (Ea : a' = compact l ++ drop (length (compact l)) a').
  { rewrite <- Ht at 1. now rewrite take_drop. }
  destruct (Nat.ltb_spec (length (compact l)) (length l)) as [Hlt|Hge].
  - unfold zeroize. rewrite Ht.
    replace (length (compact l) + (length l - length (compact l)))%nat
      with (length l) by lia.
    now rewrite Hd.
  - assert (En : length (compact l) = length l) by lia.
    rewrite En, Nat.sub_diag. simpl. rewrite <- Hd, <- En. exact Ea.
Qed.

(** X18.  listenFd(fd, events) for a descriptor that is not on the list,
    followed by listenFd(fd, 0): the first call appends an entry, the
    second marks it as deleted and leaves it in the list, and the next
    compaction gives the list that compaction would have given before the
    two calls. *)
Theorem watch_then_unwatch fd0 e st :
  fd0 <> 0 -> Forall (fun p => fd p <> fd0) (poll_list st) ->
  (poll_count st < MAX_FDS)%nat ->
  exists st1 st2,
    listen_fd fd0 e st = (st1, true) /\ listen_fd fd0 0 st1 = (st2, true) /\
    poll_list st1 = poll_list st ++ [mk_pollfd fd0 (to_short e) 0] /\
    poll_list st2 = poll_list st ++ [mk_pollfd 0 (to_short e) 0] /\
    compact_poll_list st2 = compact_poll_list st.
Proof.
  intros H0 Hf Hc. unfold listen_fd at 1.
  rewrite (listen_scan_fresh _ _ _ Hf).
  apply Nat.leb_gt in Hc. rewrite Hc.
  eexists _, _. split; [reflexivity|].
  unfold listen_fd. simpl poll_list.
  rewrite (listen_scan_found fd0 0 _ (mk_pollfd fd0 (to_short e) 0) [] Hf eq_refl).
  split; [reflexivity|]. split; [reflexivity|]. split; [reflexivity|].
  unfold compact_poll_list. simpl. rewrite compact_app. simpl.
  rewrite app_nil_r. reflexivity.
Qed.

Lemma watched_split f l :
  f <> 0 -> f ∈ watched l ->
  exists l1 p l2, l = l1 ++ p :: l2 /\ fd p = f /\ Forall (fun q => fd q <> f) l1.
Proof.
  intros H0. induction l as [|q l IH]; [intros H; now apply elem_of_nil in H|].
  rewrite watched_cons. destruct (Z.eq_dec (fd q) f) as [E|E].
  - intros _. exists [], q, l. split; [reflexivity|]. split; [exact E|constructor].
  - intros H. assert (H' : f ∈ watched l).
    { destruct (fd q =? 0); [exact H|].
      apply elem_of_cons in H as [H|H]; [congruence|exact H]. }
    destruct (IH H') as (l1 & p & l2 & -> & Hp & Hl).
    exists (q :: l1), p, l2. split; [reflexivity|]. split; [exact Hp|now constructor].
Qed.

(** X19.  listenFd(fd, 0) for a watched descriptor stops watching it and
    no other: the entry stays in the list, marked, and the call does not
    fail, however full the list is. *)
Theorem unwatch_stops_watching fd0 st :
  fd0 <> 0 -> NoDup (watched (poll_list st)) -> fd0 ∈ watched (poll_list st) ->
  exists st1,
    listen_fd fd0 0 st = (st1, true) /\
    poll_count st1 = poll_count st /\
    (fd0 ∉ watched (poll_list st1)) /\
    forall f, f <> fd0 -> f ∈ watched (poll_list st1) <-> f ∈ watched (poll_list st).
Proof.
  intros H0 Hn Hin.
  destruct (watched_split _ _ H0 Hin) as (l1 & p & l2 & El & Hp & Hl).
  assert (Es : listen_scan fd0 0 (poll_list st) = Some (l1 ++ set_fd 0 p :: l2)).
  { rewrite El. exact (listen_scan_found fd0 0 l1 p l2 Hl Hp). }
  unfold listen_fd. rewrite Es.
  eexists. split; [reflexivity|]. simpl.
  split; [unfold poll_count; simpl; rewrite El, !length_app; reflexivity|].
  rewrite El in Hn. rewrite El. rewrite !watched_app, !watched_cons in *. simpl.
  apply Z.eqb_neq in H0. rewrite Hp, H0 in *.
  apply NoDup_app in Hn as (_ & N2 & N3). apply NoDup_cons in N3 as [N3 _].
  split.
  - intros [H|H]%elem_of_app; [|contradiction]. apply (N2 _ H). now left.
  - intros f Hf. rewrite !elem_of_app, elem_of_cons. intuition congruence.
Qed.

(** ** The pass over the poll list *)

Lemma dispatch_count fd_handler t todo : forall i st f st' tr,
  dispatch fd_handler todo i t st = (f, st', tr) ->
  (callbacks tr <= todo)%nat /\
  Forall (fun e => is_poll e = false) tr /\
  Forall (fun e => forall j, is_timer_callback j e = false) tr.
Proof.
  induction todo as [|n IH]; intros i st f st' tr; simpl.
  - intros [= <- <- <-]. split; [simpl; lia|]. split; constructor.
  - destruct (poll_list st !! i) as [pfd|]; [|intros [= <- <- <-]].
    2:{ split; [simpl; lia|]. split; constructor. }
    assert (Hskip : dispatch fd_handler n (S i) t st = (f, st', tr) ->
              (callbacks tr <= S n)%nat /\
              Forall (fun e => is_poll e = false) tr /\
              Forall (fun e => forall j, is_timer_callback j e = false) tr).
    { intros E. destruct (IH _ _ _ _ _ E) as (H1 & H2 & H3). split; [lia|now split]. }
    destruct (fd pfd =? 0); [exact Hskip|].
    destruct (revents pfd =? 0); [exact Hskip|]. clear Hskip.
    destruct (call_fd _ _ _ _) as [[st1 ok] trc] eqn:Ec. unfold call_fd in Ec.
    pose proof (run_js_no_callbacks _ _ _ _ _ Ec) as Hc.
    pose proof (run_js_no_poll _ _ _ _ _ Ec) as Hp.
    assert (Ht : Forall (fun e => forall j, is_timer_callback j e = false) trc).
    { eapply Forall_impl; [exact Hc|]. intros e He j. now apply not_callback_not_timer. }
    set (st2 := set_poll_list _ st1). clearbody st2.
    assert (Hgo : forall f3 st3 tr3 mid,
              dispatch fd_handler n (S i) t st2 = (f3, st3, tr3) ->
              callbacks mid = O -> Forall (fun e => is_poll e = false) mid ->
              Forall (fun e => forall j, is_timer_callback j e = false) mid ->
              (callbacks ((EvFdCallback (fd pfd) (revents pfd) :: trc) ++ mid ++ tr3)
                 <= S n)%nat /\
              Forall (fun e => is_poll e = false)
                ((EvFdCallback (fd pfd) (revents pfd) :: trc) ++ mid ++ tr3) /\
              Forall (fun e => forall j, is_timer_callback j e = false)
                ((EvFdCallback (fd pfd) (revents pfd) :: trc) ++ mid ++ tr3)).
    { intros f3 st3 tr3 mid E3 M1 M2 M3. destruct (IH _ _ _ _ _ E3) as (H1 & H2 & H3).
      rewrite !callbacks_app. simpl. rewrite (callbacks_none _ Hc), M1.
      split; [lia|]. split.
      - apply (Forall_app_2 _ (_ :: _)); [now constructor|now apply Forall_app_2].
      - apply (Forall_app_2 _ (_ :: _)); [now constructor|now apply Forall_app_2]. }
    destruct ok.
    + destruct (dispatch _ _ _ _ st2) as [[f3 st3] tr3] eqn:E3.
      intros [= <- <- <-].
      exact (Hgo _ _ _ [] eq_refl eq_refl (Forall_nil_2 _) (Forall_nil_2 _)).
    + destruct t as [ti|].
      * destruct (dispatch _ _ _ _ st2) as [[f3 st3] tr3] eqn:E3.
        intros [= <- <- <-].
        refine (Hgo _ _ _ [EvLog _ _] eq_refl eq_refl _ _); repeat constructor.
      * intros [= <- <- <-]. simpl. rewrite (callbacks_none _ Hc).
        split; [lia|]. split; now constructor.
Qed.

(** X14.  A round waits at most once, and after the wait it calls
    [fdPollHandler] at most once for each entry that [poll] was given: the
    rest of the round has no more callbacks than that, none of them a
    timer callback, and no further wait. *)
Theorem one_wait_then_one_pass fd_handler tk st r st' tr :
  run_after_expiry fd_handler tk st = (r, st', tr) ->
  tr = [] \/
  exists timeout tr',
    tr = EvPoll (length (compact (poll_list st))) timeout :: tr' /\
    (callbacks tr' <= length (compact (poll_list st)))%nat /\
    Forall (fun e => is_poll e = false) tr' /\
    Forall (fun e => forall j, is_timer_callback j e = false) tr'.
Proof.
  unfold run_after_expiry.
  destruct (exit_requested st); [intros [= <- <- <-]; now left|].
  destruct (match find_nearest_timer (compact_poll_list st) with
            | Some _ => _ | None => _ end) as [s|[timeout|]];
    try (intros [= <- <- <-]; now left).
  pose proof (poll_length (polled tk) (poll_list (compact_poll_list st))) as Hl.
  destruct (poll _ _) as [l rc]. simpl in Hl.
  destruct (dispatch _ _ _ _ _) as [[f st4] tr4] eqn:E4.
  intros [= <- <- <-]. right. exists timeout, tr4. split; [reflexivity|].
  destruct (dispatch_count _ _ _ _ _ _ _ _ E4) as (H1 & H2 & H3).
  split; [|now split].
  destruct (rc =? 0); [lia|]. unfold poll_count in H1. simpl in H1. lia.
Qed.

(** X15.  Between the rounds of the loop no watched descriptor has events
    left over from a wait: the events that [poll] reported are handed to
    [fdPollHandler] once. *)
Theorem events_are_handed_over_once script fd_handler main env st1 ok tr1 st2 tr2 :
  run_js main eventloop_register = (st1, ok, tr1) ->
  eventloop_run script fd_handler env st1 = (Running, st2, tr2) ->
  polls_clear (poll_list st1) /\ polls_clear (poll_list st2).
Proof.
  intros E1 E2. pose proof (polls_clear_main main) as H1. rewrite E1 in H1. simpl in H1.
  split; [exact H1|]. exact (polls_clear_eventloop_run _ _ _ _ _ _ H1 E2).
Qed.

(** ** The ids of the pending timers *)

(** X2.  The ids of the pending timers are distinct, at least 1 and below
    [timer_next_id], in the state the main script leaves and in the state
    the loop leaves. *)
Theorem pending_ids_are_distinct script fd_handler main env st1 ok tr1 s st2 tr2 :
  run_js main eventloop_register = (st1, ok, tr1) ->
  eventloop_run script fd_handler env st1 = (s, st2, tr2) ->
  NoDup (ids (timer_list st1)) /\ NoDup (ids (timer_list st2)) /\
  Forall (fun t => 1 <= id t < timer_next_id st2) (timer_list st2).
Proof.
  intros E1 E2.
  pose proof (wf_run_js _ _ _ _ _ _ wf_register E1) as H1.
  pose proof (wf_eventloop_run _ _ _ _ _ _ _ H1 E2) as H2.
  split; [apply H1|]. split; apply H2.
Qed.

(** ** No timer fires before its target *)

Lemma same_id_same_timer l a b :
  NoDup (ids l) -> a ∈ l -> b ∈ l -> id a = id b -> a = b.
Proof.
  induction l as [|c l IH]; [intros _ H; now apply elem_of_nil in H|].
  rewrite ids_cons. intros [Hc Hn]%NoDup_cons [->|Ha]%elem_of_cons [->|Hb]%elem_of_cons E.
  - reflexivity.
  - exfalso. apply Hc. rewrite E. apply elem_of_ids. now exists b.
  - exfalso. apply Hc. rewrite <- E. apply elem_of_ids. now exists a.
  - now apply IH.
Qed.

Lemma waiting_create m t now cb d o st st1 r :
  waiting m t st -> create_timer now cb d o st = (st1, r) -> waiting m t st1.
Proof.
  intros (Hw & Hh & Hp) E. split; [exact (wf_create _ _ _ _ _ _ _ _ Hw E)|].
  rewrite create_timer_spec in E.
  destruct (MAX_TIMERS <=? timer_count st)%nat; injection E as <- <-; [now split|].
  split; [exact Hh|]. unfold waits in *. simpl. destruct Hp as [Hp|[Hp Hn]].
  - left. rewrite bubble_last_perm. now right.
  - right. split; [|lia]. rewrite ids_bubble. simpl.
    apply not_elem_of_cons. split; [lia|exact Hp].
Qed.

Lemma waiting_delete m t j st st1 b :
  waiting m t st -> delete_timer j st = (st1, b) -> waiting m t st1.
Proof.
  intros (Hw & Hh & Hp) E. split; [exact (wf_delete _ _ _ _ _ Hw E)|].
  revert E. unfold delete_timer.
  destruct (id (timer_expiring st) =? j); [intros [= <- <-]; now split|].
  destruct (remove_timer j (timer_list st)) as [l|] eqn:Er; intros [= <- <-]; [|now split].
  simpl. split; [exact Hh|].
  destruct (remove_timer_Some _ _ _ Er) as (l1 & t' & l2 & E1 & -> & E3 & E4).
  pose proof (wf_nodup _ (proj1 Hw)) as N.
  pose proof (wf_ids _ (proj1 Hw)) as Hi.
  destruct Hp as [Hp|[Hp Hn]].
  - assert (Ht' : t' ∈ timer_list st).
    { rewrite E1. apply elem_of_app. right. apply list_elem_of_here. }
    destruct (decide (id t = id t')) as [Hid|Hne].
    + apply (same_id_same_timer _ _ _ N Hp Ht') in Hid. subst t'. right.
      unfold waits; simpl. split.
      * rewrite E1, ids_app, ids_cons in N.
        apply NoDup_app in N as (_ & N2 & N3). apply NoDup_cons in N3 as [N3 _].
        rewrite ids_app. intros [H|H]%elem_of_app; [|contradiction].
        apply (N2 _ H). now left.
      * rewrite Forall_forall in Hi. apply (Hi _ Hp).
    + left. simpl. rewrite E1 in Hp. apply elem_of_app in Hp as [Hp|Hp].
      * apply elem_of_app. now left.
      * apply elem_of_cons in Hp as [Hp|Hp]; [now subst|].
        apply elem_of_app. now right.
  - right. simpl. split; [|exact Hn]. intros H. apply Hp.
    rewrite E1, ids_app, ids_cons. rewrite ids_app in H.
    apply elem_of_app in H as [H|H]; apply elem_of_app; [now left|right; now right].
Qed.

Lemma waiting_poll m t l st : waiting m t st -> waiting m t (set_poll_list l st).
Proof. intros (Hw & Hh & Hp). split; [now apply wf_poll|now split]. Qed.

Lemma waiting_run_js m t p st st' ok tr :
  waiting m t st -> run_js p st = (st', ok, tr) -> waiting m t st'.
Proof.
  intros Hw E.
  apply (run_js_inv (waiting m t) (fun _ => True) (fun _ _ => True)) with (st := st) in E;
    try tauto; auto.
  - intros. split; auto. eapply waiting_create; eauto.
  - intros. split; auto. eapply waiting_delete; eauto.
  - intros f e s0 s1 b H0 E0. split; auto.
    destruct (listen_fd_timers _ _ _ _ _ E0) as [l ->]. now apply waiting_poll.
  - intros s0 (H1 & H2 & H3). split; auto. split; [now apply wf_exit|now split].
  - apply admits_any.
Qed.

Lemma waiting_expire_iter script now t st f st' tr :
  Double.gtb (target t) now = true ->
  waiting false t st -> expire_iter script now st = (f, st', tr) ->
  waiting (thrown f) t st' /\ Forall (quiet (id t)) tr.
Proof.
  intros Hg Hw. unfold expire_iter.
  destruct (exit_requested st); [intros [= <- <- <-]; now split|].
  destruct (find_nearest_timer st) as [i|] eqn:Ei; [|intros [= <- <- <-]; now split].
  destruct (Double.gtb (target (nth i (timer_list st) timer_zero)) now) eqn:Ed;
    [intros [= <- <- <-]; now split|].
  destruct Hw as (Hw & _ & Hp).
  pose proof (wf_pop now _ _ _ Hw Ei eq_refl) as Hw1. simpl in Hw1.
  destruct (nearest_split _ _ Ei) as [El _].
  set (t' := nth i (timer_list st) timer_zero) in *.
  assert (Hne : id t' <> id t).
  { intros E. destruct Hp as [Hp|[Hp _]].
    - assert (t' = t) as Ht.
      { apply (same_id_same_timer (timer_list st)); [apply Hw| |exact Hp|exact E].
        rewrite El. apply elem_of_app. right. apply list_elem_of_here. }
      rewrite Ht in Ed. congruence.
    - apply Hp. rewrite <- E, El, ids_app. apply elem_of_app. right.
      apply list_elem_of_here. }
  set (t1 := if oneshot t' then _ else _) in *.
  assert (E1 : id t1 = id t') by (unfold t1; now destruct (oneshot t')).
  assert (Hw2 : waiting true t
            (set_timer_expiring t1 (set_timer_list (take i (timer_list st)) st))).
  { split; [exact Hw1|]. split; [simpl; intros _; congruence|]. simpl.
    destruct Hp as [Hp|[Hp Hn]].
    - left. rewrite El in Hp. apply elem_of_app in Hp as [Hp|Hp]; [exact Hp|].
      apply list_elem_of_singleton in Hp. congruence.
    - right. simpl. split; [|exact Hn]. intros H. apply Hp. rewrite El, ids_app.
      apply elem_of_app. now left. }
  clearbody t1.
  destruct (call_timer _ _ _) as [[st2 ok] trc] eqn:Ec.
  pose proof (call_timer_no_callbacks _ _ _ _ _ _ Ec) as Hq.
  assert (Hw3 : waiting true t st2).
  { revert Ec. unfold call_timer. destruct (eventTimers _ !! _) as [h|].
    - apply waiting_run_js. destruct Hw2 as (H1 & H2 & H3).
      split; [now apply wf_calls|now split].
    - intros [= <- <- <-]. destruct Hw2 as (H1 & H2 & H3).
      split; [now apply wf_calls|now split]. }
  assert (HQ : Forall (quiet (id t)) (EvTimerCallback (id t1)
      :: trc ++ (if ok then [] else [EvLog (id (timer_expiring st2)) None]))).
  { constructor.
    - unfold quiet. simpl. apply Z.eqb_neq. congruence.
    - apply Forall_app_2.
      + eapply Forall_impl; [exact Hq|]. intros e He. now apply not_callback_not_timer.
      + destruct ok; repeat constructor. }
  destruct Hw3 as (Hw3 & Hh3 & Hp3).
  destruct (removed (timer_expiring st2)) eqn:Er.
  - intros [= <- <- <-]. split; [|exact HQ]. simpl.
    split; [now apply wf_discard|]. split; [discriminate|exact Hp3].
  - destruct (MAX_TIMERS <=? timer_count st2)%nat.
    + intros [= <- <- <-]. split; [|exact HQ]. now split.
    + intros [= <- <- <-]. split.
      * split; [now apply (wf_requeue st2)|]. split; [discriminate|].
        unfold waits in *. simpl.
        destruct Hp3 as [Hp3|[Hp3 Hn3]].
        -- left. rewrite bubble_last_perm. now right.
        -- right. split; [|exact Hn3]. rewrite ids_bubble.
           apply not_elem_of_cons. split; [|exact Hp3]. intros E. now apply (Hh3 eq_refl).
      * apply (Forall_app_2 _ (_ :: _)); [exact HQ|]. repeat constructor.
Qed.

Lemma waiting_expire_loop script now t sanity : forall st f st' tr,
  Double.gtb (target t) now = true ->
  waiting false t st -> expire_loop script sanity now st = (f, st', tr) ->
  waiting (thrown f) t st' /\ Forall (quiet (id t)) tr.
Proof.
  induction sanity as [|n IH]; intros st f st' tr Hg Hw; simpl.
  - intros [= <- <- <-]. now split.
  - destruct (expire_iter script now st) as [[f1 st1] tr1] eqn:E1.
    destruct (waiting_expire_iter _ _ _ _ _ _ _ Hg Hw E1) as [Hw1 HQ1].
    destruct f1; try (intros [= <- <- <-]; now split).
    destruct (expire_loop script n now st1) as [[f2 st2] tr2] eqn:E2.
    intros [= <- <- <-]. destruct (IH _ _ _ _ Hg Hw1 E2) as [Hw2 HQ2].
    split; [exact Hw2|now apply Forall_app_2].
Qed.

(** X21.  No timer fires before its target: a pending timer whose target
    is after the clock reading of [expire_timers] is not called in that
    call, whatever the callbacks of other timers do; afterwards it is
    still pending, unchanged, unless a callback has cancelled it. *)
Theorem no_timer_fires_early script now st t r st' tr :
  wf st -> t ∈ timer_list st -> Double.gtb (target t) now = true ->
  expire_timers script now st = (r, st', tr) ->
  Forall (quiet (id t)) tr /\
  (t ∈ timer_list st' \/ id t ∉ ids (timer_list st')).
Proof.
  intros Hw Ht Hg. unfold expire_timers.
  destruct (expire_loop script MAX_EXPIRYS now st) as [[f st1] tr1] eqn:E.
  assert (H0 : waiting false t st).
  { split; [split; [exact Hw|discriminate]|]. split; [discriminate|now left]. }
  destruct (waiting_expire_loop _ _ _ _ _ _ _ _ Hg H0 E) as [(_ & _ & Hp) HQ].
  assert (Hp' : t ∈ timer_list st1 \/ id t ∉ ids (timer_list st1)).
  { destruct Hp as [Hp|[Hp _]]; [now left|now right]. }
  destruct f; intros [= <- <- <-]; now split.
Qed.

(** ** What deleteTimer finds *)

Lemma holder_idle script fd_handler env st s st' tr :
  id (timer_expiring st) = 0 ->
  eventloop_run script fd_handler env st = (s, st', tr) ->
  s <> Threw -> id (timer_expiring st') = 0.
Proof.
  intros H0 E.
  apply (eventloop_run_inv script fd_handler
           (fun m st => m = false -> id (timer_expiring st) = 0)
           (fun _ => True) (fun _ _ => True) (fun _ => True)) in E.
  - intros Hs. apply E. destruct s; try reflexivity. now elim Hs.
  - intros p s0 s' ok t _ H1 H2. split; [|now apply Forall_true].
    intros _. rewrite (holder_id_run_js _ _ _ _ _ H2). now apply H1.
  - intros now s0 r s' t _ _ H2. split; [|now apply Forall_true].
    pose proof (expire_timers_holder _ _ _ _ _ _ H2) as H.
    destruct r; [|discriminate]. intros _. now rewrite H.
  - intros l s0 H1 Hm. now apply H1.
  - intros n s0 H1 Hm. now apply H1.
  - exact (fun _ _ => I).
  - exact (fun _ _ => I).
  - exact (fun _ _ => I).
  - intros. apply admits_any.
  - intros _. exact H0.
  - now apply Forall_true.
Qed.

(** X22.  What deleteTimer finds when it is called outside the timer
    callbacks (after the main script, or after the loop has stopped for
    another reason than a throw of [expire_timers]): it returns true for
    the ids of the pending timers and for 0, the id of the empty holder,
    and for no other number; when it returns false it has changed
    nothing. *)
Theorem delete_timer_finds_pending_or_zero script fd_handler main env st1 ok tr1 s st2 tr2 :
  run_js main eventloop_register = (st1, ok, tr1) ->
  eventloop_run script fd_handler env st1 = (s, st2, tr2) ->
  s <> Threw ->
  forall i,
    ((delete_timer i st2).2 = true <-> i = 0 \/ i ∈ ids (timer_list st2)) /\
    ((delete_timer i st2).2 = false -> (delete_timer i st2).1 = st2).
Proof.
  intros E1 E2 Hs i.
  assert (H1 : id (timer_expiring st1) = 0).
  { now rewrite (holder_id_run_js _ _ _ _ _ E1). }
  pose proof (holder_idle _ _ _ _ _ _ _ H1 E2 Hs) as H2.
  unfold delete_timer. rewrite H2.
  destruct (Z.eqb_spec 0 i) as [<-|Hi]; simpl.
  - split; [|discriminate]. split; [now left|reflexivity].
  - destruct (remove_timer i (timer_list st2)) as [l|] eqn:Er; simpl.
    + split; [|discriminate]. split; [|reflexivity]. intros _. right.
      destruct (decide (i ∈ ids (timer_list st2))) as [H|H]; [exact H|].
      apply remove_timer_None in H. congruence.
    + split; [|reflexivity]. split; [discriminate|].
      intros [H|H]; [congruence|]. apply remove_timer_None in Er. contradiction.
Qed.

(** * Examples *)

(** The scenario of the specification: delays 50, 10 and 30 set at the same
    instant expire in the order 10, 30, 50. *)
Example three_timers_in_order :
  ids (pending (after demo_three)) = [2; 3; 1] /\
  (expire_timers demo_script (ms 100) (after demo_three)).2 =
    [EvTimerCallback 2; EvTimerCallback 3; EvTimerCallback 1].
Proof. split; reflexivity. Qed.

Lemma tame_demo_script h n : tame (demo_script h n).
Proof.
  destruct h as [|[|[|h]]]; simpl; repeat (constructor; intros); reflexivity.
Qed.

Lemma wf_after p : wf (after p).
Proof.
  unfold after. destruct (run_js p eventloop_register) as [[st ok] tr] eqn:E.
  apply (wf_run_js false _ _ _ _ _ wf_register E).
Qed.

Lemma timers_stay_ordered_witness :
  tame demo_three /\
  Forall snapshot_ascending
    ((run_js demo_three eventloop_register).2 ++
     (eventloop_run demo_script demo_fd_ok [demo_tick] (after demo_three)).2) /\
  ascending (pending (after demo_three)) = true.
Proof.
  assert (Hm : tame demo_three).
  { unfold demo_three. repeat (constructor; intros); reflexivity. }
  split; [exact Hm|].
  destruct (run_js demo_three eventloop_register) as [[st1 ok] tr1] eqn:E1.
  destruct (eventloop_run demo_script demo_fd_ok [demo_tick] (after demo_three))
    as [[s st2] tr2] eqn:E2.
  assert (Ha : after demo_three = st1) by (unfold after; now rewrite E1).
  rewrite Ha in *.
  assert (He : Forall (fun tk => clock_ok (now_expire tk)) [demo_tick]).
  { repeat constructor. }
  destruct (timers_stay_ordered demo_script demo_fd_ok demo_three [demo_tick]
              st1 ok tr1 s st2 tr2 Hm tame_demo_script
              (fun _ _ _ => admits_return regular) He E1 E2) as (H1 & H2 & _).
  split; assumption.
Defined.

(** C1, at the failing input.  createTimer accepts the delay NaN (its
    test [delay < MIN_DELAY] is false for NaN) and the timer has the target
    NaN: set before a timer with delay 5 it ends up at the near end of the
    list, set after it at the far end, and in neither case is the list in
    order. *)
Lemma nan_delay_breaks_order :
  map (fun t => Double.is_nan (target t)) (pending (after demo_nan)) = [true; false] /\
  ascending (pending (after demo_nan)) = false /\
  map (fun t => Double.is_nan (target t)) (pending (after demo_nan_last)) = [false; true] /\
  ascending (pending (after demo_nan_last)) = false.
Proof. repeat split. Qed.






Lemma poll_error_as_nothing_ready_witness :
  eventloop_run demo_script demo_fd_ok [demo_tick] (after demo_listen) =
    (Running, (eventloop_run demo_script demo_fd_ok [demo_tick] (after demo_listen)).1.2,
     [EvPoll 1 60000]) /\
  exists r st' tr,
    run_iter demo_script demo_fd_ok (mk_tick (ms 200) (ms 200) PollError)
      (eventloop_run demo_script demo_fd_ok [demo_tick] (after demo_listen)).1.2 =
      (r, st', tr) /\
    Forall (fun e => is_fd_callback e = false) tr /\
    (Exists (fun e => is_poll e = true) tr -> r = None).
Proof.
  assert (E : eventloop_run demo_script demo_fd_ok [demo_tick] (after demo_listen) =
    (Running, (eventloop_run demo_script demo_fd_ok [demo_tick] (after demo_listen)).1.2,
     [EvPoll 1 60000])) by reflexivity.
  split; [exact E|].
  exact (proj2 (poll_error_as_nothing_ready demo_script demo_fd_ok demo_listen
                  [demo_tick] [] (ms 200) (ms 200)) _ _ E).
Defined.

Lemma fires_after_ticker :
  fires (ms 100) (after demo_ticker) (nth 0 (timer_list (after demo_ticker)) timer_zero).
Proof. repeat split. Qed.

(** The interval timer set at 0 with delay 10 and fired at 100 is queued
    back with the target 110, not 20. *)
Lemma interval_target_from_now_witness :
  fires (ms 100) (after demo_ticker) (nth 0 (timer_list (after demo_ticker)) timer_zero) /\
  Double.add (target (nth 0 (timer_list (after demo_ticker)) timer_zero)) (ms 10) = ms 20 /\
  (expire_iter demo_script (ms 100) (after demo_ticker)).1.1 = Continue /\
  timer_list (expire_iter demo_script (ms 100) (after demo_ticker)).1.2 =
    [mk_timer 1 (ms 110) (ms 10) false false] /\
  (expire_iter demo_script (ms 100) (after demo_ticker)).2 =
    [EvTimerCallback 1; EvRequeue 1 [mk_timer 1 (ms 110) (ms 10) false false]].
Proof.
  split; [exact fires_after_ticker|]. split; [reflexivity|].
  assert (Hc : (timer_count (call_timer demo_script 1
                  (popped (ms 100) (after demo_ticker))).1.1 < MAX_TIMERS)%nat).
  { apply Nat.ltb_lt. reflexivity. }
  destruct (interval_target_from_now demo_script (ms 100) (after demo_ticker) _ _ _ _
              fires_after_ticker eq_refl
              (triple_eta (call_timer demo_script 1 (popped (ms 100) (after demo_ticker)))))
    as (_ & _ & _ & H & _).
  destruct (H eq_refl Hc) as [E _]. rewrite E. repeat split.
Defined.

Lemma expiry_is_capped_witness :
  exists r st' tr,
    expire_timers demo_script (ms 1000) (after demo_chain) = (r, st', tr) /\
    (callbacks tr <= 10)%nat.
Proof.
  destruct (expiry_is_capped demo_script (ms 1000) (after demo_chain))
    as (r & st' & tr & E & Hc & _).
  exists r, st', tr. split; [exact E|exact Hc].
Defined.

(** The chain of timers that are due at once is cut after ten callbacks, and
    the eleventh timer stays pending. *)
Example chain_is_cut :
  callbacks (expire_timers demo_script (ms 1000) (after demo_chain)).2 = 10%nat /\
  ids (timer_list (expire_timers demo_script (ms 1000) (after demo_chain)).1.2) = [11].
Proof. split; reflexivity. Qed.

Lemma idle_loop_stops_witness :
  expire_timers demo_script (ms 100) eventloop_register = (true, eventloop_register, []) /\
  exists s st',
    eventloop_run demo_script demo_fd_ok [demo_tick; demo_tick] eventloop_register =
      (s, st', []) /\
    (s = Idle \/ s = Exited).
Proof.
  split; [reflexivity|].
  destruct (idle_loop_stops demo_script demo_fd_ok demo_tick [demo_tick]
              eventloop_register true eventloop_register []
              eq_refl eq_refl eq_refl) as (s & st' & E & Hs & _).
  exists s, st'. split; [exact E|exact Hs].
Defined.

(** With no timer and no descriptor, the loop ends at once. *)
Example nothing_to_do :
  eventloop_run demo_script demo_fd_ok [demo_tick; demo_tick] eventloop_register =
  (Idle, eventloop_register, []).
Proof. reflexivity. Qed.

Lemma listen_unknown_fd_zero_events_witness :
  Forall (fun p => fd p <> 9) (poll_list (after demo_listen)) /\
  poll_list (fst (listen_fd 9 0 (after demo_listen))) =
    [mk_pollfd 7 1 0; mk_pollfd 9 0 0].
Proof.
  assert (H : Forall (fun p => fd p <> 9) (poll_list (after demo_listen))).
  { repeat constructor. simpl. lia. }
  split; [exact H|].
  rewrite (proj1 (listen_unknown_fd_zero_events 9 (after demo_listen) H)).
  reflexivity.
Defined.

Lemma failing_fd_callback_reads_null_timer_witness :
  timer_list (after demo_listen) = [] /\
  run_after_expiry demo_fd_fails (mk_tick (ms 100) (ms 100) (PollDone [1]))
    (after demo_listen) =
    (Some (Faulted NullTimerRead),
     set_calls 1 (set_poll_list [mk_pollfd 7 1 1] (after demo_listen)),
     [EvPoll 1 60000; EvFdCallback 7 1]).
Proof.
  split; [reflexivity|].
  exact (proj2 (proj2 (failing_fd_callback_reads_null_timer demo_fd_fails))
           (mk_tick (ms 100) (ms 100) (PollDone [1])) (after demo_listen)
           (mk_pollfd 7 1 0) [] 1 [] _ [] eq_refl eq_refl eq_refl eq_refl
           ltac:(lia) eq_refl).
Defined.

Lemma timer_ids_count_up_witness :
  created ((run_js demo_three eventloop_register).2 ++
           (eventloop_run demo_script demo_fd_ok [demo_tick] (after demo_three)).2)
  = [1; 2; 3].
Proof.
  rewrite (proj1 (timer_ids_count_up demo_script demo_fd_ok demo_three [demo_tick]
                    _ _ _ _ _ _
                    (after_eta demo_three)
                    (triple_eta (eventloop_run demo_script demo_fd_ok [demo_tick]
                                   (after demo_three))))).
  reflexivity.
Defined.

Lemma arrays_within_bounds_witness :
  within (after demo_three) /\
  Forall fits (eventloop_run demo_script demo_fd_ok [demo_tick] (after demo_three)).2.
Proof.
  destruct (arrays_within_bounds demo_script demo_fd_ok demo_three [demo_tick]
              _ _ _ _ _ _
              (after_eta demo_three)
              (triple_eta (eventloop_run demo_script demo_fd_ok [demo_tick]
                             (after demo_three)))) as (H1 & _ & H3).
  split; [exact H1|]. apply Forall_app in H3. apply H3.
Defined.

Lemma one_entry_per_descriptor_witness :
  NoDup (watched (poll_list (after demo_watch))) /\
  poll_list (after demo_watch) = [mk_pollfd 0 1 0; mk_pollfd 0 1 0].
Proof.
  split; [|reflexivity].
  exact (proj1 (one_entry_per_descriptor demo_script demo_fd_ok demo_watch []
                  _ _ _ Running _ []
                  (after_eta demo_watch) eq_refl)).
Defined.

Lemma exit_request_is_final_witness :
  exit_requested (after demo_watch) = true /\
  eventloop_run demo_script demo_fd_ok [demo_tick] (after demo_watch) =
    (Exited, after demo_watch, []).
Proof.
  split; [reflexivity|].
  exact (proj1 (exit_request_is_final demo_script demo_fd_ok demo_tick []
                  (after demo_watch) eq_refl)).
Defined.

Lemma create_timer_inserts_witness :
  (timer_count (after demo_timeout) < MAX_TIMERS)%nat /\
  exists t st1,
    create_timer (ms 0) 0%nat (ms 200) true (after demo_timeout) = (st1, Some 2) /\
    timer_list st1 = t :: timer_list (after demo_timeout).
Proof.
  assert (H : (timer_count (after demo_timeout) < MAX_TIMERS)%nat).
  { apply Nat.ltb_lt. reflexivity. }
  split; [exact H|].
  destruct (proj2 (create_timer_inserts (ms 0) 0%nat (ms 200) true (after demo_timeout)) H)
    as (t & st1 & l1 & l2 & E & _).
  exists (nth 0 (timer_list st1) timer_zero), st1. split; [exact E|].
  injection E as <-. reflexivity.
Defined.

(** Two timers set at the same instant with the same delay: the second
    fires first. *)
Lemma newest_of_equal_targets_is_nearest_witness :
  last (timer_list (after demo_timeout)) = Some (mk_timer 1 (ms 10) (ms 10) true false) /\
  (exists st1,
     create_timer (ms 0) 0%nat (ms 10) true (after demo_timeout) = (st1, Some 2) /\
     last (timer_list st1) = Some (mk_timer 2 (ms 10) (ms 10) true false)) /\
  (expire_timers demo_script (ms 100) (after demo_twins)).2 =
    [EvTimerCallback 2; EvTimerCallback 1].
Proof.
  split; [reflexivity|]. split; [|reflexivity].
  eexists. split; [reflexivity|].
  exact (proj1 (proj2 (newest_of_equal_targets_is_nearest (ms 0) 0%nat (ms 10) true
                         (after demo_timeout) _ 2 _ eq_refl eq_refl eq_refl))).
Defined.

Lemma create_then_delete_witness :
  absent 2 (after demo_timeout) /\
  delete_timer 2 (create_timer (ms 0) 0%nat (ms 200) true (after demo_timeout)).1 =
    (set_timer_next_id 3 (after demo_timeout), true).
Proof.
  assert (H : absent (timer_next_id (after demo_timeout)) (after demo_timeout)).
  { split; [|split; [|reflexivity]].
    - intros Hi. apply list_elem_of_singleton in Hi. discriminate.
    - discriminate. }
  split; [exact H|].
  exact (proj2 (create_then_delete (ms 0) 0%nat (ms 200) true (after demo_timeout)
                  _ 2 H eq_refl)).
Defined.

Lemma cancelled_timer_never_fires_witness :
  wf (after demo_three) /\ 2 ∈ ids (timer_list (after demo_three)) /\
  Forall (quiet 2)
    (eventloop_run demo_script demo_fd_ok [demo_tick] (delete_timer 2 (after demo_three)).1).2.
Proof.
  assert (Hi : 2 ∈ ids (timer_list (after demo_three))).
  { apply list_elem_of_further, list_elem_of_further, list_elem_of_here. }
  split; [apply wf_after|]. split; [exact Hi|].
  destruct (cancelled_timer_never_fires demo_script demo_fd_ok 2 (after demo_three)
              (wf_after _) eq_refl Hi) as (l1 & t & l2 & _ & _ & _ & _ & H).
  destruct (eventloop_run demo_script demo_fd_ok [demo_tick]
              (delete_timer 2 (after demo_three)).1) as [[s st3] tr3] eqn:E.
  exact (proj1 (H JsReturn _ true [] [demo_tick] s st3 tr3 eq_refl E)).
Defined.

(** Of the timers with delays 50, 10 and 30, the one with delay 10 is
    cancelled: the other two fire. *)
Example cancelled_timer_is_skipped :
  (eventloop_run demo_script demo_fd_ok [demo_tick] (delete_timer 2 (after demo_three)).1).2 =
  [EvTimerCallback 3; EvTimerCallback 1].
Proof. reflexivity. Qed.

Lemma expire_timers_leaves_none_due_witness :
  ordered (after demo_near_far) /\
  exists st' tr,
    expire_timers demo_script (ms 100) (after demo_near_far) = (true, st', tr) /\
    tr = [EvTimerCallback 1] /\
    Forall (fun a => Double.gtb (target a) (ms 100) = true) (timer_list st').
Proof.
  assert (Ho : ordered (after demo_near_far)).
  { unfold after.
    destruct (run_js demo_near_far eventloop_register) as [[st ok] tr] eqn:E.
    refine (proj1 (ordered_run_js demo_near_far _ _ _ _ _ ordered_register E)).
    unfold demo_near_far. repeat (constructor; intros); reflexivity. }
  split; [exact Ho|]. eexists _, _. do 2 (split; [reflexivity|]).
  refine (expire_timers_leaves_none_due demo_script (ms 100) (after demo_near_far) _ _
            tame_demo_script Ho eq_refl eq_refl eq_refl _).
  apply Nat.ltb_lt. reflexivity.
Defined.

Lemma callbacks_kept_for_pending_timers_witness :
  (forall i, is_Some (eventTimers (after demo_three) !! i) <->
             i ∈ ids (timer_list (after demo_three))) /\
  absent 4 (eventloop_run demo_script demo_fd_ok [demo_tick] (after demo_three)).1.2.
Proof.
  destruct (callbacks_kept_for_pending_timers demo_script demo_fd_ok demo_three [demo_tick]
              _ _ _ _ _ _
              (after_eta demo_three)
              (triple_eta (eventloop_run demo_script demo_fd_ok [demo_tick]
                             (after demo_three)))) as (H1 & _ & H3).
  split; [exact H1|exact H3].
Defined.

(** A full list: 4095 one-shot timers and an interval timer whose callback
    sets another timer.  When the interval timer has fired there is no
    slot to queue it back. *)
Lemma out_of_slots_loses_timer_witness :
  (eventloop_run demo_script demo_fd_ok [demo_tick] (after demo_full)).1.1 = Threw /\
  timer_count (eventloop_run demo_script demo_fd_ok [demo_tick] (after demo_full)).1.2 =
    MAX_TIMERS.
Proof.
  assert (Hs : (eventloop_run demo_script demo_fd_ok [demo_tick] (after demo_full)).1.1
               = Threw) by (vm_compute; reflexivity).
  split; [exact Hs|].
  pose proof (triple_eta (eventloop_run demo_script demo_fd_ok [demo_tick]
                            (after demo_full))) as E2.
  rewrite Hs in E2.
  exact (proj1 (out_of_slots_loses_timer demo_script demo_fd_ok demo_full [demo_tick]
                  _ _ _ _ _ (after_eta demo_full) E2)).
Defined.

Lemma poll_timeout_in_range_witness :
  last (timer_list (after demo_timeout)) = Some (mk_timer 1 (ms 10) (ms 10) true false) /\
  is_double (Double.sub (ms 10) (ms 3)) /\
  exists r st' tr,
    run_after_expiry demo_fd_ok (mk_tick (ms 3) (ms 3) (PollDone [])) (after demo_timeout) =
      (r, st', EvPoll 0 7 :: tr).
Proof.
  split; [reflexivity|]. split; [reflexivity|].
  destruct (proj1 (poll_timeout_in_range demo_fd_ok (mk_tick (ms 3) (ms 3) (PollDone []))
                     (after demo_timeout) eq_refl)
              (mk_timer 1 (ms 10) (ms 10) true false) eq_refl eq_refl eq_refl)
    as (z & r & st' & tr & E & Ez & _).
  injection Ez as <-. exists r, st', tr. exact E.
Defined.

(** setInterval(f, NaN): the timer fires [MAX_EXPIRYS] times in the first
    round, and then the wait is computed from its target. *)
Lemma nan_target_is_converted_witness :
  callbacks (expire_timers demo_script (ms 100) (after demo_nan_interval)).2 = 10%nat /\
  (eventloop_run demo_script demo_fd_ok [demo_tick] (after demo_nan_interval)).1.1 =
    Faulted DoubleToInt.
Proof.
  split; [reflexivity|].
  rewrite (nan_target_is_converted demo_script demo_fd_ok demo_tick []
             (after demo_nan_interval)
             (mk_timer 1 Double.nan Double.nan false false)
             eq_refl eq_refl eq_refl eq_refl).
  reflexivity.
Defined.

Lemma watch_then_unwatch_witness :
  Forall (fun p => fd p <> 9) (poll_list (after demo_listen)) /\
  (poll_count (after demo_listen) < MAX_FDS)%nat /\
  poll_list (listen_fd 9 0 (listen_fd 9 1 (after demo_listen)).1).1 =
    [mk_pollfd 7 1 0; mk_pollfd 0 1 0] /\
  compact_poll_list (listen_fd 9 0 (listen_fd 9 1 (after demo_listen)).1).1 =
    after demo_listen.
Proof.
  assert (H : Forall (fun p => fd p <> 9) (poll_list (after demo_listen))).
  { repeat constructor. simpl. lia. }
  assert (Hc : (poll_count (after demo_listen) < MAX_FDS)%nat).
  { apply Nat.ltb_lt. reflexivity. }
  split; [exact H|]. split; [exact Hc|].
  destruct (watch_then_unwatch 9 1 (after demo_listen) ltac:(lia) H Hc)
    as (st1 & st2 & E1 & E2 & _ & E4 & E5).
  rewrite E1. simpl. rewrite E2. simpl. rewrite E4, E5. split; reflexivity.
Defined.

Lemma unwatch_stops_watching_witness :
  NoDup (watched (poll_list (after demo_listen_two))) /\
  7 ∈ watched (poll_list (after demo_listen_two)) /\
  exists st1,
    listen_fd 7 0 (after demo_listen_two) = (st1, true) /\
    (7 ∉ watched (poll_list st1)) /\ 8 ∈ watched (poll_list st1).
Proof.
  assert (Hn : NoDup (watched (poll_list (after demo_listen_two)))).
  { apply NoDup_cons. split; [|apply NoDup_singleton].
    intros H. apply list_elem_of_singleton in H. discriminate. }
  assert (Hi : 7 ∈ watched (poll_list (after demo_listen_two))) by apply list_elem_of_here.
  split; [exact Hn|]. split; [exact Hi|].
  destruct (unwatch_stops_watching 7 (after demo_listen_two) ltac:(lia) Hn Hi)
    as (st1 & E & _ & Hout & Hother).
  exists st1. split; [exact E|]. split; [exact Hout|].
  apply (Hother 8 ltac:(lia)). apply list_elem_of_further, list_elem_of_here.
Defined.

Lemma one_wait_then_one_pass_witness :
  let tr := (run_after_expiry demo_fd_listens (mk_tick (ms 100) (ms 100) (PollDone [1; 1]))
               (after demo_listen)).2 in
  tr = [] \/
  exists timeout tr',
    tr = EvPoll 1 timeout :: tr' /\ (callbacks tr' <= 1)%nat /\
    Forall (fun e => is_poll e = false) tr' /\
    Forall (fun e => forall j, is_timer_callback j e = false) tr'.
Proof.
  destruct (run_after_expiry demo_fd_listens (mk_tick (ms 100) (ms 100) (PollDone [1; 1]))
              (after demo_listen)) as [[r st'] tr] eqn:E.
  exact (one_wait_then_one_pass _ _ _ _ _ _ E).
Defined.

(** The handler watches descriptor 9 when it is called for descriptor 7:
    the entry for 9 is not looked at in the same pass. *)
Example new_entry_waits_for_the_next_round :
  (run_after_expiry demo_fd_listens (mk_tick (ms 100) (ms 100) (PollDone [1; 1]))
     (after demo_listen)).2 =
    [EvPoll 1 60000; EvFdCallback 7 1; EvListenFd 9 1 true] /\
  poll_list (run_after_expiry demo_fd_listens (mk_tick (ms 100) (ms 100) (PollDone [1; 1]))
               (after demo_listen)).1.2 =
    [mk_pollfd 7 1 0; mk_pollfd 9 1 0].
Proof. split; reflexivity. Qed.

Lemma events_are_handed_over_once_witness :
  (eventloop_run demo_script demo_fd_ok
     [mk_tick (ms 100) (ms 100) (PollDone [1])] (after demo_listen)).2 =
    [EvPoll 1 60000; EvFdCallback 7 1] /\
  polls_clear
    (poll_list (eventloop_run demo_script demo_fd_ok
                  [mk_tick (ms 100) (ms 100) (PollDone [1])] (after demo_listen)).1.2).
Proof.
  split; [reflexivity|].
  exact (proj2 (events_are_handed_over_once demo_script demo_fd_ok demo_listen
                  [mk_tick (ms 100) (ms 100) (PollDone [1])] _ _ _ _ _
                  (after_eta demo_listen)
                  (triple_eta (eventloop_run demo_script demo_fd_ok
                                 [mk_tick (ms 100) (ms 100) (PollDone [1])]
                                 (after demo_listen))))).
Defined.

Lemma pending_ids_are_distinct_witness :
  NoDup (ids (timer_list (after demo_three))) /\
  ids (timer_list (after demo_three)) = [1; 3; 2].
Proof.
  split; [|reflexivity].
  exact (proj1 (pending_ids_are_distinct demo_script demo_fd_ok demo_three []
                  _ _ _ Running _ []
                  (after_eta demo_three) eq_refl)).
Defined.

Lemma no_timer_fires_early_witness :
  mk_timer 2 (ms 200) (ms 200) true false ∈ timer_list (after demo_near_far) /\
  Forall (quiet 2) (expire_timers demo_script (ms 100) (after demo_near_far)).2 /\
  (expire_timers demo_script (ms 100) (after demo_near_far)).2 = [EvTimerCallback 1].
Proof.
  assert (Hi : mk_timer 2 (ms 200) (ms 200) true false ∈ timer_list (after demo_near_far)).
  { apply list_elem_of_here. }
  split; [exact Hi|]. split; [|reflexivity].
  exact (proj1 (no_timer_fires_early demo_script (ms 100) (after demo_near_far)
                  (mk_timer 2 (ms 200) (ms 200) true false) _ _ _
                  (wf_after _) Hi eq_refl
                  (triple_eta (expire_timers demo_script (ms 100) (after demo_near_far))))).
Defined.

Lemma delete_timer_finds_pending_or_zero_witness :
  (delete_timer 3 (after demo_three)).2 = true /\
  (delete_timer 0 (after demo_three)).2 = true /\
  (delete_timer 4 (after demo_three)).2 = false /\
  ((delete_timer 9 (after demo_three)).2 = true <->
   9 = 0 \/ 9 ∈ ids (timer_list (after demo_three))).
Proof.
  split; [reflexivity|]. split; [reflexivity|]. split; [reflexivity|].
  exact (proj1 (delete_timer_finds_pending_or_zero demo_script demo_fd_ok demo_three []
                  _ _ _ Running _ [] (after_eta demo_three) eq_refl
                  ltac:(discriminate) 9)).
Defined.

(** Compaction of an array of four entries of which three are in use and
    one of these is marked: the entry for descriptor 8 is copied down, the
    third entry is zeroed, and the entry behind [poll_count] is not
    touched. *)
Example compact_array_of_three :
  compact_array [mk_pollfd 7 1 0; mk_pollfd 0 1 0; mk_pollfd 8 1 4; mk_pollfd 5 5 5] 3 =
    ([mk_pollfd 7 1 0; mk_pollfd 8 1 4; pollfd_zero; mk_pollfd 5 5 5], 2%nat).
Proof. reflexivity. Qed.

Example one_is_canonical : MIN_DELAY = S754_finite false 4503599627370496 (-52).
Proof. reflexivity. Qed.

Example max_wait_to_int : Double.to_int MAX_WAIT = Some 60000.
Proof. reflexivity. Qed.
